(** * Lume: a shallow embedding of the browser-side logic

    The repository holds two front ends.  [lume-agent] is a chat component
    with a suggestion generator and a fetch-based API client (token store,
    token refresh, logout, task polling); [lume_frontend] is the Next.js
    application (OAuth landing page, permission modal, chat view).

    Conventions of the embedding.
    - A JavaScript string is a sequence of UTF-16 code units.  The model keeps
      the code units 0..255 (Basic Latin and Latin-1 Supplement), one [ascii]
      per unit, which is also exactly the range of the binary strings that
      [atob] produces.  On that range the built-in string operations used by
      the sources act unit by unit and are written out below.
    - For an optional string, [undefined] and [null] are [None]; the falsy
      test ([!s], [s || d]) treats [None] and the empty string alike, as
      JavaScript does.  For a value received from the network, [null] is
      [JNull] and [undefined] is [None].
    - Asynchronous functions are run to completion against an environment
      that supplies the outcome of every [fetch]; a promise that never
      settles is the outcome [Pending].  Storage and cookie operations are
      taken not to raise, and callbacks passed in by the caller not to
      throw. *)

From Stdlib Require Import ZArith Ascii String List Bool Lia DecimalString.
From Stdlib Require QArith Qround.
From stdpp Require Import base option list strings gmap.

Import ListNotations.
Local Open Scope string_scope.
Local Open Scope list_scope.
Set Warnings "-register-all".

(** ** JavaScript primitives used by the sources *)

Module JS.

(** Truthiness of an optional string: [undefined], [null] and [''] are falsy. *)
Definition truthy (s : option string) : bool :=
  match s with
  | None => false
  | Some s => negb (String.eqb s "")
  end.

(** [s || d] for an optional string and a string default. *)
Definition or_else (s : option string) (d : string) : string :=
  match s with
  | Some v => if String.eqb v "" then d else v
  | None => d
  end.

(** Case mapping of one code unit in 0..255: A-Z and the Latin-1 capitals
    U+00C0..U+00DE (the multiplication sign U+00D7 excepted) move up by 32. *)
Definition lower_unit (c : ascii) : ascii :=
  let n := N_of_ascii c in
  if ((65 <=? n) && (n <=? 90) || (192 <=? n) && (n <=? 222) && negb (n =? 215))%N
  then ascii_of_N (n + 32)
  else c.

(** [String.prototype.toLowerCase]. *)
Fixpoint toLowerCase (s : string) : string :=
  match s with
  | EmptyString => EmptyString
  | String c r => String (lower_unit c) (toLowerCase r)
  end.

(** White space and line terminators of ECMAScript within 0..255:
    TAB, LF, VT, FF, CR, SP and NBSP. *)
Definition is_space (c : ascii) : bool :=
  let n := N_of_ascii c in
  ((9 <=? n) && (n <=? 13) || (n =? 32) || (n =? 160))%N.

Fixpoint strip_start (p : ascii -> bool) (s : string) : string :=
  match s with
  | EmptyString => EmptyString
  | String c r => if p c then strip_start p r else s
  end.

(** Drops the trailing units that satisfy [p]: a unit is kept when it does
    not satisfy [p] or when something survives behind it. *)
Fixpoint strip_end (p : ascii -> bool) (s : string) : string :=
  match s with
  | EmptyString => EmptyString
  | String c r =>
      match strip_end p r with
      | EmptyString => if p c then EmptyString else String c EmptyString
      | r' => String c r'
      end
  end.

(** [String.prototype.trim]. *)
Definition trim (s : string) : string := strip_end is_space (strip_start is_space s).

(** [s.split(sep)] for a one-unit separator: always at least one piece. *)
Fixpoint split (sep : ascii) (s : string) : list string :=
  match s with
  | EmptyString => [EmptyString]
  | String c r =>
      if Ascii.eqb c sep then EmptyString :: split sep r
      else match split sep r with
           | p :: ps => String c p :: ps
           | [] => [String c EmptyString]
           end
  end.

(** [xs.join(sep)]. *)
Definition join (sep : string) (xs : list string) : string := String.concat sep xs.

(** [hay.includes(needle)]. *)
Fixpoint includes (needle hay : string) : bool :=
  String.prefix needle hay
  || match hay with
     | EmptyString => false
     | String _ r => includes needle r
     end.

(** Decimal rendering of an integral number, as in a template literal. *)
Definition number_to_string (n : Z) : string := NilZero.string_of_int (Z.to_int n).

Definition hex_digit (n : N) : ascii :=
  if (n <? 10)%N then ascii_of_N (48 + n) else ascii_of_N (55 + n).

Definition percent (n : N) : string :=
  String "%" (String (hex_digit (n / 16)) (String (hex_digit (n mod 16)) EmptyString)).

(** Units that [encodeURIComponent] leaves alone: letters, digits and
    [- _ . ! ~ * ' ( )]. *)
Definition uri_unreserved (c : ascii) : bool :=
  let n := N_of_ascii c in
  ((65 <=? n) && (n <=? 90) || (97 <=? n) && (n <=? 122) || (48 <=? n) && (n <=? 57)
   || (n =? 45) || (n =? 95) || (n =? 46) || (n =? 33) || (n =? 126)
   || (n =? 42) || (n =? 39) || (n =? 40) || (n =? 41))%N.

(** [encodeURIComponent]: every other unit is escaped through its UTF-8
    encoding, one byte below U+0080 and two bytes from there to U+00FF. *)
Fixpoint encodeURIComponent (s : string) : string :=
  match s with
  | EmptyString => EmptyString
  | String c r =>
      let n := N_of_ascii c in
      (if uri_unreserved c then String c EmptyString
       else if (n <? 128)%N then percent n
       else percent (192 + n / 64) +:+ percent (128 + n mod 64))
      +:+ encodeURIComponent r
  end.

(** *** [atob]: the forgiving base64 decoder of the HTML standard *)

Definition is_ascii_whitespace (c : ascii) : bool :=
  let n := N_of_ascii c in
  ((n =? 9) || (n =? 10) || (n =? 12) || (n =? 13) || (n =? 32))%N.

Definition sextet (c : ascii) : option N :=
  let n := N_of_ascii c in
  if ((65 <=? n) && (n <=? 90))%N then Some (n - 65)%N
  else if ((97 <=? n) && (n <=? 122))%N then Some (n - 71)%N
  else if ((48 <=? n) && (n <=? 57))%N then Some (n + 4)%N
  else if (n =? 43)%N then Some 62%N
  else if (n =? 47)%N then Some 63%N
  else None.

Fixpoint sextets (l : list ascii) : option (list N) :=
  match l with
  | [] => Some []
  | c :: r =>
      match sextet c, sextets r with
      | Some v, Some vs => Some (v :: vs)
      | _, _ => None
      end
  end.

(** Four sextets give three bytes; a tail of two gives one byte and a tail
    of three gives two, the surplus bits being dropped. *)
Fixpoint octets (l : list N) : list ascii :=
  match l with
  | a :: b :: c :: d :: rest =>
      ascii_of_N (a * 4 + b / 16)
      :: ascii_of_N ((b mod 16) * 16 + c / 4)
      :: ascii_of_N ((c mod 4) * 64 + d)
      :: octets rest
  | [a; b; c] => [ascii_of_N (a * 4 + b / 16); ascii_of_N ((b mod 16) * 16 + c / 4)]
  | [a; b] => [ascii_of_N (a * 4 + b / 16)]
  | _ => []
  end%N.

(** Removes one or two trailing [=] when the length is a multiple of four. *)
Definition strip_padding (l : list ascii) : list ascii :=
  if (length l mod 4 =? 0)%nat then
    match rev l with
    | "="%char :: "="%char :: r => rev r
    | "="%char :: r => rev r
    | _ => l
    end
  else l.

(** [atob(data)]; [None] is the [InvalidCharacterError] exception. *)
Definition atob (data : string) : option string :=
  let l := strip_padding (List.filter (fun c => negb (is_ascii_whitespace c)) (list_ascii_of_string data)) in
  if (length l mod 4 =? 1)%nat then None
  else option_map (fun v => string_of_list_ascii (octets v)) (sextets l).

End JS.

(** ** lume-agent: the API client *)

Module Api.

Import JS.

(** *** Values received from the network

    Parsed JSON; numbers are the integral ones.  A response read as text is
    a [JString].  [None] in [value] is [undefined]. *)
Inductive json :=
  | JNull
  | JBool (b : bool)
  | JNumber (n : Z)
  | JString (s : string)
  | JArray (items : list json)
  | JObject (fields : list (string * json)).

Definition value := option json.

(** A repeated key keeps its last binding, as [JSON.parse] does. *)
Fixpoint lookup_last (k : string) (fields : list (string * json)) : option json :=
  match fields with
  | [] => None
  | (k', v) :: rest =>
      match lookup_last k rest with
      | Some v' => Some v'
      | None => if String.eqb k k' then Some v else None
      end
  end.

(** Property read [v.k] for the property names the sources read
    ([access_token], [refresh_token], [status], [exp]): [None] is the
    [TypeError] raised on [undefined] and [null]; primitives and arrays have
    no such property. *)
Definition get (v : value) (k : string) : option value :=
  match v with
  | None | Some JNull => None
  | Some (JObject fields) => Some (lookup_last k fields)
  | Some _ => Some None
  end.

(** String conversion, as performed by template literals and by
    [localStorage.setItem]. *)
Fixpoint json_to_string (v : json) : string :=
  match v with
  | JNull => "null"
  | JBool true => "true"
  | JBool false => "false"
  | JNumber n => number_to_string n
  | JString s => s
  | JArray items =>
      join "," (map (fun e => match e with JNull => "" | _ => json_to_string e end) items)
  | JObject _ => "[object Object]"
  end.

Definition ToString (v : value) : string :=
  match v with
  | None => "undefined"
  | Some j => json_to_string j
  end.

(** Truthiness of a value. *)
Definition ToBoolean (v : value) : bool :=
  match v with
  | None | Some JNull => false
  | Some (JBool b) => b
  | Some (JNumber n) => negb (n =? 0)%Z
  | Some (JString s) => negb (String.eqb s "")
  | Some (JArray _) | Some (JObject _) => true
  end.

(** Strict equality with a string literal. *)
Definition is_string (v : value) (s : string) : bool :=
  match v with
  | Some (JString t) => String.eqb t s
  | _ => false
  end.

(** *** Errors

    An [Error] object: its name and message, the [response] summary that
    [createHttpError] attaches (status and status text) and whether a
    request configuration is attached. *)
Record error := mkError {
  e_name : string;
  e_message : string;
  e_response : option (Z * string);
  e_config : bool;
}.

Definition Error (message : string) : error := mkError "Error" message None false.
Definition TypeError (message : string) : error := mkError "TypeError" message None false.

(** *** Requests and responses *)

Inductive method := GET | POST | PUT | DELETE | PATCH.

(** The request bodies this client sends. *)
Inductive request_body :=
  | RefreshBody (refresh_token : string).

Definition headers := list (string * string).

(** Assignment to a property of a plain object: an existing key keeps its
    place, a new one goes last. *)
Fixpoint set_header (k v : string) (h : headers) : headers :=
  match h with
  | [] => [(k, v)]
  | (k', v') :: rest => if String.eqb k k' then (k, v) :: rest else (k', v') :: set_header k v rest
  end.

(** Object spread [{ ...a, ...b }]. *)
Definition spread (a b : headers) : headers :=
  fold_left (fun acc kv => set_header (fst kv) (snd kv) acc) b a.

Record HttpRequestConfig := mkConfig {
  cfg_method : method;
  cfg_url : string;
  cfg_headers : option headers;
  cfg_body : option request_body;
  cfg_timeout : option Z;
  cfg_retry : bool;                     (* [_retry], absent read as false *)
}.

(** What [fetch] is called with. *)
Record fetch_call := mkFetch {
  fc_url : string;
  fc_method : method;
  fc_headers : headers;
  fc_body : option request_body;
}.

Inductive settled (A : Type) :=
  | Fulfilled (a : A)
  | RejectedWith (e : error).
Arguments Fulfilled {A} a.
Arguments RejectedWith {A} e.

(** A [Response]: status line, headers and what reading the body as JSON
    or as text settles to. *)
Record response := mkResponse {
  r_status : Z;
  r_statusText : string;
  r_headers : headers;
  r_json : settled json;
  r_text : settled string;
}.

Definition r_ok (r : response) : bool := ((200 <=? r_status r) && (r_status r <=? 299))%Z.

(** [response.headers.get(name)], the names being stored in lower case. *)
Definition headers_get (name : string) (h : headers) : option string :=
  option_map snd (find (fun kv => String.eqb (fst kv) name) h).

Inductive fetch_result :=
  | Rejected (e : error)
  | Responded (r : response).

Record HttpResponse := mkHttpResponse {
  hr_data : json;
  hr_status : Z;
  hr_statusText : string;
  hr_headers : headers;
  hr_config : HttpRequestConfig;
}.

(** [ApiResponse<T>]. *)
Record ApiResponse := mkApiResponse {
  ar_data : value;
  ar_status : Z;
  ar_error : option string;
  ar_message : option string;
}.

(** [ApiError], without its [details] and [timestamp] fields, which no
    caller reads. *)
Record ApiError := mkApiError {
  ae_message : string;
  ae_status : Z;
  ae_code : option string;
}.

(** [AuthStatusResponse.services_connected]. *)
Record services_connected := mkServices {
  sc_gmail : bool;
  sc_calendar : bool;
  sc_tasks : bool;
  sc_keep : bool;
  sc_maps : bool;
}.

(** The entries of a [services_connected] object, in declaration order. *)
Definition services_connected_entries (s : services_connected) : list (string * bool) :=
  [("gmail", sc_gmail s); ("calendar", sc_calendar s); ("tasks", sc_tasks s);
   ("keep", sc_keep s); ("maps", sc_maps s)].

(** *** The browser state the client reads and writes *)

(** The promise held in [refreshPromise]: either it was rejected before its
    body reached an [await], or its body is suspended on the [fetch] of the
    refresh request issued with the recorded configuration and headers. *)
Inductive promise :=
  | RejectedPromise (id : nat) (e : error)
  | SuspendedPromise (id : nat) (cfg : HttpRequestConfig) (hdrs : headers).

Record world := mkWorld {
  w_window : bool;                      (* [typeof window !== 'undefined'] *)
  w_localStorage : gmap string string;
  w_cookies : list (string * string);   (* cookies of the page, oldest first *)
  w_location : option string;           (* last assignment to [window.location.href] *)
  w_isRefreshing : bool;
  w_refreshPromise : option promise;
  w_promises : nat;                     (* promises created by [refreshToken] so far *)
  w_fetched : list fetch_call;          (* every [fetch] issued so far, oldest first *)
}.

Definition set_localStorage (f : gmap string string -> gmap string string) (w : world) : world :=
  mkWorld (w_window w) (f (w_localStorage w)) (w_cookies w) (w_location w)
          (w_isRefreshing w) (w_refreshPromise w) (w_promises w) (w_fetched w).
Definition set_cookies (f : list (string * string) -> list (string * string)) (w : world) : world :=
  mkWorld (w_window w) (w_localStorage w) (f (w_cookies w)) (w_location w)
          (w_isRefreshing w) (w_refreshPromise w) (w_promises w) (w_fetched w).
Definition set_location (href : string) (w : world) : world :=
  mkWorld (w_window w) (w_localStorage w) (w_cookies w) (Some href)
          (w_isRefreshing w) (w_refreshPromise w) (w_promises w) (w_fetched w).
Definition set_isRefreshing (b : bool) (w : world) : world :=
  mkWorld (w_window w) (w_localStorage w) (w_cookies w) (w_location w)
          b (w_refreshPromise w) (w_promises w) (w_fetched w).
Definition set_refreshPromise (p : option promise) (w : world) : world :=
  mkWorld (w_window w) (w_localStorage w) (w_cookies w) (w_location w)
          (w_isRefreshing w) p (w_promises w) (w_fetched w).
Definition new_promise_id (w : world) : nat * world :=
  (w_promises w,
   mkWorld (w_window w) (w_localStorage w) (w_cookies w) (w_location w)
           (w_isRefreshing w) (w_refreshPromise w) (S (w_promises w)) (w_fetched w)).
Definition log_fetch (c : fetch_call) (w : world) : world :=
  mkWorld (w_window w) (w_localStorage w) (w_cookies w) (w_location w)
          (w_isRefreshing w) (w_refreshPromise w) (w_promises w) (w_fetched w ++ [c]).

(** *** TokenManager *)

Definition TOKEN_KEY : string := "lume_auth_token".
Definition REFRESH_TOKEN_KEY : string := "lume_refresh_token".

(** The [document.cookie] getter. *)
Definition document_cookie (w : world) : string :=
  join "; " (map (fun c => fst c +:+ "=" +:+ snd c) (w_cookies w)).

(** Assigning [name=value; path=/; ...] to [document.cookie]: the value
    stored ends at the first [;] and loses surrounding blanks; an existing
    cookie of that name keeps its place in the jar. *)
Definition cookie_value (v : string) : string :=
  let blank c := (Ascii.eqb c " " || Ascii.eqb c "009")%char in
  strip_end blank (strip_start blank (nth 0 (split ";" v) "")).

Fixpoint jar_set (name v : string) (jar : list (string * string)) : list (string * string) :=
  match jar with
  | [] => [(name, v)]
  | (n, v') :: rest => if String.eqb n name then (n, v) :: rest else (n, v') :: jar_set name v rest
  end.

(** Assigning an expiry date in the past removes the cookie. *)
Definition jar_delete (name : string) (jar : list (string * string)) : list (string * string) :=
  List.filter (fun c => negb (String.eqb (fst c) name)) jar.

(** The loop of [getCookieToken]: the first cookie whose name is the token
    key decides, with the text between its first and second [=]. *)
Fixpoint scan_cookies (cookies : list string) : option string :=
  match cookies with
  | [] => None
  | cookie :: rest =>
      let parts := split "=" (trim cookie) in
      if String.eqb (nth 0 parts "") TOKEN_KEY then nth_error parts 1
      else scan_cookies rest
  end.

Definition getCookieToken (w : world) : option string :=
  if negb (w_window w) then None
  else scan_cookies (split ";" (document_cookie w)).

Definition getToken (w : world) : option string :=
  if negb (w_window w) then None
  else
    let cookieToken := getCookieToken w in
    if truthy cookieToken then cookieToken
    else w_localStorage w !! TOKEN_KEY.

Definition setToken (token : string) (w : world) : world :=
  if negb (w_window w) then w
  else set_cookies (jar_set TOKEN_KEY (cookie_value token))
         (set_localStorage (insert TOKEN_KEY token) w).

Definition getRefreshToken (w : world) : option string :=
  if negb (w_window w) then None
  else w_localStorage w !! REFRESH_TOKEN_KEY.

Definition setRefreshToken (token : string) (w : world) : world :=
  if negb (w_window w) then w
  else set_localStorage (insert REFRESH_TOKEN_KEY token) w.

Definition clearTokens (w : world) : world :=
  if negb (w_window w) then w
  else set_cookies (jar_delete TOKEN_KEY)
         (set_localStorage (delete REFRESH_TOKEN_KEY)
            (set_localStorage (delete TOKEN_KEY) w)).

Section TokenExpiry.

(** Two conversions of the JavaScript runtime are taken as given:
    [JSON.parse] ([None] is its [SyntaxError]) and the numeric value of a
    string ([None] is [NaN]). *)
Variable JSON_parse : string -> option json.
Variable StringToNumber : string -> option Z.

(** Numeric conversion; [None] is [NaN].  Arrays and objects convert
    through their string form. *)
Definition ToNumber (v : value) : option Z :=
  match v with
  | None => None
  | Some JNull => Some 0%Z
  | Some (JBool b) => Some (if b then 1 else 0)%Z
  | Some (JNumber n) => Some n
  | Some (JString s) => StringToNumber s
  | Some j => StringToNumber (json_to_string j)
  end.

(** [v < n] for a number [n]: false as soon as [v] converts to [NaN]. *)
Definition less_than (v : value) (n : Z) : bool :=
  match ToNumber v with
  | Some x => (x <? n)%Z
  | None => false
  end.

(** [TokenManager.isTokenExpired(token)], [now] being [Date.now()].
    Every exception of the [try] block ends in [return true]. *)
Definition isTokenExpired (token : string) (now : Z) : bool :=
  let segment := ToString (option_map JString (nth_error (split "." token) 1)) in
  match atob segment with
  | None => true
  | Some decoded =>
      match JSON_parse decoded with
      | None => true
      | Some payload =>
          let currentTime := (now / 1000)%Z in
          match get (Some payload) "exp" with
          | None => true
          | Some exp => less_than exp currentTime
          end
      end
  end.

End TokenExpiry.

(** *** The environment and the outcome of an asynchronous call *)

(** The environment fixes the configured base URL, what the [k]-th [fetch]
    of the page settles to, and what the [fetch] of a refresh already in
    flight when the call starts settles to ([None]: it never does). *)
Record env := mkEnv {
  NEXT_PUBLIC_API_BASE_URL : option string;
  fetch : nat -> fetch_result;
  inflight : option fetch_result;
}.

(** [ApiConfig.baseURL]. *)
Definition baseURL (E : env) : string :=
  or_else (NEXT_PUBLIC_API_BASE_URL E) "http://localhost:8000".

Inductive outcome (A : Type) :=
  | Returned (a : A) (w : world)        (* the promise is fulfilled *)
  | Threw (e : error) (w : world)       (* the promise is rejected *)
  | Pending (w : world)                 (* the promise never settles *)
  | OutOfFuel.
Arguments Returned {A} a w.
Arguments Threw {A} e w.
Arguments Pending {A} w.
Arguments OutOfFuel {A}.

(** *** LumeApiClient *)

(** [createHttpError(response, config, message?)]. *)
Definition createHttpError (r : option response) (message : option string) : error :=
  let status := match r with Some r => r_status r | None => 0%Z end in
  mkError "Error"
          (or_else message ("HTTP " +:+ number_to_string status +:+ " Error"))
          (option_map (fun r => (r_status r, r_statusText r)) r)
          true.

(** The [catch] clause of [makeRequest]: an abort becomes a timeout error,
    anything else is thrown again. *)
Definition rethrow (e : error) : error :=
  if String.eqb (e_name e) "AbortError" then createHttpError None (Some "Request timeout")
  else e.

(** [handleAuthFailure()]. *)
Definition handleAuthFailure (w : world) : world :=
  let w1 := clearTokens w in
  if w_window w1 then set_location "/login" w1 else w1.

(** [handleError(error)].  The [response] attached by [createHttpError]
    carries [data: null], so message and code come from the error itself;
    an error without [response] has no [response] property at all, which
    leaves the "network error" branch of the source aside and ends in the
    generic one. *)
Definition handleError (e : error) : ApiError :=
  match e_response e with
  | Some (status, _) => mkApiError (e_message e) status None
  | None =>
      mkApiError (or_else (Some (e_message e)) "An unexpected error occurred")
                 500 (Some "UNKNOWN_ERROR")
  end.

(** The synchronous start of [makeRequest]: headers are assembled, the
    stored token is attached and [fetch] is called. *)
Definition request_headers (cfg : HttpRequestConfig) (w : world) : headers :=
  let h := spread [("Content-Type", "application/json")] (default [] (cfg_headers cfg)) in
  let token := getToken w in
  if truthy token then set_header "Authorization" ("Bearer " +:+ or_else token "") h else h.

Definition call_fetch (cfg : HttpRequestConfig) (hdrs : headers) (w : world) : world :=
  log_fetch (mkFetch (cfg_url cfg) (cfg_method cfg) hdrs (cfg_body cfg)) w.

(** Reading the body: JSON when the content type says so, text otherwise. *)
Definition read_body (r : response) : settled json :=
  match headers_get "content-type" (r_headers r) with
  | Some contentType =>
      if negb (String.eqb contentType "") && includes "application/json" contentType
      then r_json r
      else match r_text r with
           | Fulfilled t => Fulfilled (JString t)
           | RejectedWith e => RejectedWith e
           end
  | None =>
      match r_text r with
      | Fulfilled t => Fulfilled (JString t)
      | RejectedWith e => RejectedWith e
      end
  end.

(** The configuration of the second attempt; [config._retry] was set
    before the spread. *)
Definition retryConfig (cfg : HttpRequestConfig) (hdrs : headers) (newToken : value) : HttpRequestConfig :=
  mkConfig (cfg_method cfg) (cfg_url cfg)
           (Some (set_header "Authorization" ("Bearer " +:+ ToString newToken) hdrs))
           (cfg_body cfg) (cfg_timeout cfg) true.

Definition refreshConfig (E : env) (refreshToken : string) : HttpRequestConfig :=
  mkConfig POST (baseURL E +:+ "/auth/refresh") None (Some (RefreshBody refreshToken)) None false.

(** The [finally] block of the refresh. *)
Definition refresh_finally (w : world) : world :=
  set_refreshPromise None (set_isRefreshing false w).

(** The body of the refresh promise from the point where its request has
    settled: the tokens are stored, and the [finally] block runs on every
    path that settles. *)
Definition refresh_finish (o : outcome HttpResponse) : outcome value :=
  match o with
  | Returned resp w =>
      match get (Some (hr_data resp)) "access_token", get (Some (hr_data resp)) "refresh_token" with
      | Some access_token, Some newRefreshToken =>
          let w1 := setToken (ToString access_token) w in
          let w2 := if ToBoolean newRefreshToken
                    then setRefreshToken (ToString newRefreshToken) w1 else w1 in
          Returned access_token (refresh_finally w2)
      | _, _ =>
          Threw (TypeError "Cannot destructure property 'access_token'") (refresh_finally w)
      end
  | Threw e w => Threw e (refresh_finally w)
  | Pending w => Pending w
  | OutOfFuel => OutOfFuel
  end.

(** [makeRequest], its continuation after [fetch] has settled, and
    [refreshToken].  [inside] names the refresh promise whose body is
    running, if any: awaiting that promise from inside its own body never
    settles.  The recursion of the source (a retry after a refresh, a
    refresh through [makeRequest]) is followed on [fuel]. *)
Fixpoint makeRequest (fuel : nat) (E : env) (inside : option nat)
    (cfg : HttpRequestConfig) (w : world) {struct fuel} : outcome HttpResponse :=
  match fuel with
  | O => OutOfFuel
  | S fuel' =>
      let hdrs := request_headers cfg w in
      let k := length (w_fetched w) in
      makeRequest_resume fuel' E inside cfg hdrs (fetch E k) (call_fetch cfg hdrs w)
  end

with makeRequest_resume (fuel : nat) (E : env) (inside : option nat)
    (cfg : HttpRequestConfig) (hdrs : headers) (fr : fetch_result) (w : world)
    {struct fuel} : outcome HttpResponse :=
  match fuel with
  | O => OutOfFuel
  | S fuel' =>
      match fr with
      | Rejected e => Threw (rethrow e) w
      | Responded r =>
          match read_body r with
          | RejectedWith e => Threw (rethrow e) w
          | Fulfilled data =>
              if (r_status r =? 401)%Z && negb (cfg_retry cfg) then
                match refreshToken fuel' E inside w with
                | Returned newToken w' =>
                    makeRequest fuel' E inside (retryConfig cfg hdrs newToken) w'
                | Threw _ w' =>
                    Threw (rethrow (createHttpError (Some r) (Some "Token refresh failed")))
                          (handleAuthFailure w')
                | Pending w' => Pending w'
                | OutOfFuel => OutOfFuel
                end
              else if negb (r_ok r) then Threw (rethrow (createHttpError (Some r) None)) w
              else Returned (mkHttpResponse data (r_status r) (r_statusText r) (r_headers r) cfg) w
          end
      end
  end

with refreshToken (fuel : nat) (E : env) (inside : option nat) (w : world)
    {struct fuel} : outcome value :=
  match fuel with
  | O => OutOfFuel
  | S fuel' =>
      if w_isRefreshing w then
        (* [return this.refreshPromise!] *)
        match w_refreshPromise w with
        | None => Returned (Some JNull) w
        | Some (RejectedPromise _ e) => Threw e w
        | Some (SuspendedPromise id cfg hdrs) =>
            if bool_decide (inside = Some id) then Pending w
            else match inflight E with
                 | None => Pending w
                 | Some fr => refresh_finish (makeRequest_resume fuel' E (Some id) cfg hdrs fr w)
                 end
        end
      else
        let w1 := set_isRefreshing true w in
        let (id, w2) := new_promise_id w1 in
        if negb (truthy (getRefreshToken w2)) then
          (* thrown before any [await]: the [finally] block has run when the
             promise is assigned to [refreshPromise] *)
          let e := Error "No refresh token available" in
          Threw e (set_refreshPromise (Some (RejectedPromise id e)) (refresh_finally w2))
        else
          let cfg := refreshConfig E (or_else (getRefreshToken w2) "") in
          let hdrs := request_headers cfg w2 in
          let k := length (w_fetched w2) in
          let w3 := call_fetch cfg hdrs w2 in
          let w4 := set_refreshPromise (Some (SuspendedPromise id cfg hdrs)) w3 in
          refresh_finish (makeRequest_resume fuel' E (Some id) cfg hdrs (fetch E k) w4)
  end.

(** Fuel that lets every call of the client run to its end
    (see [makeRequest_fuel] below). *)
Definition enough : nat := 5.

(** [getTaskStatus(taskId)]: every exception is turned into a result. *)
Definition getTaskStatus (fuel : nat) (E : env) (taskId : string) (w : world) : outcome ApiResponse :=
  let failed (e : error) (w' : world) :=
    let apiError := handleError e in
    Returned (mkApiResponse None (ae_status apiError) (Some (ae_message apiError))
                            (Some "Failed to get task status")) w' in
  if String.eqb taskId "" || String.eqb (trim taskId) "" then
    failed (Error "Task ID is required") w
  else
    let cfg := mkConfig GET (baseURL E +:+ "/api/tasks/" +:+ encodeURIComponent taskId)
                        None None None false in
    match makeRequest fuel E None cfg w with
    | Returned resp w' =>
        Returned (mkApiResponse (Some (hr_data resp)) (hr_status resp) None
                                (Some "Task status retrieved successfully")) w'
    | Threw e w' => failed e w'
    | Pending w' => Pending w'
    | OutOfFuel => OutOfFuel
    end.

(** [logout()].  The inner [try] swallows whatever the request throws;
    [clearTokens] and the object literal raise nothing, so the outer
    [catch] clause is never entered. *)
Definition logout (fuel : nat) (E : env) (w : world) : outcome ApiResponse :=
  let cfg := mkConfig POST (baseURL E +:+ "/auth/logout") None None None false in
  let done (w' : world) :=
    Returned (mkApiResponse None 200 None (Some "Logged out successfully")) (clearTokens w') in
  match makeRequest fuel E None cfg w with
  | Returned _ w' => done w'
  | Threw _ w' => done w'
  | Pending w' => Pending w'
  | OutOfFuel => OutOfFuel
  end.

(** *** pollTaskStatus *)

(** The options of the poller.  [maxAttempts] is a number, not only an
    integer: the finite ones are kept, as rationals. *)
Record poll_options := mkPollOptions {
  interval : option Z;
  maxAttempts : option QArith_base.Q;
  onProgress : bool;                    (* whether a callback was passed *)
}.

(** How often the body of
    [for (let attempt = 0; attempt < maxAttempts; attempt++)] is entered
    when nothing leaves the loop early: once for every natural number below
    [maxAttempts] (see [turns_below]). *)
Definition turns (maxAttempts : QArith_base.Q) : nat :=
  Z.to_nat (Qround.Qceiling maxAttempts).

(** What a run of the poller does, in order: each call of
    [api.getTaskStatus] and the result it resolves to, each call of the
    progress callback, each wait. *)
Inductive poll_event :=
  | Asked
  | Answered (response : ApiResponse)
  | Progress (status : value)
  | Slept (ms : Z).

Definition terminal (st : value) : bool :=
  is_string st "completed" || is_string st "failed".

(** The [for] loop, [attempts] iterations being left. *)
Fixpoint poll_loop (fuel : nat) (E : env) (taskId : string) (ms : Z) (callback : bool)
    (attempts : nat) (w : world) : outcome value * list poll_event :=
  match attempts with
  | O => (Threw (Error "Task polling timeout - maximum attempts reached") w, [])
  | S attempts' =>
      match getTaskStatus fuel E taskId w with
      | Returned response w1 =>
          if truthy (ar_error response) then
            (Threw (Error (or_else (ar_error response) "")) w1, [Asked; Answered response])
          else
            let status := ar_data response in
            let progress := if callback then [Progress status] else [] in
            match get status "status" with
            | None =>
                (Threw (TypeError "Cannot read properties of undefined") w1,
                 [Asked; Answered response] ++ progress)
            | Some st =>
                if terminal st then
                  (Returned status w1, [Asked; Answered response] ++ progress)
                else
                  let (o, rest) := poll_loop fuel E taskId ms callback attempts' w1 in
                  (o, [Asked; Answered response] ++ progress ++ [Slept ms] ++ rest)
            end
      | Threw e w1 => (Threw e w1, [Asked])
      | Pending w1 => (Pending w1, [Asked])
      | OutOfFuel => (OutOfFuel, [])
      end
  end.

(** [pollTaskStatus(taskId, options)], with the defaults of the
    destructuring; the loop runs while [attempt < maxAttempts]. *)
Definition pollTaskStatus (fuel : nat) (E : env) (taskId : string) (options : poll_options)
    (w : world) : outcome value * list poll_event :=
  let ms := default 2000%Z (interval options) in
  let max := default (QArith_base.inject_Z 30) (maxAttempts options) in
  poll_loop fuel E taskId ms (onProgress options) (turns max) w.

End Api.

(** ** lume-agent: the chat component *)

Module Agent.

Import JS.

Inductive SenderRole := user | assistant.
Inductive MessageStatus := sending | sent | delivered | read | error.

Record Message := mkMessage {
  m_id : string;
  m_role : SenderRole;
  m_text : string;
  m_timestamp : string;
  m_status : option MessageStatus;
  m_suggestions : option (list string);
  m_reactions : option (list string);
}.



(** The state updaters of the component, as functions of the previous list. *)
Definition addMessage (msg : Message) (prev : list Message) : list Message :=
  prev ++ [msg].


Definition removeMessage (id : string) (prev : list Message) : list Message :=
  List.filter (fun m => negb (String.eqb (m_id m) id)) prev.

(** [Array.from(new Set(xs))]: first occurrences, in order. *)
Fixpoint set_from (xs : list string) : list string :=
  match xs with
  | [] => []
  | x :: rest => x :: List.filter (fun y => negb (String.eqb y x)) (set_from rest)
  end.

Definition toggle (emoji : string) (reactions : list string) : list string :=
  if existsb (String.eqb emoji) reactions
  then List.filter (fun y => negb (String.eqb y emoji)) reactions
  else reactions ++ [emoji].

Definition toggleReaction (id emoji : string) (prev : list Message) : list Message :=
  map (fun m =>
         if negb (String.eqb (m_id m) id) then m
         else mkMessage (m_id m) (m_role m) (m_text m) (m_timestamp m) (m_status m)
                        (m_suggestions m)
                        (Some (toggle emoji (set_from (default [] (m_reactions m))))))
      prev.

(** Suggestion generator, [generateSuggestions(service?, action?)].
    The action is lowercased and then not consulted. *)
Definition generateSuggestions (service action : option string) : list string :=
  if negb (truthy service) then ["Tell me more"; "Undo"; "Help"]
  else
    let s := toLowerCase (or_else service "") in
    let a := toLowerCase (or_else action "") in
    if String.eqb s "gmail" then ["Show inbox"; "Draft a reply"; "Search email from Alex"]
    else if String.eqb s "calendar" then ["View my week"; "Create event"; "Reschedule meeting"]
    else if String.eqb s "tasks" then ["List tasks"; "Add a task"; "Mark task done"]
    else if String.eqb s "keep" then ["New note"; "Search notes"; "Make a checklist"]
    else if String.eqb s "maps" then ["Nearby cafes"; "Traffic to work"; "Best route home"]
    else ["Okay"; "Another example"; "Help"].


(** What [api.sendPrompt] resolves to, as far as [handleSubmit] reads it. *)
Record Intent := mkIntent { i_service : option string; i_action : option string }.

Record PromptResponse := mkPromptResponse {
  pr_message : option string;
  pr_intent : option Intent;
  pr_result_message : option string;    (* [result?.message] *)
}.

Record PromptResult := mkPromptResult {
  res_error : option string;
  res_data : option PromptResponse;
}.

Record chat := mkChat {
  messages : list Message;
  input : string;
  isLoading : bool;
}.

(** [handleSubmit], given the two identifiers and the two time stamps it
    draws and the settled result of [api.sendPrompt] ([inr]: the call threw).
    The second component is the message handed to [onError], if any. *)
Definition handleSubmit (userMsgId replyId now1 now2 : string)
    (res : PromptResult + Api.error) (c : chat) : chat * option string :=
  let trimmed := trim (input c) in
  if String.eqb trimmed "" || isLoading c then (c, None)
  else
    let sentMsgs := addMessage (mkMessage userMsgId user trimmed now1 (Some sent) None None) (messages c) in
    let failure (msg : string) :=
      (mkChat (addMessage (mkMessage replyId assistant ("Error: " +:+ msg) now2 (Some error) None None) sentMsgs)
              "" false,
       Some msg) in
    match res with
    | inr e => failure (or_else (Some (Api.e_message e)) "Failed to send message")
    | inl r =>
        match res_data r with
        | Some data =>
            if truthy (res_error r) then
              failure (or_else (Some (or_else (res_error r) "Unknown error")) "Failed to send message")
            else
              let assistantText :=
                or_else (pr_result_message data) (or_else (pr_message data) "Done.") in
              let suggestions :=
                generateSuggestions (pr_intent data ≫= i_service) (pr_intent data ≫= i_action) in
              (mkChat (addMessage (mkMessage replyId assistant assistantText now2 (Some delivered)
                                             (Some suggestions) None) sentMsgs)
                      "" false,
               None)
        | None =>
            failure (or_else (Some (or_else (res_error r) "Unknown error")) "Failed to send message")
        end
    end.

End Agent.

(** ** lume_frontend: the Next.js application *)

Module Frontend.

Import JS.

(** *** PermissionModal *)

Record service_info := mkInfo {
  icon : string;
  name : string;
  color : string;
  description : string;
}.

(** The own properties of [SERVICE_INFO]. *)
Definition SERVICE_INFO : list (string * service_info) :=
  [("email", mkInfo "Mail" "Gmail" "blue" "Send, read, and manage your emails");
   ("calendar", mkInfo "Calendar" "Google Calendar" "red" "Create and manage calendar events");
   ("tasks", mkInfo "CheckSquare" "Google Tasks" "yellow" "Create and manage your tasks");
   ("keep", mkInfo "StickyNote" "Google Keep" "green" "Create and read notes")].

(** The names every object literal inherits from [Object.prototype]. *)
Definition object_prototype_names : list string :=
  ["constructor"; "__defineGetter__"; "__defineSetter__"; "hasOwnProperty";
   "__lookupGetter__"; "__lookupSetter__"; "isPrototypeOf"; "propertyIsEnumerable";
   "toString"; "valueOf"; "__proto__"; "toLocaleString"].

(** [SERVICE_INFO[permission]]: an entry of the table, an inherited member
    (truthy, and without an [icon]), or [undefined]. *)
Inductive looked_up :=
  | Own (info : service_info)
  | Inherited
  | Undefined.

Definition service_info_of (permission : string) : looked_up :=
  match find (fun kv => String.eqb (fst kv) permission) SERVICE_INFO with
  | Some kv => Own (snd kv)
  | None =>
      if existsb (String.eqb permission) object_prototype_names then Inherited else Undefined
  end.

(** [selectedPermissions]: an object from permission names to flags, keys in
    insertion order. *)
Definition selection := list (string * bool).

Fixpoint set_flag (k : string) (v : bool) (s : selection) : selection :=
  match s with
  | [] => [(k, v)]
  | (k', v') :: rest => if String.eqb k k' then (k, v) :: rest else (k', v') :: set_flag k v rest
  end.

Definition flag (s : selection) (k : string) : bool :=
  match find (fun kv => String.eqb (fst kv) k) s with
  | Some kv => snd kv
  | None => false
  end.

(** The initial state: every required permission is selected. *)
Definition initial_selection (requiredPermissions : list string) : selection :=
  fold_left (fun acc perm => set_flag perm true acc) requiredPermissions [].

Definition handleToggle (permission : string) (prev : selection) : selection :=
  set_flag permission (negb (flag prev permission)) prev.

(** One card of the modal. *)
Record card := mkCard {
  card_key : string;
  card_info : service_info;
  card_selected : bool;
}.

(** The body of [requiredPermissions.map]: a card for an entry of the table,
    nothing for an unknown name; for an inherited member the element type
    [info.icon] is [undefined] and rendering fails ([None]). *)
Fixpoint cards (selected : selection) (requiredPermissions : list string) : option (list card) :=
  match requiredPermissions with
  | [] => Some []
  | permission :: rest =>
      match service_info_of permission, cards selected rest with
      | Own info, Some cs => Some (mkCard permission info (flag selected permission) :: cs)
      | Undefined, Some cs => Some cs
      | _, _ => None
      end
  end.

(** The permission names the modal offers to the user. *)
Definition offered (requiredPermissions : list string) : list string :=
  match cards (initial_selection requiredPermissions) requiredPermissions with
  | Some cs => map card_key cs
  | None => []
  end.

(** *** Home: the landing page *)

Section Home.

(** The [User] record of the application's API module. *)
Variable User : Type.

Record home := mkHome {
  user : option User;
  loading : bool;
  currentConversationId : option Z;
  showPermissionModal : bool;
  requiredPermissions : list string;
  oauthState : string;
}.

(** What [apiClient.getUserInfo()] resolves to. *)
Record UserInfo := mkUserInfo {
  authenticated : bool;
  info_user : option User;
}.

Inductive console_entry :=
  | console_error (label detail : string)
  | console_log (text : string).

(** What the component shows. *)
Inductive view :=
  | Spinner
  | LoginScreen
  | Application (modal : option (list string)).

Definition render (h : home) : view :=
  if loading h then Spinner
  else match user h with
       | None => LoginScreen
       | Some _ =>
           Application (if showPermissionModal h then Some (requiredPermissions h) else None)
       end.

(** [checkAuth], given what [getUserInfo] settled to ([inr]: it threw). *)
Definition checkAuth (r : UserInfo + string) (h : home) : home * list console_entry :=
  match r with
  | inl response =>
      let h1 := mkHome (user h) false (currentConversationId h) (showPermissionModal h)
                       (requiredPermissions h) (oauthState h) in
      match info_user response with
      | Some u =>
          if authenticated response
          then (mkHome (Some u) (loading h1) (currentConversationId h1) (showPermissionModal h1)
                       (requiredPermissions h1) (oauthState h1), [])
          else (h1, [])
      | None => (h1, [])
      end
  | inr e =>
      (mkHome (user h) false (currentConversationId h) (showPermissionModal h)
              (requiredPermissions h) (oauthState h),
       [console_error "Auth check failed:" e])
  end.

(** [URLSearchParams.get]: the first value of the name, if any. *)
Definition params_get (key : string) (search : list (string * string)) : option string :=
  option_map snd (find (fun kv => String.eqb (fst kv) key) search).

(** The synchronous part of the mount effect. *)
Record effect := mkEffect {
  eff_home : home;
  eff_console : list console_entry;
  eff_replaceState : nat;             (* calls of [history.replaceState(.., '/')] *)
  eff_checks : nat;                   (* [checkAuth] calls started or scheduled *)
}.

Definition mount_effect (search : list (string * string)) (h : home) : effect :=
  let authSuccess := params_get "auth_success" search in
  let error := params_get "error" search in
  let servicePermsGranted := params_get "service_perms_granted" search in
  let code := params_get "code" search in
  let state := params_get "state" search in
  let e0 := mkEffect h [] 0 1 in
  let e1 :=
    if truthy error
    then mkEffect (eff_home e0) (eff_console e0 ++ [console_error "OAuth error:" (or_else error "")])
                  (eff_replaceState e0) (eff_checks e0)
    else e0 in
  let e2 :=
    if truthy code && truthy state || bool_decide (authSuccess = Some "true")
    then mkEffect (eff_home e1)
                  (eff_console e1 ++ [console_log "OAuth callback detected, clearing URL and checking auth..."])
                  (S (eff_replaceState e1)) (S (eff_checks e1))
    else e1 in
  if bool_decide (servicePermsGranted = Some "true")
  then
    let h2 := eff_home e2 in
    mkEffect (mkHome (user h2) (loading h2) (currentConversationId h2) false
                     (requiredPermissions h2) (oauthState h2))
             (eff_console e2 ++ [console_log "Service permissions granted"])
             (S (eff_replaceState e2)) (S (eff_checks e2))
  else e2.

(** The [checkAuth] calls complete one after the other, each with the
    answer the server gives it. *)
Fixpoint complete_checks (n : nat) (answers : nat -> UserInfo + string)
    (h : home) (console : list console_entry) : home * list console_entry :=
  match n with
  | O => (h, console)
  | S n' =>
      let (h1, c1) := complete_checks n' answers h console in
      let (h2, c2) := checkAuth (answers n') h1 in
      (h2, c1 ++ c2)
  end.

(** The page once the mount effect and all its [checkAuth] calls are done. *)
Definition mounted (search : list (string * string)) (answers : nat -> UserInfo + string)
    (h : home) : home * list console_entry :=
  let e := mount_effect search h in
  complete_checks (eff_checks e) answers (eff_home e) (eff_console e).

End Home.

(** *** ChatInterface: the chat view *)

Module Chat.

Inductive Role := user | assistant | system.

(** [Message] of the application's API module, as the view reads it. *)
Record Message := mkMessage {
  id : Z;
  role : Role;
  content : string;
  timestamp : string;
  detected_services : option (list (string * bool));
}.

(** [SendMessageResponse], as [handleSendMessage] reads it. *)
Record SendMessageResponse := mkSendMessageResponse {
  conversation_id : option Z;
  requires_permissions : bool;
  missing_permissions : option (list string);
  user_message : Message;
  assistant_message : option Message;
}.

(** Truthiness of an optional number. *)
Definition truthy_number (n : option Z) : bool :=
  match n with
  | Some n => negb (n =? 0)%Z
  | None => false
  end.

(** [prev.slice(0, -1)]. *)
Definition slice_init (prev : list Message) : list Message := removelast prev.

(** The state updaters passed to [setMessages]. *)
Definition add_optimistic (temp : Message) (prev : list Message) : list Message :=
  prev ++ [temp].
Definition replace_with (confirmed : list Message) (prev : list Message) : list Message :=
  slice_init prev ++ confirmed.
Definition drop_optimistic (prev : list Message) : list Message := slice_init prev.
Definition add_error (notice : Message) (prev : list Message) : list Message :=
  prev ++ [notice].

(** [loadMessages]: the list is replaced by the server's when the request
    succeeds; the conversation effect empties it when no conversation is
    selected. *)
Definition loadMessages (r : option (list Message)) (prev : list Message) : list Message :=
  match r with
  | Some msgs => msgs
  | None => prev
  end.
Definition clear_messages (prev : list Message) : list Message := [].

Record chat := mkChat {
  messages : list Message;
  inputMessage : string;
  loading : bool;
}.

(** What one submission does besides updating the view. *)
Record callbacks := mkCallbacks {
  created : option Z;                             (* [onConversationCreate] *)
  permission_request : option (list string * string);  (* [onPermissionRequest] *)
}.

Section Submit.

(** [clock k] is the [k]-th reading of the clock during the call and
    [toISOString] the rendering of an instant. *)
Variable clock : nat -> Z.
Variable toISOString : Z -> string.

(** [handleSendMessage], given what [apiClient.sendMessage] settled to
    ([None]: it threw).  The updaters are applied in the order of the
    source, with nothing else touching the list in between. *)
Definition handleSendMessage (conversationId : option Z)
    (r : option SendMessageResponse) (c : chat) : chat * callbacks :=
  if String.eqb (trim (inputMessage c)) "" || loading c then (c, mkCallbacks None None)
  else
    let userMessage := trim (inputMessage c) in
    let tempUserMessage := mkMessage (clock 0) user userMessage (toISOString (clock 1)) None in
    let msgs1 := add_optimistic tempUserMessage (messages c) in
    match r with
    | Some response =>
        let created :=
          if negb (truthy_number conversationId) && truthy_number (conversation_id response)
          then conversation_id response else None in
        match missing_permissions response with
        | Some missing =>
            if requires_permissions response then
              let state := "perm_" +:+ number_to_string (clock 2) in
              let permMessage :=
                mkMessage (clock 3 + 1) assistant
                  ("I need additional permissions to help you with this request. Please grant access to: "
                   +:+ join ", " missing)
                  (toISOString (clock 4)) None in
              (mkChat (replace_with [user_message response; permMessage] msgs1) "" false,
               mkCallbacks created (Some (missing, state)))
            else
              (mkChat (match assistant_message response with
                       | Some reply => replace_with [user_message response; reply] msgs1
                       | None => replace_with [user_message response] msgs1
                       end) "" false,
               mkCallbacks created None)
        | None =>
            (mkChat (match assistant_message response with
                     | Some reply => replace_with [user_message response; reply] msgs1
                     | None => replace_with [user_message response] msgs1
                     end) "" false,
             mkCallbacks created None)
        end
    | None =>
        let errorMessage :=
          mkMessage (clock 2) system "Failed to send message. Please try again."
                    (toISOString (clock 3)) None in
        (mkChat (add_error errorMessage (drop_optimistic msgs1)) "" false,
         mkCallbacks None None)
    end.

End Submit.

End Chat.

End Frontend.

(** ** Vocabulary of the specification *)

Module Spec.

Import JS.

(** The services named by the specification. *)
Definition google_services : list string := ["gmail"; "calendar"; "tasks"; "keep"].

(** The two lists [generateSuggestions] returns when it recognises no
    service. *)
Definition absent_suggestions : list string := ["Tell me more"; "Undo"; "Help"].
Definition fallback_suggestions : list string := ["Okay"; "Another example"; "Help"].

(** The service categories with their fixed suggestions, in the order in
    which they are checked. *)
Definition categories : list (string * list string) :=
  [("gmail", ["Show inbox"; "Draft a reply"; "Search email from Alex"]);
   ("calendar", ["View my week"; "Create event"; "Reschedule meeting"]);
   ("tasks", ["List tasks"; "Add a task"; "Mark task done"]);
   ("keep", ["New note"; "Search notes"; "Make a checklist"]);
   ("maps", ["Nearby cafes"; "Traffic to work"; "Best route home"])].

(** The first category whose name equals the lowercased input. *)
Definition first_match (service : string) : option (list string) :=
  option_map snd (find (fun c => String.eqb (fst c) (toLowerCase service)) categories).

(** The decision rule in the words of the specification: first match,
    fallback when nothing matches, a separate list when the argument is
    absent. *)
Definition suggestions_as_specified (service : option string) : list string :=
  match service with
  | None => absent_suggestions
  | Some s => default fallback_suggestions (first_match s)
  end.

(** The same rule with the empty string treated like an absent argument. *)
Definition suggestions_by_rule (service : option string) : list string :=
  if negb (truthy service) then absent_suggestions
  else default fallback_suggestions (first_match (or_else service "")).

(** A service string gets suggestions of its own. *)
Definition service_specific (service : string) : Prop :=
  Agent.generateSuggestions (Some service) None <> absent_suggestions
  /\ Agent.generateSuggestions (Some service) None <> fallback_suggestions.

(** The service names of the front ends: the lowercased names the
    suggestion logic tells apart, the names the permission modal offers,
    and the names reported in the connected-services status. *)
Definition service_name (s : string) : Prop :=
  (exists raw, service_specific raw /\ s = toLowerCase raw)
  \/ (exists requiredPermissions, In s (Frontend.offered requiredPermissions))
  \/ (exists status, In s (map fst (Api.services_connected_entries status))).





(** Two messages of a conversation. *)
Definition question : Agent.Message :=
  Agent.mkMessage "m1" Agent.user "Any mail today?" "2025-01-01T10:00:00.000Z"
                  (Some Agent.sent) None None.
Definition answer : Agent.Message :=
  Agent.mkMessage "m2" Agent.assistant "Two new messages." "2025-01-01T10:00:01.000Z"
                  (Some Agent.delivered) (Some ["Show inbox"]) None.

(** The query string without the pairs of one name. *)
Definition without_param (key : string) (search : list (string * string)) : list (string * string) :=
  List.filter (fun kv => negb (String.eqb (fst kv) key)) search.

(** A page that has not yet heard from the server. *)
Definition fresh_home (User : Type) : Frontend.home User :=
  Frontend.mkHome User None true None false [] "".


(** The payload of a token: its second dot-separated segment, base64
    decoded and parsed as JSON; [None] when one of the steps fails. *)
Definition payload_of (JSON_parse : string -> option Api.json) (token : string) : option Api.json :=
  match nth_error (split "." token) 1 with
  | None => None
  | Some segment =>
      match atob segment with
      | None => None
      | Some decoded => JSON_parse decoded
      end
  end.

(** A token that can be parsed as a JWT whose JSON payload contains the
    expiry [exp]. *)
Definition has_expiry (JSON_parse : string -> option Api.json) (token : string) (exp : Z) : Prop :=
  exists payload,
    payload_of JSON_parse token = Some payload
    /\ Api.get (Some payload) "exp" = Some (Some (Api.JNumber exp)).

(** A stand-in for [JSON.parse] that agrees with it on the text of the
    empty object and rejects everything else. *)
Definition parse_empty_object (text : string) : option Api.json :=
  if String.eqb text "{}" then Some (Api.JObject []) else None.

(** A stand-in for the numeric value of a string: always [NaN]. *)
Definition not_a_number (text : string) : option Z := None.


(** The state in which an asynchronous call ends, if it runs to an end or
    to a point where it waits for ever. *)
Definition final_world {A : Type} (o : Api.outcome A) : option Api.world :=
  match o with
  | Api.Returned _ w | Api.Threw _ w | Api.Pending w => Some w
  | Api.OutOfFuel => None
  end.

(** The [fetch] calls issued between a state and the end of a call. *)
Definition issued {A : Type} (w : Api.world) (o : Api.outcome A) : list Api.fetch_call :=
  match final_world o with
  | Some w' => skipn (length (Api.w_fetched w)) (Api.w_fetched w')
  | None => []
  end.

(** [w'] is reached from [w] by issuing the requests [new] and by touching
    no cookie but the token cookie. *)
Definition advances (w w' : Api.world) (new : list Api.fetch_call) : Prop :=
  Api.w_fetched w' = Api.w_fetched w ++ new
  /\ Api.w_window w' = Api.w_window w
  /\ Api.jar_delete Api.TOKEN_KEY (Api.w_cookies w')
     = Api.jar_delete Api.TOKEN_KEY (Api.w_cookies w).

(** A call that settles or waits in a state reached by issuing [new]. *)
Definition ends_with {A : Type} (o : Api.outcome A) (w : Api.world) (new : list Api.fetch_call) : Prop :=
  exists w', final_world o = Some w' /\ advances w w' new.

(** The call waits for a promise that never settles. *)
Definition waits {A : Type} (o : Api.outcome A) : Prop :=
  match o with
  | Api.Pending _ => True
  | _ => False
  end.

(** The request described by a configuration, and the refresh request. *)
Definition is_request_of (cfg : Api.HttpRequestConfig) (c : Api.fetch_call) : Prop :=
  Api.fc_url c = Api.cfg_url cfg
  /\ Api.fc_method c = Api.cfg_method cfg
  /\ Api.fc_body c = Api.cfg_body cfg.

Definition is_refresh (E : Api.env) (c : Api.fetch_call) : Prop :=
  Api.fc_url c = Api.baseURL E +:+ "/auth/refresh" /\ Api.fc_method c = Api.POST.

(** The requests one call of [makeRequest] can issue: the request itself,
    possibly a token refresh, possibly the request once more. *)
Inductive request_shape (E : Api.env) (cfg : Api.HttpRequestConfig) : list Api.fetch_call -> Prop :=
  | shape_once a :
      is_request_of cfg a -> request_shape E cfg [a]
  | shape_refresh a r :
      is_request_of cfg a -> is_refresh E r -> request_shape E cfg [a; r]
  | shape_again a b :
      is_request_of cfg a -> is_request_of cfg b -> request_shape E cfg [a; b]
  | shape_refresh_again a r b :
      is_request_of cfg a -> is_refresh E r -> is_request_of cfg b ->
      request_shape E cfg [a; r; b].

(** The first answer to a call started in [w] is a readable 401. *)
Definition answered_401 (E : Api.env) (w : Api.world) : Prop :=
  exists r data,
    Api.fetch E (length (Api.w_fetched w)) = Api.Responded r
    /\ Api.r_status r = 401%Z
    /\ Api.read_body r = Api.Fulfilled data.

(** A cookie jar as a browser keeps it: no name or value holds a [;], no
    name holds a [=] or begins with white space. *)
Definition free_of (c : ascii) (s : string) : Prop :=
  ~ In c (list_ascii_of_string s).

Definition begins_clean (s : string) : Prop :=
  match s with
  | EmptyString => True
  | String a _ => is_space a = false
  end.

Definition tidy_cookie (c : string * string) : Prop :=
  free_of ";" (fst c) /\ free_of "=" (fst c) /\ free_of ";" (snd c)
  /\ begins_clean (fst c).

Definition tidy (w : Api.world) : Prop := Forall tidy_cookie (Api.w_cookies w).

(** A task id that [getTaskStatus] refuses: empty, or white space only. *)
Definition blank (taskId : string) : bool :=
  String.eqb taskId "" || String.eqb (trim taskId) "".

(** The status requests among [fetch] calls: the [GET] requests for the
    status of the task. *)
Definition status_url (E : Api.env) (taskId : string) : string :=
  Api.baseURL E +:+ "/api/tasks/" +:+ encodeURIComponent taskId.

Definition is_status_request (E : Api.env) (taskId : string) (c : Api.fetch_call) : bool :=
  match Api.fc_method c with
  | Api.GET => String.eqb (Api.fc_url c) (status_url E taskId)
  | _ => false
  end.

Definition status_requests (E : Api.env) (taskId : string) (calls : list Api.fetch_call) : nat :=
  length (List.filter (is_status_request E taskId) calls).

(** The requests [calls] are [n] status requests and nothing else. *)
Definition only_status_requests (E : Api.env) (taskId : string) (n : nat)
    (calls : list Api.fetch_call) : Prop :=
  length calls = n /\ status_requests E taskId calls = n.

(** What the server does with the [fetch] call number [k] (counted from 0
    over the life of the page): it answers with a 2xx response whose body
    reads as [data], or the request fails. *)
Definition answers (E : Api.env) (k : nat) (data : Api.json) : Prop :=
  exists r, Api.fetch E k = Api.Responded r
            /\ Api.r_ok r = true
            /\ Api.read_body r = Api.Fulfilled data.

(** A failed request, with the text [getTaskStatus] reports as [error]:
    [fetch] rejects, the body cannot be read, or the status is outside 2xx
    and not 401. *)
Inductive fails (E : Api.env) (k : nat) : string -> Prop :=
  | fails_fetch e :
      Api.fetch E k = Api.Rejected e ->
      fails E k (Api.ae_message (Api.handleError (Api.rethrow e)))
  | fails_body r e :
      Api.fetch E k = Api.Responded r ->
      Api.read_body r = Api.RejectedWith e ->
      fails E k (Api.ae_message (Api.handleError (Api.rethrow e)))
  | fails_status r data :
      Api.fetch E k = Api.Responded r ->
      Api.read_body r = Api.Fulfilled data ->
      Api.r_ok r = false ->
      Api.r_status r <> 401%Z ->
      fails E k ("HTTP " +:+ number_to_string (Api.r_status r) +:+ " Error").

(** A status body that reports the task completed or failed, and one that
    reports it still under way. *)
Definition finished (data : Api.json) : Prop :=
  exists st, Api.get (Some data) "status" = Some st /\ Api.terminal st = true.

Definition under_way (data : Api.json) : Prop :=
  exists st, Api.get (Some data) "status" = Some st /\ Api.terminal st = false.

(** *** Sample states and environments *)

Definition empty_page : Api.world :=
  Api.mkWorld true ∅ [] None false None 0 [].

(** A signed-in page: an access token and a refresh token are stored. *)
Definition signed_in : Api.world :=
  Api.setRefreshToken "r1" (Api.setToken "t1" empty_page).

Definition json_response (status : Z) (data : Api.json) : Api.fetch_result :=
  Api.Responded (Api.mkResponse status "" [("content-type", "application/json")]
                                (Api.Fulfilled data) (Api.Fulfilled "")).

Definition new_tokens : Api.json :=
  Api.JObject [("access_token", Api.JString "t2"); ("refresh_token", Api.JString "r2")].

(** The server rejects the stored access token once, then renews it. *)
Definition expired_session : Api.env :=
  Api.mkEnv None
    (fun k => match k with
              | 0 => json_response 401 Api.JNull
              | 1 => json_response 200 new_tokens
              | _ => json_response 200 (Api.JObject [])
              end)
    None.

(** The server answers every request with 500. *)
Definition broken_server : Api.env :=
  Api.mkEnv None (fun _ => json_response 500 Api.JNull) None.

(** The server reports every task as running. *)
Definition busy_server : Api.env :=
  Api.mkEnv None
    (fun _ => json_response 200 (Api.JObject [("status", Api.JString "running")]))
    None.

(** The server rejects the stored access token once, renews it, and then
    reports the task completed. *)
Definition completed_behind_401 : Api.env :=
  Api.mkEnv None
    (fun k => match k with
              | 0 => json_response 401 Api.JNull
              | 1 => json_response 200 new_tokens
              | _ => json_response 200 (Api.JObject [("status", Api.JString "completed")])
              end)
    None.

(** [{ maxAttempts: 2.5, onProgress }] and [{ maxAttempts: 1 }]. *)
Definition two_and_a_half_attempts : Api.poll_options :=
  Api.mkPollOptions None (Some (QArith_base.Qmake 5 2)) true.

Definition one_attempt : Api.poll_options :=
  Api.mkPollOptions None (Some (QArith_base.inject_Z 1)) false.

Definition profile_request : Api.HttpRequestConfig :=
  Api.mkConfig Api.GET "http://localhost:8000/auth/me" None None None false.

End Spec.

(** ** lume-agent: the other methods of the API client *)

Module Client.

Import JS Api.

(** The two ways a method of the client builds its result: from the
    response of its request, or, in its [catch] clause, from the error
    through [handleError]. *)
Definition succeeded (message : string) (resp : HttpResponse) : ApiResponse :=
  mkApiResponse (Some (hr_data resp)) (hr_status resp) None (Some message).

Definition failed (message : string) (e : error) : ApiResponse :=
  let apiError := handleError e in
  mkApiResponse None (ae_status apiError) (Some (ae_message apiError)) (Some message).

(** A method whose body is one request inside [try]/[catch]. *)
Definition answer (ok_message fail_message : string) (o : outcome HttpResponse) : outcome ApiResponse :=
  match o with
  | Returned resp w => Returned (succeeded ok_message resp) w
  | Threw e w => Returned (failed fail_message e) w
  | Pending w => Pending w
  | OutOfFuel => OutOfFuel
  end.

Definition get_request (url : string) : HttpRequestConfig :=
  mkConfig GET url None None None false.

(** [getDetailedAuthStatus()]. *)
Definition getDetailedAuthStatus (fuel : nat) (E : env) (w : world) : outcome ApiResponse :=
  answer "Authentication status retrieved successfully" "Failed to get authentication status"
         (makeRequest fuel E None (get_request (baseURL E +:+ "/auth/me")) w).

(** [getServiceStatus()]. *)
Definition getServiceStatus (fuel : nat) (E : env) (w : world) : outcome ApiResponse :=
  answer "Service status retrieved successfully" "Failed to get service status"
         (makeRequest fuel E None (get_request (baseURL E +:+ "/api/services/status")) w).

(** [getGoogleOAuthUrl()]. *)
Definition getGoogleOAuthUrl (fuel : nat) (E : env) (w : world) : outcome ApiResponse :=
  answer "OAuth URL generated successfully" "Failed to get OAuth URL"
         (makeRequest fuel E None (get_request (baseURL E +:+ "/auth/oauth/google")) w).

(** [healthCheck()]. *)
Definition healthCheck (fuel : nat) (E : env) (w : world) : outcome ApiResponse :=
  answer "Health check successful" "Health check failed"
         (makeRequest fuel E None (get_request (baseURL E +:+ "/health")) w).

(** [checkApiHealth()]: whatever [healthCheck] throws is answered [false]. *)
Definition checkApiHealth (fuel : nat) (E : env) (w : world) : outcome bool :=
  match healthCheck fuel E w with
  | Returned response w' => Returned (ar_status response =? 200)%Z w'
  | Threw _ w' => Returned false w'
  | Pending w' => Pending w'
  | OutOfFuel => OutOfFuel
  end.

Section AuthStatus.

Variable JSON_parse : string -> option json.
Variable StringToNumber : string -> option Z.

(** [getAuthStatus()], [now] being [Date.now()].  The outer [catch] answers
    [false] to every exception, the [TypeError] of reading a property of a
    [null] body included. *)
Definition getAuthStatus (fuel : nat) (E : env) (now : Z) (w : world) : outcome bool :=
  match getToken w with
  | None => Returned false w
  | Some token =>
      if String.eqb token "" then Returned false w
      else if isTokenExpired JSON_parse StringToNumber token now then
        match refreshToken fuel E None w with
        | Returned _ w' => Returned true w'
        | Threw _ w' => Returned false w'
        | Pending w' => Pending w'
        | OutOfFuel => OutOfFuel
        end
      else
        match makeRequest fuel E None (get_request (baseURL E +:+ "/auth/me")) w with
        | Returned resp w' =>
            match get (Some (hr_data resp)) "authenticated" with
            | None => Returned false w'
            | Some (Some (JBool false)) => Returned false w'
            | Some _ => Returned true w'
            end
        | Threw _ w' => Returned false w'
        | Pending w' => Pending w'
        | OutOfFuel => OutOfFuel
        end
  end.

End AuthStatus.

End Client.

(** ** lume-agent: what a message bubble shows *)

Module Bubble.

Import JS Agent.

(** The quick replies under a message: the suggestions of an assistant
    message that has some. *)
Definition quick_replies (m : Message) : list string :=
  match m_role m, m_suggestions m with
  | assistant, Some (s :: rest) => s :: rest
  | _, _ => []
  end.

(** [handleQuickReply(text)]: the text goes into the composer. *)
Definition handleQuickReply (text : string) (c : chat) : chat :=
  mkChat (messages c) text (isLoading c).

End Bubble.

(** ** lume_frontend: the remaining handlers of the page and the sidebar *)

Module Page.

Import JS Frontend.

(** The Grant button is disabled when no flag of the selection is set. *)
Definition grant_disabled (s : selection) : bool := negb (existsb snd s).

(** [handleGrant()]: the whole selection goes to [onGrant]. *)
Definition handleGrant (s : selection) : selection := s.

(** [handlePermissionRequest(permissions, state)]. *)
Definition handlePermissionRequest (User : Type) (permissions : list string) (state : string)
    (h : home User) : home User :=
  mkHome User (user User h) (loading User h) (currentConversationId User h) true permissions state.

Section Sidebar.

(** [Date.prototype.toLocaleDateString] of an instant. *)
Variable toLocaleDateString : Z -> string.

(** [formatDate], for a valid date: [date] and [now] are instants in
    milliseconds. *)
Definition formatDate (date now : Z) : string :=
  let diff := (now - date)%Z in
  let days := (diff / (1000 * 60 * 60 * 24))%Z in
  if (days =? 0)%Z then "Today"
  else if (days =? 1)%Z then "Yesterday"
  else if (days <? 7)%Z then number_to_string days +:+ " days ago"
  else toLocaleDateString date.

End Sidebar.

End Page.

(** ** Further vocabulary *)

Module Facts.

Import JS Api.

(** A token made of visible units other than [;] and [=]: what a JWT or an
    opaque bearer token looks like. *)
Definition token_unit (c : ascii) : bool :=
  negb (is_space c) && negb (Ascii.eqb c ";") && negb (Ascii.eqb c "=").

Definition plain (s : string) : Prop :=
  forallb token_unit (list_ascii_of_string s) = true.

(** A string without white space and without [;]. *)
Definition cookie_unit (c : ascii) : bool :=
  negb (is_space c) && negb (Ascii.eqb c ";").

Definition unbroken (s : string) : Prop :=
  forallb cookie_unit (list_ascii_of_string s) = true.

(** The errors the environment raises carry no [response]: they come from
    [fetch] and from reading a body, not from [createHttpError]. *)
Definition bare (e : error) : Prop := e_response e = None.

(** Events of a polling trace. *)
Definition slept (trace : list poll_event) : nat :=
  length (List.filter (fun ev => match ev with Slept _ => true | _ => false end) trace).

Definition progressed (trace : list poll_event) : nat :=
  length (List.filter (fun ev => match ev with Progress _ => true | _ => false end) trace).

(** A successful answer of the refresh endpoint. *)
Definition refreshed (access_token : string) (refresh_token : option string) : fetch_result :=
  Spec.json_response 200
    (JObject (("access_token", JString access_token)
              :: match refresh_token with
                 | Some r => [("refresh_token", JString r)]
                 | None => []
                 end)).

(** The server rejects every request with 401. *)
Definition always_401 : env :=
  mkEnv None (fun _ => Spec.json_response 401 JNull) None.

(** The server answers every request with 204. *)
Definition no_content : env :=
  mkEnv None (fun _ => Responded (mkResponse 204 "No Content" [] (Fulfilled JNull) (Fulfilled ""))) None.

(** A page on which a refresh is in flight. *)
Definition refreshing : world :=
  mkWorld true ∅ [] None true
          (Some (SuspendedPromise 0 (refreshConfig Spec.broken_server "r1") []))
          1 [].

(** The environment raises bare errors only. *)
Definition honest (E : env) : Prop :=
  (forall k e, fetch E k = Rejected e -> bare e)
  /\ (forall k r e, fetch E k = Responded r -> read_body r = RejectedWith e -> bare e).

(** A status in the 2xx range. *)
Definition success (status : Z) : Prop := (200 <= status <= 299)%Z.

(** What a method of the client reports: data with a 2xx status and no
    error, or an error text that is not empty with another status and no
    data; it does not reject, and waits for ever only behind a 401
    answer. *)
Definition reports (E : env) (w : world) (o : outcome ApiResponse) : Prop :=
  match o with
  | Returned r _ =>
      (ar_error r = None /\ (exists d, ar_data r = Some d) /\ success (ar_status r))
      \/ (ar_data r = None /\ truthy (ar_error r) = true /\ ~ success (ar_status r))
  | Threw _ _ => False
  | Pending _ => Spec.answered_401 E w
  | OutOfFuel => False
  end.

(** The server renews the tokens at every request. *)
Definition renewing : env :=
  mkEnv None (fun _ => refreshed "t2" (Some "r2")) None.

End Facts.

(** * Properties *)

Import JS.

(** ** Strings *)

Lemma lower_unit_idempotent (c : ascii) : lower_unit (lower_unit c) = lower_unit c.
Proof.
  destruct c as [[] [] [] [] [] [] [] []]; vm_compute; reflexivity.
Qed.

Lemma toLowerCase_idempotent (s : string) : toLowerCase (toLowerCase s) = toLowerCase s.
Proof.
  induction s as [|c r IH]; simpl; [reflexivity|].
  now rewrite lower_unit_idempotent, IH.
Qed.

Lemma toLowerCase_empty (s : string) : toLowerCase s = "" <-> s = "".
Proof.
  destruct s; simpl; split; intros H; try reflexivity; discriminate H.
Qed.

Lemma truthy_toLowerCase (s : string) : truthy (Some (toLowerCase s)) = truthy (Some s).
Proof.
  destruct s; reflexivity.
Qed.

Lemma or_else_truthy (s : option string) (d : string) :
  truthy s = true -> Some (or_else s d) = s.
Proof.
  destruct s as [v|]; simpl; [|discriminate].
  destruct (String.eqb v ""); simpl; [discriminate|reflexivity].
Qed.

(** ** The suggestion generator *)

(** Once the argument is present and not empty, the result is a function of
    its lowercased form alone. *)
Lemma generateSuggestions_present (s : string) (action : option string) :
  s <> "" ->
  Agent.generateSuggestions (Some s) action
  = default Spec.fallback_suggestions (Spec.first_match s).
Proof.
  intros Hs. unfold Agent.generateSuggestions, Spec.first_match.
  assert (Ht : truthy (Some s) = true).
  { simpl. destruct (String.eqb_spec s ""); [contradiction|reflexivity]. }
  rewrite Ht. simpl negb. cbv iota.
  assert (Ho : or_else (Some s) "" = s).
  { simpl. destruct (String.eqb_spec s ""); [contradiction|reflexivity]. }
  rewrite Ho. clear Ho Ht.
  unfold Spec.categories. cbn [find fst snd].
  rewrite !(String.eqb_sym _ (toLowerCase s)).
  repeat (destruct (String.eqb (toLowerCase s) _); [reflexivity|]).
  reflexivity.
Qed.

Lemma generateSuggestions_absent (service action : option string) :
  truthy service = false ->
  Agent.generateSuggestions service action = Spec.absent_suggestions.
Proof.
  intros H. unfold Agent.generateSuggestions. now rewrite H.
Qed.

(** C3, as stated, fails at the empty string: no category matches it, so the
    rule of the specification gives the fallback list, while the code treats
    an empty service like an absent one. *)
Lemma generateSuggestions_empty_service :
  Spec.first_match "" = None
  /\ Spec.suggestions_as_specified (Some "") = ["Okay"; "Another example"; "Help"]
  /\ Agent.generateSuggestions (Some "") None = ["Tell me more"; "Undo"; "Help"]
  /\ Agent.generateSuggestions (Some "") None <> Spec.suggestions_as_specified (Some "").
Proof.
  repeat split; try reflexivity. vm_compute. discriminate.
Qed.

(** The decision rule of [generateSuggestions]. *)
Lemma generateSuggestions_rule (service action : option string) :
  Agent.generateSuggestions service action = Spec.suggestions_by_rule service.
Proof.
  unfold Spec.suggestions_by_rule.
  destruct (truthy service) eqn:Ht; simpl negb; cbv iota.
  - rewrite <- (or_else_truthy service "" Ht) at 1.
    apply generateSuggestions_present.
    destruct service as [v|]; simpl in *; [|discriminate].
    destruct (String.eqb_spec v ""); [discriminate|assumption].
  - now apply generateSuggestions_absent.
Qed.

(** C3, amended: for every service and action, [generateSuggestions] returns
    the list of the first category (gmail, calendar, tasks, keep, maps, in
    that order) whose name equals the lowercased service, the fallback list
    when none matches, and the list "Tell me more, Undo, Help" when the
    service is absent or the empty string. *)
Theorem generateSuggestions_first_match (service action : option string) :
  Agent.generateSuggestions service action = Spec.suggestions_by_rule service
  /\ match service with
     | None => Agent.generateSuggestions service action = ["Tell me more"; "Undo"; "Help"]
     | Some s =>
         if String.eqb s ""
         then Agent.generateSuggestions service action = ["Tell me more"; "Undo"; "Help"]
         else Agent.generateSuggestions service action
              = default ["Okay"; "Another example"; "Help"]
                        (option_map snd
                           (find (fun c => String.eqb (fst c) (toLowerCase s)) Spec.categories))
     end.
Proof.
  split; [apply generateSuggestions_rule|].
  destruct service as [s|]; [|reflexivity].
  destruct (String.eqb_spec s "") as [->|Hs]; [reflexivity|].
  now apply generateSuggestions_present.
Qed.

(** Away from the empty string the amended rule is the specified one. *)
Lemma suggestions_by_rule_as_specified (service : option string) :
  service <> Some "" ->
  Spec.suggestions_by_rule service = Spec.suggestions_as_specified service.
Proof.
  intros H. unfold Spec.suggestions_by_rule, Spec.suggestions_as_specified.
  destruct service as [v|]; simpl; [|reflexivity].
  destruct (String.eqb_spec v ""); [subst; contradiction|reflexivity].
Qed.

(** C2: [generateSuggestions] does not see letter case, and equal inputs give
    equal results.  For all strings [s] and [a] the result is that of the
    lowercased arguments; any service with the same lowercased form gives
    the same list, whatever the actions; and the result is a function of
    the arguments. *)
Theorem generateSuggestions_case_insensitive (s a : string) :
  Agent.generateSuggestions (Some s) (Some a)
  = Agent.generateSuggestions (Some (toLowerCase s)) (Some (toLowerCase a))
  /\ (forall (s' : string) (a' b' : option string),
        toLowerCase s' = toLowerCase s ->
        Agent.generateSuggestions (Some s') a' = Agent.generateSuggestions (Some s) b')
  /\ (forall service action service' action' : option string,
        service' = service -> action' = action ->
        Agent.generateSuggestions service' action' = Agent.generateSuggestions service action).
Proof.
  assert (Hrel : forall (s' : string) (a' b' : option string),
             toLowerCase s' = toLowerCase s ->
             Agent.generateSuggestions (Some s') a' = Agent.generateSuggestions (Some s) b').
  { intros s' a' b' Heq.
    rewrite !generateSuggestions_rule. unfold Spec.suggestions_by_rule.
    rewrite <- (truthy_toLowerCase s'), <- (truthy_toLowerCase s), Heq.
    destruct (truthy (Some (toLowerCase s))) eqn:Ht; simpl negb; cbv iota; [|reflexivity].
    rewrite truthy_toLowerCase in Ht.
    assert (Ht' : truthy (Some s') = true).
    { now rewrite <- truthy_toLowerCase, Heq, truthy_toLowerCase. }
    assert (Hs : or_else (Some s) "" = s).
    { pose proof (or_else_truthy (Some s) "" Ht) as E. now injection E. }
    assert (Hs' : or_else (Some s') "" = s').
    { pose proof (or_else_truthy (Some s') "" Ht') as E. now injection E. }
    rewrite Hs, Hs'. unfold Spec.first_match. now rewrite Heq. }
  split; [|split].
  - symmetry. apply Hrel. apply toLowerCase_idempotent.
  - exact Hrel.
  - intros service action service' action' -> ->. reflexivity.
Qed.

Lemma generateSuggestions_case_insensitive_witness :
  Agent.generateSuggestions (Some "GMail") (Some "Send")
  = Agent.generateSuggestions (Some "gmail") None.
Proof.
  apply (proj1 (proj2 (generateSuggestions_case_insensitive "gmail" ""))).
  reflexivity.
Defined.

(** ** The service names *)

Lemma service_info_own (permission : string) (info : Frontend.service_info) :
  Frontend.service_info_of permission = Frontend.Own info ->
  In permission ["email"; "calendar"; "tasks"; "keep"].
Proof.
  unfold Frontend.service_info_of, Frontend.SERVICE_INFO. cbn [find fst snd].
  rewrite !(String.eqb_sym _ permission).
  do 4 (match goal with
        | |- context [String.eqb permission ?k] =>
            destruct (String.eqb_spec permission k) as [->|_]; [intros _; simpl; tauto|]
        end).
  destruct (existsb _ _); discriminate.
Qed.

Lemma cards_keys (selected : Frontend.selection) (requiredPermissions : list string)
    (cs : list Frontend.card) :
  Frontend.cards selected requiredPermissions = Some cs ->
  forall c, In c cs ->
    In (Frontend.card_key c) requiredPermissions
    /\ Frontend.service_info_of (Frontend.card_key c) = Frontend.Own (Frontend.card_info c).
Proof.
  revert cs. induction requiredPermissions as [|p rest IH]; intros cs H c Hc.
  - simpl in H. injection H as <-. destruct Hc.
  - simpl in H.
    destruct (Frontend.service_info_of p) eqn:Hp;
      destruct (Frontend.cards selected rest) as [cs'|]; try discriminate.
    + injection H as <-. destruct Hc as [<-|Hc].
      * simpl. split; [now left|assumption].
      * destruct (IH cs' eq_refl c Hc) as [Hin Hown]. split; [now right|assumption].
    + injection H as <-. destruct (IH cs' eq_refl c Hc) as [Hin Hown].
      split; [now right|assumption].
Qed.

Lemma offered_keys (requiredPermissions : list string) (s : string) :
  In s (Frontend.offered requiredPermissions) ->
  In s requiredPermissions /\ In s ["email"; "calendar"; "tasks"; "keep"].
Proof.
  unfold Frontend.offered.
  destruct (Frontend.cards _ requiredPermissions) as [cs|] eqn:Hcs; [|intros []].
  intros Hin. apply List.in_map_iff in Hin as (c & <- & Hc).
  destruct (cards_keys _ _ _ Hcs c Hc) as [Hin Hown].
  split; [assumption|]. eapply service_info_own; eassumption.
Qed.

Lemma service_specific_iff (raw : string) :
  Spec.service_specific raw
  <-> In (toLowerCase raw) ["gmail"; "calendar"; "tasks"; "keep"; "maps"].
Proof.
  unfold Spec.service_specific.
  rewrite generateSuggestions_rule. unfold Spec.suggestions_by_rule.
  destruct raw as [|c r].
  { simpl. split; [intros [H _]; now contradict H|].
    intros H. repeat (destruct H as [H|H]; [discriminate H|]). destruct H. }
  change (truthy (Some (String c r))) with true. simpl negb. cbv iota.
  change (or_else (Some (String c r)) "") with (String c r).
  unfold Spec.first_match, Spec.categories. cbn [find fst snd].
  rewrite !(String.eqb_sym _ (toLowerCase (String c r))).
  set (l := toLowerCase (String c r)).
  destruct (String.eqb_spec l "gmail") as [->|N1].
  { split; [intros _; simpl; tauto|intros _; split; vm_compute; discriminate]. }
  destruct (String.eqb_spec l "calendar") as [->|N2].
  { split; [intros _; simpl; tauto|intros _; split; vm_compute; discriminate]. }
  destruct (String.eqb_spec l "tasks") as [->|N3].
  { split; [intros _; simpl; tauto|intros _; split; vm_compute; discriminate]. }
  destruct (String.eqb_spec l "keep") as [->|N4].
  { split; [intros _; simpl; tauto|intros _; split; vm_compute; discriminate]. }
  destruct (String.eqb_spec l "maps") as [->|N5].
  { split; [intros _; simpl; tauto|intros _; split; vm_compute; discriminate]. }
  split.
  - intros [_ H]. now contradict H.
  - intros H. simpl in H.
    destruct H as [H|[H|[H|[H|[H|[]]]]]]; symmetry in H; contradiction.
Qed.

(** C1, as stated, fails: the suggestion logic has a category of its own
    for "maps", the connected-services status reports "maps", and the
    permission modal offers "email" and never "gmail". *)
Lemma service_names_beyond_the_four :
  (Spec.service_specific "maps" /\ ~ In "maps" Spec.google_services)
  /\ (In "maps" (map fst (Api.services_connected_entries (Api.mkServices true true true true true)))
      /\ Spec.service_name "maps")
  /\ (Frontend.offered ["email"; "gmail"] = ["email"]
      /\ Spec.service_name "email" /\ ~ In "email" Spec.google_services).
Proof.
  assert (Hmaps : Spec.service_specific "maps").
  { apply service_specific_iff. vm_compute. tauto. }
  assert (Hout : forall s, In s Spec.google_services ->
                           s = "gmail" \/ s = "calendar" \/ s = "tasks" \/ s = "keep").
  { intros s H. simpl in H. intuition. }
  split; [split|split; [split|split; [|split]]].
  - exact Hmaps.
  - intros H. apply Hout in H. intuition discriminate.
  - vm_compute. tauto.
  - left. exists "maps". split; [exact Hmaps|reflexivity].
  - reflexivity.
  - right. left. exists ["email"]. vm_compute. tauto.
  - intros H. apply Hout in H. intuition discriminate.
Qed.

(** C1, amended: the suggestion logic tells apart exactly the services
    gmail, calendar, tasks, keep and maps (compared in lower case); the
    connected-services status reports exactly those five; the permission
    modal offers only required permissions among email, calendar, tasks and
    keep.  Every service name of the front ends is one of these six. *)
Theorem service_names (s : string) :
  (Spec.service_specific s
   <-> In (toLowerCase s) ["gmail"; "calendar"; "tasks"; "keep"; "maps"])
  /\ (forall status,
        map fst (Api.services_connected_entries status)
        = ["gmail"; "calendar"; "tasks"; "keep"; "maps"])
  /\ (forall requiredPermissions,
        In s (Frontend.offered requiredPermissions) ->
        In s requiredPermissions /\ In s ["email"; "calendar"; "tasks"; "keep"])
  /\ (Spec.service_name s ->
      In s ["gmail"; "calendar"; "tasks"; "keep"; "maps"; "email"]).
Proof.
  split; [apply service_specific_iff|].
  split; [reflexivity|].
  split; [intros perms; apply offered_keys|].
  intros [(raw & Hraw & ->)|[(perms & Hin)|(status & Hin)]].
  - apply service_specific_iff in Hraw. simpl in Hraw |- *. tauto.
  - apply offered_keys in Hin as [_ Hin]. simpl in Hin |- *. tauto.
  - simpl in Hin |- *. tauto.
Qed.

Lemma service_names_witness :
  In "calendar" ["gmail"; "calendar"; "tasks"; "keep"; "maps"; "email"].
Proof.
  apply (proj2 (proj2 (proj2 (service_names "calendar")))).
  right. left. exists ["calendar"]. vm_compute. tauto.
Defined.

(** ** The message lists *)






Lemma replace_with_optimistic (temp : Frontend.Chat.Message)
    (confirmed prev : list Frontend.Chat.Message) :
  Frontend.Chat.replace_with confirmed (Frontend.Chat.add_optimistic temp prev)
  = prev ++ confirmed.
Proof.
  unfold Frontend.Chat.replace_with, Frontend.Chat.add_optimistic, Frontend.Chat.slice_init.
  now rewrite List.removelast_last.
Qed.





(** ** The landing page *)

Lemma params_get_without (User : Type) (key other : string) (search : list (string * string)) :
  other <> key ->
  Frontend.params_get other (Spec.without_param key search) = Frontend.params_get other search.
Proof.
  intros Hne. unfold Frontend.params_get. f_equal.
  induction search as [|[k v] rest IH]; simpl; [reflexivity|].
  destruct (String.eqb_spec k key) as [->|Hk]; simpl.
  - destruct (String.eqb_spec key other) as [->|_]; [contradiction|exact IH].
  - destruct (String.eqb k other); [reflexivity|exact IH].
Qed.

Lemma params_get_removed (key : string) (search : list (string * string)) :
  Frontend.params_get key (Spec.without_param key search) = None.
Proof.
  unfold Frontend.params_get.
  induction search as [|[k v] rest IH]; simpl; [reflexivity|].
  destruct (String.eqb_spec k key) as [->|Hk]; simpl; [exact IH|].
  destruct (String.eqb_spec k key); [contradiction|exact IH].
Qed.

(** The state and the number of [checkAuth] calls of the mount effect do not
    depend on the [error] parameter; the console does. *)
Lemma mount_effect_error (User : Type) (search : list (string * string))
    (h : Frontend.home User) :
  let with_error := Frontend.mount_effect User search h in
  let without := Frontend.mount_effect User (Spec.without_param "error" search) h in
  Frontend.eff_home User with_error = Frontend.eff_home User without
  /\ Frontend.eff_checks User with_error = Frontend.eff_checks User without
  /\ Frontend.eff_replaceState User with_error = Frontend.eff_replaceState User without.
Proof.
  unfold Frontend.mount_effect.
  rewrite !(params_get_without User "error") by discriminate.
  rewrite params_get_removed.
  change (truthy None) with false. cbv iota.
  destruct (truthy (Frontend.params_get "error" search));
    destruct (truthy (Frontend.params_get "code" search)
              && truthy (Frontend.params_get "state" search)
              || bool_decide (Frontend.params_get "auth_success" search = Some "true"));
    destruct (bool_decide (Frontend.params_get "service_perms_granted" search = Some "true"));
    simpl; auto.
Qed.

Lemma complete_checks_home (User : Type) (n : nat)
    (answers : nat -> Frontend.UserInfo User + string) (h : Frontend.home User)
    (c1 c2 : list (Frontend.console_entry)) :
  fst (Frontend.complete_checks User n answers h c1)
  = fst (Frontend.complete_checks User n answers h c2).
Proof.
  induction n as [|n IH]; simpl; [reflexivity|].
  destruct (Frontend.complete_checks User n answers h c1) as [h1 k1].
  destruct (Frontend.complete_checks User n answers h c2) as [h2 k2].
  simpl in IH. subst h2.
  now destruct (Frontend.checkAuth User (answers n) h1).
Qed.

Lemma complete_checks_console (User : Type) (n : nat)
    (answers : nat -> Frontend.UserInfo User + string) (h : Frontend.home User)
    (c : list (Frontend.console_entry)) (entry : Frontend.console_entry) :
  In entry c -> In entry (snd (Frontend.complete_checks User n answers h c)).
Proof.
  intros Hin. induction n as [|n IH]; simpl; [assumption|].
  destruct (Frontend.complete_checks User n answers h c) as [h1 k1].
  destruct (Frontend.checkAuth User (answers n) h1). simpl in *.
  apply List.in_or_app. now left.
Qed.

(** C6, as stated, fails: arriving with [?error=invalid_state], the page
    shows what it shows without the parameter (here the login screen, the
    server reporting no session); the error only reaches the console. *)
Lemma oauth_error_not_shown :
  let answers := fun _ : nat => inl (Frontend.mkUserInfo unit false None) in
  let shown := Frontend.mounted unit [("error", "invalid_state")] answers (Spec.fresh_home unit) in
  let plain := Frontend.mounted unit [] answers (Spec.fresh_home unit) in
  Frontend.render unit (fst shown) = Frontend.LoginScreen
  /\ Frontend.render unit (fst shown) = Frontend.render unit (fst plain)
  /\ fst shown = fst plain
  /\ snd shown = [Frontend.console_error "OAuth error:" "invalid_state"].
Proof.
  repeat split; reflexivity.
Qed.

(** C6, amended: when the callback redirects back with an [error]
    parameter, the error is written to the browser console and nothing
    else: the state of the page, hence what it renders, is the one it
    reaches without the parameter. *)
Theorem oauth_error_console_only (User : Type) (search : list (string * string))
    (answers : nat -> Frontend.UserInfo User + string) (h : Frontend.home User) :
  fst (Frontend.mounted User search answers h)
  = fst (Frontend.mounted User (Spec.without_param "error" search) answers h)
  /\ Frontend.render User (fst (Frontend.mounted User search answers h))
     = Frontend.render User
         (fst (Frontend.mounted User (Spec.without_param "error" search) answers h))
  /\ (forall e, Frontend.params_get "error" search = Some e -> e <> "" ->
        In (Frontend.console_error "OAuth error:" e)
           (snd (Frontend.mounted User search answers h))).
Proof.
  assert (Hst : fst (Frontend.mounted User search answers h)
                = fst (Frontend.mounted User (Spec.without_param "error" search) answers h)).
  { unfold Frontend.mounted.
    destruct (mount_effect_error User search h) as (Hh & Hc & _).
    rewrite Hh, Hc. apply complete_checks_home. }
  split; [exact Hst|]. split; [now rewrite Hst|].
  intros e He Hne. unfold Frontend.mounted.
  apply complete_checks_console.
  unfold Frontend.mount_effect. rewrite He.
  assert (Ht : truthy (Some e) = true).
  { simpl. destruct (String.eqb_spec e ""); [contradiction|reflexivity]. }
  rewrite Ht.
  assert (Ho : or_else (Some e) "" = e).
  { pose proof (or_else_truthy (Some e) "" Ht) as E. now injection E. }
  rewrite Ho.
  destruct (truthy (Frontend.params_get "code" search)
            && truthy (Frontend.params_get "state" search)
            || bool_decide (Frontend.params_get "auth_success" search = Some "true"));
    destruct (bool_decide (Frontend.params_get "service_perms_granted" search = Some "true"));
    simpl; repeat (apply List.in_or_app; left); simpl; auto.
Qed.

Lemma oauth_error_console_only_witness :
  In (Frontend.console_error "OAuth error:" "access_denied")
     (snd (Frontend.mounted unit [("state", "s1"); ("error", "access_denied")]
             (fun _ => inr "offline") (Spec.fresh_home unit))).
Proof.
  apply (proj2 (proj2 (oauth_error_console_only unit
                         [("state", "s1"); ("error", "access_denied")]
                         (fun _ => inr "offline") (Spec.fresh_home unit)))).
  - reflexivity.
  - discriminate.
Defined.

(** ** Token expiry *)

Lemma atob_undefined : atob "undefined" = None.
Proof. reflexivity. Qed.

(** [isTokenExpired] in terms of the payload of the token. *)
Lemma isTokenExpired_payload (JSON_parse : string -> option Api.json)
    (StringToNumber : string -> option Z) (token : string) (now : Z) :
  Api.isTokenExpired JSON_parse StringToNumber token now =
  match Spec.payload_of JSON_parse token with
  | None => true
  | Some payload =>
      match Api.get (Some payload) "exp" with
      | None => true
      | Some exp => Api.less_than StringToNumber exp (now / 1000)
      end
  end.
Proof.
  unfold Api.isTokenExpired, Spec.payload_of.
  destruct (nth_error (split "." token) 1) as [segment|];
    cbn [option_map Api.ToString Api.json_to_string].
  - destruct (atob segment) as [decoded|]; [|reflexivity].
    destruct (JSON_parse decoded); reflexivity.
  - rewrite atob_undefined. reflexivity.
Qed.

(** C10, as stated, fails: the token [h.e30.s] carries the payload [{}],
    which has no [exp], and is reported as not expired. *)
Lemma isTokenExpired_without_exp :
  atob "e30" = Some "{}"
  /\ Spec.payload_of Spec.parse_empty_object "h.e30.s" = Some (Api.JObject [])
  /\ (forall exp, ~ Spec.has_expiry Spec.parse_empty_object "h.e30.s" exp)
  /\ Api.isTokenExpired Spec.parse_empty_object Spec.not_a_number "h.e30.s" 1700000000000 = false.
Proof.
  split; [reflexivity|]. split; [reflexivity|]. split; [|reflexivity].
  intros exp (payload & Hp & He). vm_compute in Hp. injection Hp as <-.
  vm_compute in He. discriminate He.
Qed.

(** C10, amended: [isTokenExpired] always returns.  It returns [true] when
    the payload cannot be obtained (no second segment, invalid base64,
    invalid JSON) or is [null]; for a payload whose [exp] is a number it
    returns [true] exactly when [exp] is less than the current Unix time in
    whole seconds; for a payload without [exp] it returns [false]; any
    other [exp] is compared after numeric conversion. *)
Theorem isTokenExpired_cases (JSON_parse : string -> option Api.json)
    (StringToNumber : string -> option Z) (token : string) (now : Z) :
  match Spec.payload_of JSON_parse token with
  | None => Api.isTokenExpired JSON_parse StringToNumber token now = true
  | Some payload =>
      match Api.get (Some payload) "exp" with
      | None =>
          payload = Api.JNull
          /\ Api.isTokenExpired JSON_parse StringToNumber token now = true
      | Some None => Api.isTokenExpired JSON_parse StringToNumber token now = false
      | Some (Some (Api.JNumber exp)) =>
          Api.isTokenExpired JSON_parse StringToNumber token now = (exp <? now / 1000)%Z
      | Some exp =>
          Api.isTokenExpired JSON_parse StringToNumber token now
          = Api.less_than StringToNumber exp (now / 1000)
      end
  end.
Proof.
  rewrite isTokenExpired_payload.
  destruct (Spec.payload_of JSON_parse token) as [payload|]; [|reflexivity].
  destruct payload; simpl; try reflexivity.
  - split; reflexivity.
  - destruct (Api.lookup_last "exp" fields) as [[]|]; reflexivity.
Qed.

(** For a token with a numeric expiry the answer is the comparison. *)
Lemma isTokenExpired_has_expiry (JSON_parse : string -> option Api.json)
    (StringToNumber : string -> option Z) (token : string) (now exp : Z) :
  Spec.has_expiry JSON_parse token exp ->
  Api.isTokenExpired JSON_parse StringToNumber token now = (exp <? now / 1000)%Z.
Proof.
  intros (payload & Hp & He).
  rewrite isTokenExpired_payload, Hp, He. reflexivity.
Qed.

(** ** The API client *)

Import Api.

(** *** How the primitives move the state *)

Lemma jar_delete_set (key v : string) (jar : list (string * string)) :
  jar_delete key (jar_set key v jar) = jar_delete key jar.
Proof.
  unfold jar_delete. induction jar as [|[n v'] rest IH]; simpl.
  - now rewrite String.eqb_refl.
  - destruct (String.eqb_spec n key) as [->|Hn]; simpl.
    + now rewrite String.eqb_refl.
    + destruct (String.eqb_spec n key); [contradiction|]. simpl. now rewrite IH.
Qed.

Lemma jar_delete_twice (key : string) (jar : list (string * string)) :
  jar_delete key (jar_delete key jar) = jar_delete key jar.
Proof.
  unfold jar_delete. induction jar as [|[n v] rest IH]; simpl; [reflexivity|].
  destruct (String.eqb n key) eqn:Hn; simpl; [exact IH|].
  rewrite Hn. simpl. now rewrite IH.
Qed.

Lemma advances_refl (w : world) : Spec.advances w w [].
Proof.
  unfold Spec.advances. now rewrite List.app_nil_r.
Qed.

Lemma advances_trans (w w1 w2 : world) (n1 n2 : list fetch_call) :
  Spec.advances w w1 n1 -> Spec.advances w1 w2 n2 -> Spec.advances w w2 (n1 ++ n2).
Proof.
  intros (F1 & W1 & J1) (F2 & W2 & J2). unfold Spec.advances.
  rewrite F2, F1, W2, W1, J2, J1, List.app_assoc. auto.
Qed.

Lemma advances_setToken (token : string) (w : world) : Spec.advances w (setToken token w) [].
Proof.
  unfold Spec.advances, setToken. destruct (w_window w) eqn:Hw; simpl;
    rewrite ?List.app_nil_r, ?jar_delete_set; auto.
Qed.

Lemma advances_setRefreshToken (token : string) (w : world) :
  Spec.advances w (setRefreshToken token w) [].
Proof.
  unfold Spec.advances, setRefreshToken. destruct (w_window w) eqn:Hw; simpl;
    rewrite ?List.app_nil_r; auto.
Qed.

Lemma advances_clearTokens (w : world) : Spec.advances w (clearTokens w) [].
Proof.
  unfold Spec.advances, clearTokens. destruct (w_window w) eqn:Hw; simpl;
    rewrite ?List.app_nil_r, ?jar_delete_twice; auto.
Qed.

Lemma advances_handleAuthFailure (w : world) : Spec.advances w (handleAuthFailure w) [].
Proof.
  unfold handleAuthFailure.
  destruct (w_window (clearTokens w)); [|apply advances_clearTokens].
  destruct (advances_clearTokens w) as (F & W & J). unfold Spec.advances. simpl. auto.
Qed.

Lemma advances_refresh_finally (w : world) : Spec.advances w (refresh_finally w) [].
Proof.
  unfold Spec.advances. simpl. now rewrite List.app_nil_r.
Qed.

Lemma advances_call_fetch (cfg : HttpRequestConfig) (hdrs : headers) (w : world) :
  Spec.advances w (call_fetch cfg hdrs w)
    [mkFetch (cfg_url cfg) (cfg_method cfg) hdrs (cfg_body cfg)].
Proof.
  unfold Spec.advances. simpl. auto.
Qed.

Lemma ends_with_issued {A : Type} (o : outcome A) (w : world) (new : list fetch_call) :
  Spec.ends_with o w new -> Spec.issued w o = new.
Proof.
  intros (w' & Hf & (F & _)). unfold Spec.issued. rewrite Hf, F.
  rewrite List.skipn_app, List.skipn_all, Nat.sub_diag. reflexivity.
Qed.

(** *** One request, step by step *)

(** Awaiting the refresh promise from inside its own body never settles. *)
Lemma refreshToken_inside (f : nat) (E : env) (id : nat) (c : HttpRequestConfig)
    (h : headers) (w : world) :
  w_isRefreshing w = true ->
  w_refreshPromise w = Some (SuspendedPromise id c h) ->
  refreshToken (S f) E (Some id) w = Pending w.
Proof.
  intros Hr Hp. simpl. rewrite Hr, Hp.
  now rewrite bool_decide_eq_true_2.
Qed.

(** Inside the refresh promise the continuation of a request issues
    nothing and leaves the state as it is. *)
Lemma resume_inside (f : nat) (E : env) (id : nat) (c cfg : HttpRequestConfig)
    (h hdrs : headers) (fr : fetch_result) (w : world) :
  w_isRefreshing w = true ->
  w_refreshPromise w = Some (SuspendedPromise id c h) ->
  Spec.final_world (makeRequest_resume (S (S f)) E (Some id) cfg hdrs fr w) = Some w.
Proof.
  intros Hr Hp.
  cbn [makeRequest_resume].
  destruct fr as [e|r]; [reflexivity|].
  destruct (read_body r) as [data|e]; [|reflexivity].
  destruct ((r_status r =? 401)%Z && negb (cfg_retry cfg)).
  - rewrite (refreshToken_inside f E id c h w Hr Hp). reflexivity.
  - destruct (negb (r_ok r)); reflexivity.
Qed.

(** A request that was already retried is not retried again. *)
Lemma resume_retried (f : nat) (E : env) (inside : option nat) (cfg : HttpRequestConfig)
    (hdrs : headers) (fr : fetch_result) (w : world) :
  cfg_retry cfg = true ->
  exists r, makeRequest_resume (S f) E inside cfg hdrs fr w = r
            /\ ((exists resp, r = Returned resp w) \/ (exists e, r = Threw e w)).
Proof.
  intros Hc. eexists; split; [reflexivity|].
  cbn [makeRequest_resume]. rewrite Hc. cbn [negb].
  destruct fr as [e|r]; [eauto|].
  destruct (read_body r) as [data|e]; [|eauto].
  rewrite andb_false_r.
  destruct (negb (r_ok r)); eauto.
Qed.

(** The end of the refresh promise issues nothing. *)
Lemma refresh_finish_ends (o : outcome HttpResponse) (w : world) :
  Spec.final_world o = Some w -> Spec.ends_with (refresh_finish o) w [].
Proof.
  intros Hw. destruct o as [resp w'|e w'|w'|]; simpl in Hw; try discriminate Hw;
    injection Hw as ->; unfold refresh_finish.
  - destruct (get (Some (hr_data resp)) "access_token") as [access|];
      [destruct (get (Some (hr_data resp)) "refresh_token") as [newRefresh|]|].
    + eexists. split; [reflexivity|].
      change (@nil fetch_call) with (([] ++ []) ++ @nil fetch_call).
      eapply advances_trans; [eapply advances_trans|apply advances_refresh_finally].
      * apply advances_setToken.
      * destruct (ToBoolean newRefresh);
          [apply advances_setRefreshToken|apply advances_refl].
    + eexists. split; [reflexivity|apply advances_refresh_finally].
    + eexists. split; [reflexivity|apply advances_refresh_finally].
  - eexists. split; [reflexivity|apply advances_refresh_finally].
  - eexists. split; [reflexivity|apply advances_refl].
Qed.

(** When the refresh promise settles, its [finally] block has run. *)
Lemma refresh_finish_settled (o : outcome HttpResponse) :
  match refresh_finish o with
  | Returned _ w' | Threw _ w' => w_isRefreshing w' = false /\ w_refreshPromise w' = None
  | Pending w' => o = Pending w'
  | OutOfFuel => o = OutOfFuel
  end.
Proof.
  destruct o as [resp w|e w|w|]; unfold refresh_finish; auto.
  destruct (get (Some (hr_data resp)) "access_token") as [access|];
    [destruct (get (Some (hr_data resp)) "refresh_token") as [newRefresh|]|];
    split; reflexivity.
Qed.

Lemma ends_with_step {A B : Type} (o : outcome A) (o' : outcome B) (w w1 : world)
    (n1 n2 : list fetch_call) :
  Spec.advances w w1 n1 -> Spec.ends_with o' w1 n2 ->
  Spec.final_world o = Spec.final_world o' -> Spec.ends_with o w (n1 ++ n2).
Proof.
  intros H1 (w' & Hf & H2) Heq. exists w'. split; [congruence|].
  eapply advances_trans; eassumption.
Qed.

(** A refresh issues at most its own request, and runs to an end or to a
    point where it waits for ever. *)
Lemma refreshToken_ends (f : nat) (E : env) (inside : option nat) (w : world) :
  Spec.ends_with (refreshToken (S (S (S f))) E inside w) w []
  \/ (exists r, Spec.is_refresh E r
                /\ Spec.ends_with (refreshToken (S (S (S f))) E inside w) w [r]
                /\ w_isRefreshing w = false).
Proof.
  cbn [refreshToken].
  destruct (w_isRefreshing w) eqn:Hr.
  - left. destruct (w_refreshPromise w) as [[id e|id cfg hdrs]|] eqn:Hp.
    + exists w. split; [reflexivity|apply advances_refl].
    + destruct (bool_decide (inside = Some id)).
      { exists w. split; [reflexivity|apply advances_refl]. }
      destruct (inflight E) as [fr|].
      2:{ exists w. split; [reflexivity|apply advances_refl]. }
      apply refresh_finish_ends. now apply (resume_inside f E id cfg cfg hdrs hdrs fr w).
    + exists w. split; [reflexivity|apply advances_refl].
  - unfold new_promise_id. cbv zeta. cbn [fst snd].
    match goal with |- context [truthy ?t] => destruct (truthy t) eqn:Ht end; cbn [negb].
    + right.
      match goal with |- context [refreshConfig E ?t] => set (cfg := refreshConfig E t) end.
      match goal with |- context [request_headers cfg ?x] => set (hdrs := request_headers cfg x) end.
      exists (mkFetch (cfg_url cfg) (cfg_method cfg) hdrs (cfg_body cfg)).
      split; [split; reflexivity|]. split; [|reflexivity].
      eapply (ends_with_step _ _ w _ [_] []); [| |reflexivity].
      2:{ apply refresh_finish_ends. eapply resume_inside; reflexivity. }
      unfold Spec.advances. simpl. auto.
    + left. eexists. split; [reflexivity|].
      unfold Spec.advances. simpl. now rewrite List.app_nil_r.
Qed.

(** A request that was already retried issues one [fetch] and settles. *)
Lemma makeRequest_retried (f : nat) (E : env) (inside : option nat)
    (cfg : HttpRequestConfig) (w : world) :
  cfg_retry cfg = true ->
  let own := mkFetch (cfg_url cfg) (cfg_method cfg) (request_headers cfg w) (cfg_body cfg) in
  (exists resp, makeRequest (S (S f)) E inside cfg w = Returned resp (call_fetch cfg (request_headers cfg w) w))
  \/ (exists e, makeRequest (S (S f)) E inside cfg w = Threw e (call_fetch cfg (request_headers cfg w) w)).
Proof.
  intros Hc own. cbn [makeRequest].
  destruct (resume_retried f E inside cfg (request_headers cfg w)
              (fetch E (length (w_fetched w))) (call_fetch cfg (request_headers cfg w) w) Hc)
    as (r & Hr & [[resp ->]|[e ->]]); rewrite Hr; eauto.
Qed.

Lemma is_request_of_own (cfg : HttpRequestConfig) (hdrs : headers) :
  Spec.is_request_of cfg (mkFetch (cfg_url cfg) (cfg_method cfg) hdrs (cfg_body cfg)).
Proof. repeat split. Qed.

Lemma is_request_of_retry (cfg : HttpRequestConfig) (hdrs hdrs' : headers) (token : value) :
  let again := retryConfig cfg hdrs token in
  Spec.is_request_of cfg (mkFetch (cfg_url again) (cfg_method again) hdrs' (cfg_body again)).
Proof. repeat split. Qed.

(** One call of [makeRequest] runs to an end, or to a point where it waits
    for ever, on the fuel [enough]; it issues the request, then possibly a
    refresh, then possibly the request once more, the last two only after a
    readable 401 answer to a request not yet retried. *)
Lemma makeRequest_ends (f : nat) (E : env) (inside : option nat)
    (cfg : HttpRequestConfig) (w : world) :
  exists new,
    Spec.ends_with (makeRequest (enough + f) E inside cfg w) w new
    /\ Spec.request_shape E cfg new
    /\ (1 < length new \/ Spec.waits (makeRequest (enough + f) E inside cfg w) ->
        Spec.answered_401 E w /\ cfg_retry cfg = false).
Proof.
  unfold enough. cbn [Nat.add makeRequest].
  set (hdrs := request_headers cfg w).
  set (own := mkFetch (cfg_url cfg) (cfg_method cfg) hdrs (cfg_body cfg)).
  set (w1 := call_fetch cfg hdrs w).
  assert (Hown : Spec.advances w w1 [own]) by apply advances_call_fetch.
  assert (Hshape : Spec.request_shape E cfg [own])
    by (constructor; apply is_request_of_own).
  assert (Hone : forall A (o : outcome A), Spec.final_world o = Some w1 -> ~ Spec.waits o ->
            exists new, Spec.ends_with o w new /\ Spec.request_shape E cfg new
                        /\ (1 < length new \/ Spec.waits o ->
                            Spec.answered_401 E w /\ cfg_retry cfg = false)).
  { intros A o Ho Hn. exists [own]. split; [exists w1; auto|]. split; [assumption|].
    simpl. intros [H|H]; [lia|contradiction]. }
  cbn [makeRequest_resume].
  destruct (fetch E (length (w_fetched w))) as [e|r] eqn:Hfetch; [now apply Hone; auto|].
  destruct (read_body r) as [data|e] eqn:Hbody; [|now apply Hone; auto].
  destruct ((r_status r =? 401)%Z && negb (cfg_retry cfg)) eqn:Htest.
  2:{ destruct (negb (r_ok r)); now apply Hone; auto. }
  apply andb_true_iff in Htest as [Hst Hre].
  apply Z.eqb_eq in Hst. apply negb_true_iff in Hre.
  assert (H401 : Spec.answered_401 E w) by (exists r, data; auto).
  assert (Hmore : forall P : Prop, P -> Spec.answered_401 E w /\ cfg_retry cfg = false) by auto.
  destruct (refreshToken_ends f E inside w1) as [Hr|(c & Hc & Hr & _)].
  - destruct Hr as (w2 & Hf & Hadv).
    destruct (refreshToken (S (S (S f))) E inside w1) as [newToken w'|e w'|w'|];
      simpl in Hf; try discriminate Hf; injection Hf as ->.
    + set (again := retryConfig cfg hdrs newToken).
      set (second := mkFetch (cfg_url again) (cfg_method again) (request_headers again w2)
                             (cfg_body again)).
      exists [own; second]. split; [|split; [|auto]].
      * destruct (makeRequest_retried (S f) E inside again w2 eq_refl)
          as [[resp Hm]|[e Hm]]; rewrite Hm; eexists; (split; [reflexivity|]);
          apply (advances_trans w w2 _ [own] [second]);
          try apply advances_call_fetch;
          apply (advances_trans w w1 w2 [own] []); assumption.
      * apply Spec.shape_again; [apply is_request_of_own|apply is_request_of_retry].
    + exists [own]. split; [|auto]. eexists. split; [reflexivity|].
      apply (advances_trans w w2 _ [own] []); [|apply advances_handleAuthFailure].
      apply (advances_trans w w1 w2 [own] []); assumption.
    + exists [own]. split; [|auto]. eexists. split; [reflexivity|].
      apply (advances_trans w w1 w2 [own] []); assumption.
  - destruct Hr as (w2 & Hf & Hadv).
    destruct (refreshToken (S (S (S f))) E inside w1) as [newToken w'|e w'|w'|];
      simpl in Hf; try discriminate Hf; injection Hf as ->.
    + set (again := retryConfig cfg hdrs newToken).
      set (second := mkFetch (cfg_url again) (cfg_method again) (request_headers again w2)
                             (cfg_body again)).
      exists [own; c; second]. split; [|split; [|auto]].
      * destruct (makeRequest_retried (S f) E inside again w2 eq_refl)
          as [[resp Hm]|[e Hm]]; rewrite Hm; eexists; (split; [reflexivity|]);
          apply (advances_trans w w2 _ [own; c] [second]);
          try apply advances_call_fetch;
          apply (advances_trans w w1 w2 [own] [c]); assumption.
      * apply Spec.shape_refresh_again;
          [apply is_request_of_own|assumption|apply is_request_of_retry].
    + exists [own; c]. split; [|split; [|auto]].
      * eexists. split; [reflexivity|].
        apply (advances_trans w w2 _ [own; c] []); [|apply advances_handleAuthFailure].
        apply (advances_trans w w1 w2 [own] [c]); assumption.
      * apply Spec.shape_refresh; [apply is_request_of_own|assumption].
    + exists [own; c]. split; [|split; [|auto]].
      * eexists. split; [reflexivity|].
        apply (advances_trans w w1 w2 [own] [c]); assumption.
      * apply Spec.shape_refresh; [apply is_request_of_own|assumption].
Qed.

(** *** Fuel

    More fuel than [enough] changes nothing: the recursion of the source is
    never deeper than a request, the refresh it triggers, the request of
    that refresh, and the join that request may run into. *)

Lemma resume_inside_fuel (f : nat) (E : env) (id : nat) (c cfg : HttpRequestConfig)
    (h hdrs : headers) (fr : fetch_result) (w : world) :
  w_isRefreshing w = true ->
  w_refreshPromise w = Some (SuspendedPromise id c h) ->
  makeRequest_resume (S (S f)) E (Some id) cfg hdrs fr w
  = makeRequest_resume 2 E (Some id) cfg hdrs fr w.
Proof.
  intros Hr Hp. cbn [makeRequest_resume].
  destruct fr as [e|r]; [reflexivity|].
  destruct (read_body r) as [data|e]; [|reflexivity].
  destruct ((r_status r =? 401)%Z && negb (cfg_retry cfg)); [|reflexivity].
  now rewrite !(refreshToken_inside _ E id c h w Hr Hp).
Qed.

Lemma refreshToken_fuel (f : nat) (E : env) (inside : option nat) (w : world) :
  refreshToken (S (S (S f))) E inside w = refreshToken 3 E inside w.
Proof.
  cbn [refreshToken].
  destruct (w_isRefreshing w) eqn:Hr.
  - destruct (w_refreshPromise w) as [[id e|id cfg hdrs]|] eqn:Hp; try reflexivity.
    destruct (bool_decide (inside = Some id)); [reflexivity|].
    destruct (inflight E) as [fr|]; [|reflexivity].
    now rewrite (resume_inside_fuel f E id cfg cfg hdrs hdrs fr w Hr Hp).
  - unfold new_promise_id. cbv zeta. cbn [fst snd].
    match goal with |- context [truthy ?t] => destruct (truthy t) end; cbn [negb];
      [|reflexivity].
    f_equal. eapply resume_inside_fuel; reflexivity.
Qed.

Lemma makeRequest_fuel (f : nat) (E : env) (inside : option nat)
    (cfg : HttpRequestConfig) (w : world) :
  makeRequest (enough + f) E inside cfg w = makeRequest enough E inside cfg w.
Proof.
  unfold enough. cbn [Nat.add makeRequest makeRequest_resume].
  destruct (fetch E (length (w_fetched w))) as [e|r]; [reflexivity|].
  destruct (read_body r) as [data|e]; [|reflexivity].
  destruct ((r_status r =? 401)%Z && negb (cfg_retry cfg)); [|reflexivity].
  rewrite (refreshToken_fuel f).
  destruct (refreshToken 3 E inside _) as [newToken w'|e w'|w'|]; try reflexivity.
  cbn [cfg_retry retryConfig negb].
  destruct (fetch E (length (w_fetched w'))) as [e|r']; [reflexivity|].
  destruct (read_body r') as [data'|e]; [|reflexivity].
  now rewrite andb_false_r.
Qed.

Lemma getTaskStatus_fuel (f : nat) (E : env) (taskId : string) (w : world) :
  getTaskStatus (enough + f) E taskId w = getTaskStatus enough E taskId w.
Proof.
  unfold getTaskStatus. now rewrite makeRequest_fuel.
Qed.

Lemma logout_fuel (f : nat) (E : env) (w : world) :
  logout (enough + f) E w = logout enough E w.
Proof.
  unfold logout. now rewrite makeRequest_fuel.
Qed.

Lemma pollTaskStatus_fuel (f : nat) (E : env) (taskId : string) (options : poll_options)
    (w : world) :
  pollTaskStatus (enough + f) E taskId options w = pollTaskStatus enough E taskId options w.
Proof.
  unfold pollTaskStatus.
  generalize (turns (default (QArith_base.inject_Z 30) (maxAttempts options))). intros n.
  revert w. induction n as [|n IH]; intros w; [reflexivity|].
  cbn [poll_loop]. rewrite getTaskStatus_fuel.
  destruct (getTaskStatus enough E taskId w) as [response w1|e w1|w1|]; try reflexivity.
  destruct (truthy (ar_error response)); [reflexivity|].
  destruct (get (ar_data response) "status") as [st|]; [|reflexivity].
  destruct (terminal st); [reflexivity|]. now rewrite IH.
Qed.

(** C4, as stated, fails: a signed-in page whose access token the server
    rejects issues three [fetch] calls for one request: the request, the
    token refresh, and the request again. *)
Lemma makeRequest_issues_three :
  let o := makeRequest enough Spec.expired_session None Spec.profile_request Spec.signed_in in
  map fc_url (Spec.issued Spec.signed_in o)
  = ["http://localhost:8000/auth/me"; "http://localhost:8000/auth/refresh";
     "http://localhost:8000/auth/me"]
  /\ ~ length (Spec.issued Spec.signed_in o) <= 1.
Proof.
  split; [vm_compute; reflexivity|].
  vm_compute. lia.
Qed.

(** C4, amended: one call of [makeRequest] issues the request once, and
    once more only after a readable 401 answer to a request that was not yet
    retried, a token refresh (at most one request of its own) coming in
    between: at most three [fetch] calls in all.  A request that cannot be
    sent, whose body cannot be read, or that is answered with any other
    error status is not issued again: the error is thrown after the one
    [fetch]. *)
Theorem makeRequest_requests (E : env) (cfg : HttpRequestConfig) (w : world) :
  let o := makeRequest enough E None cfg w in
  let w1 := call_fetch cfg (request_headers cfg w) w in
  (exists new,
      Spec.ends_with o w new
      /\ Spec.issued w o = new
      /\ Spec.request_shape E cfg new
      /\ length new <= 3
      /\ (1 < length new -> Spec.answered_401 E w /\ cfg_retry cfg = false))
  /\ match fetch E (length (w_fetched w)) with
     | Rejected e => o = Threw (rethrow e) w1
     | Responded r =>
         match read_body r with
         | RejectedWith e => o = Threw (rethrow e) w1
         | Fulfilled data =>
             if (r_status r =? 401)%Z && negb (cfg_retry cfg) then Spec.answered_401 E w
             else if r_ok r
                  then o = Returned (mkHttpResponse data (r_status r) (r_statusText r)
                                                    (r_headers r) cfg) w1
                  else o = Threw (createHttpError (Some r) None) w1
         end
     end.
Proof.
  intros o w1. split.
  - destruct (makeRequest_ends 0 E None cfg w) as (new & Hends & Hshape & Hmore).
    exists new. split; [exact Hends|]. split; [now apply ends_with_issued|].
    split; [exact Hshape|]. split; [destruct Hshape; simpl; lia|auto].
  - subst o w1. unfold enough. cbn [makeRequest makeRequest_resume].
    destruct (fetch E (length (w_fetched w))) as [e|r] eqn:Hfetch; [reflexivity|].
    destruct (read_body r) as [data|e] eqn:Hbody; [|reflexivity].
    destruct ((r_status r =? 401)%Z && negb (cfg_retry cfg)) eqn:Htest.
    + apply andb_true_iff in Htest as [Hst _]. apply Z.eqb_eq in Hst.
      exists r, data. auto.
    + destruct (r_ok r); reflexivity.
Qed.

Lemma makeRequest_requests_witness :
  Spec.answered_401 Spec.expired_session Spec.signed_in
  /\ cfg_retry Spec.profile_request = false.
Proof.
  destruct (proj1 (makeRequest_requests Spec.expired_session Spec.profile_request Spec.signed_in))
    as (new & _ & Hissued & _ & _ & Hmore).
  apply Hmore. rewrite <- Hissued. vm_compute. lia.
Defined.

(** *** Token refresh *)

(** While a refresh is in flight a further call issues no request: it
    returns what the stored promise settles to. *)
Lemma refreshToken_joins (f : nat) (E : env) (inside : option nat) (w : world) :
  w_isRefreshing w = true ->
  Spec.ends_with (refreshToken (enough + f) E inside w) w [].
Proof.
  intros Hr. unfold enough.
  destruct (refreshToken_ends (2 + f) E inside w) as [H|(r & _ & _ & Hn)]; [exact H|].
  congruence.
Qed.

(** The joined promise is the stored one: with nothing stored the call
    yields [null], a rejected promise rejects it, and a suspended promise
    decides through the request it is waiting for. *)
Lemma refreshToken_joined_promise (f : nat) (E : env) (w : world) :
  w_isRefreshing w = true ->
  match w_refreshPromise w with
  | None => refreshToken (S f) E None w = Returned (Some JNull) w
  | Some (RejectedPromise _ e) => refreshToken (S f) E None w = Threw e w
  | Some (SuspendedPromise id cfg hdrs) =>
      refreshToken (S f) E None w =
      match inflight E with
      | None => Pending w
      | Some fr => refresh_finish (makeRequest_resume f E (Some id) cfg hdrs fr w)
      end
  end.
Proof.
  intros Hr. cbn [refreshToken]. rewrite Hr.
  destruct (w_refreshPromise w) as [[id e|id cfg hdrs]|]; reflexivity.
Qed.

(** A refresh started with a refresh token in store sends its request and
    holds its promise while it waits; once it settles, both fields are
    reset. *)
Lemma refreshToken_started (f : nat) (E : env) (w : world) :
  w_isRefreshing w = false ->
  truthy (getRefreshToken w) = true ->
  match refreshToken (enough + f) E None w with
  | Returned _ w' | Threw _ w' => w_isRefreshing w' = false /\ w_refreshPromise w' = None
  | Pending w' =>
      w_isRefreshing w' = true
      /\ exists cfg hdrs, w_refreshPromise w' = Some (SuspendedPromise (w_promises w) cfg hdrs)
  | OutOfFuel => False
  end.
Proof.
  intros Hr Ht. unfold enough. cbn [Nat.add refreshToken]. rewrite Hr.
  unfold new_promise_id. cbv zeta. cbn [fst snd].
  match goal with |- context [truthy ?t] => change t with (getRefreshToken w) end.
  rewrite Ht. cbn [negb].
  match goal with
  | |- context [refresh_finish ?o] =>
      pose proof (refresh_finish_settled o) as H;
      assert (Hw : exists w4, Spec.final_world o = Some w4 /\ w_isRefreshing w4 = true
                  /\ exists cfg hdrs,
                      w_refreshPromise w4 = Some (SuspendedPromise (w_promises w) cfg hdrs))
  end.
  { eexists. split; [eapply resume_inside; reflexivity|]. split; [reflexivity|].
    eexists _, _. reflexivity. }
  destruct Hw as (w4 & Hfinal & Hflag & Hpromise).
  destruct (refresh_finish _) as [tok w'|e w'|w'|]; try exact H.
  - rewrite H in Hfinal. simpl in Hfinal. injection Hfinal as ->. auto.
  - rewrite H in Hfinal. discriminate Hfinal.
Qed.

(** C7 at a page that holds no refresh token: the refresh is rejected at
    once, its [finally] block runs before the promise is stored, and the
    stored promise stays behind: [isRefreshing] is false and
    [refreshPromise] is not [null]. *)
Lemma refreshToken_leaves_promise :
  exists e w',
    refreshToken enough Spec.broken_server None Spec.empty_page = Threw e w'
    /\ e_message e = "No refresh token available"
    /\ Spec.issued Spec.empty_page (refreshToken enough Spec.broken_server None Spec.empty_page) = []
    /\ w_isRefreshing w' = false
    /\ w_refreshPromise w' = Some (RejectedPromise 0 e)
    /\ w_refreshPromise w' <> None.
Proof.
  eexists _, _. split; [vm_compute; reflexivity|].
  repeat split; try reflexivity. discriminate.
Qed.

(** The same on every page without a refresh token and with no refresh in
    flight. *)
Lemma refreshToken_without_token (f : nat) (E : env) (w : world) :
  w_isRefreshing w = false ->
  truthy (getRefreshToken w) = false ->
  exists e w',
    refreshToken (S f) E None w = Threw e w'
    /\ w_isRefreshing w' = false
    /\ w_refreshPromise w' = Some (RejectedPromise (w_promises w) e)
    /\ w_fetched w' = w_fetched w.
Proof.
  intros Hr Ht. cbn [refreshToken]. rewrite Hr.
  unfold new_promise_id. cbv zeta. cbn [fst snd].
  match goal with |- context [truthy ?t] => change t with (getRefreshToken w) end.
  rewrite Ht. cbn [negb]. eexists _, _. repeat split.
Qed.

(** *** Reading the cookie string *)

Lemma split_free (sep : ascii) (p : string) :
  Spec.free_of sep p -> split sep p = [p].
Proof.
  unfold Spec.free_of. induction p as [|c p IH]; simpl; intros H; [reflexivity|].
  destruct (Ascii.eqb_spec c sep) as [->|Hc]; [exfalso; apply H; now left|].
  rewrite IH; [reflexivity|]. intros Hin. apply H. now right.
Qed.

Lemma split_app_sep (sep : ascii) (p q : string) :
  Spec.free_of sep p -> split sep (p +:+ String sep q) = p :: split sep q.
Proof.
  unfold Spec.free_of. induction p as [|c p IH]; simpl; intros H.
  - now rewrite Ascii.eqb_refl.
  - destruct (Ascii.eqb_spec c sep) as [->|Hc]; [exfalso; apply H; now left|].
    rewrite IH; [reflexivity|]. intros Hin. apply H. now right.
Qed.

Lemma free_of_app (c : ascii) (p q : string) :
  Spec.free_of c p -> Spec.free_of c q -> Spec.free_of c (p +:+ q).
Proof.
  unfold Spec.free_of. induction p as [|a p IH]; simpl; intros Hp Hq; [assumption|].
  intros [->|Hin]; [apply Hp; now left|].
  apply IH in Hin; [assumption| |assumption]. intros H. apply Hp. now right.
Qed.

(** The pieces of the cookie string: the first cookie, then every other one
    behind a blank. *)
Lemma split_cookie_string (p : string) (ps : list string) :
  Forall (Spec.free_of ";") (p :: ps) ->
  split ";" (join "; " (p :: ps)) = p :: map (String " ") ps.
Proof.
  revert p. induction ps as [|q qs IH]; intros p H.
  - simpl. apply split_free. now inversion H.
  - inversion H as [|? ? Hp Hrest]; subst.
    change (join "; " (p :: q :: qs)) with (p +:+ String ";" (String " " (join "; " (q :: qs)))).
    rewrite split_app_sep by assumption.
    change (split ";" (String " " (join "; " (q :: qs))))
      with (match split ";" (join "; " (q :: qs)) with
            | x :: xs => String " " x :: xs
            | [] => [String " " EmptyString]
            end).
    now rewrite IH.
Qed.

Lemma strip_end_keeps (p : ascii -> bool) (a s : string) :
  strip_end p s <> "" -> strip_end p (a +:+ s) = a +:+ strip_end p s.
Proof.
  intros Hs. induction a as [|c a IH]; simpl; [reflexivity|].
  rewrite IH. destruct (a +:+ strip_end p s) eqn:Ha.
  - destruct a; simpl in Ha; [contradiction|discriminate].
  - rewrite <- Ha. reflexivity.
Qed.

(** The name the loop of [getCookieToken] reads from a piece. *)
Lemma cookie_piece_name (n v : string) :
  Spec.tidy_cookie (n, v) ->
  nth 0 (split "=" (trim (n +:+ "=" +:+ v))) "" = n.
Proof.
  intros (_ & Heq & _ & Hclean). simpl in Heq, Hclean.
  assert (Hstart : strip_start is_space (n +:+ "=" +:+ v) = n +:+ "=" +:+ v).
  { destruct n as [|c n]; [reflexivity|].
    change (String c n +:+ "=" +:+ v) with (String c (n +:+ "=" +:+ v)).
    cbn [strip_start]. simpl in Hclean. now rewrite Hclean. }
  unfold trim. rewrite Hstart.
  assert (Htail : strip_end is_space ("=" +:+ v) = String "=" (strip_end is_space v)).
  { change ("=" +:+ v) with (String "=" v). cbn [strip_end].
    destruct (strip_end is_space v); reflexivity. }
  rewrite strip_end_keeps by (rewrite Htail; discriminate).
  rewrite Htail, split_app_sep by assumption. reflexivity.
Qed.

Lemma trim_blank (s : string) : trim (String " " s) = trim s.
Proof. reflexivity. Qed.

Lemma scan_cookies_none (pieces : list string) :
  Forall (fun p => nth 0 (split "=" (trim p)) "" <> TOKEN_KEY) pieces ->
  scan_cookies pieces = None.
Proof.
  induction 1 as [|p ps Hp _ IH]; simpl; [reflexivity|].
  destruct (String.eqb_spec (nth 0 (split "=" (trim p)) "") TOKEN_KEY); [contradiction|exact IH].
Qed.

(** In a tidy jar without a token cookie the loop finds nothing. *)
Lemma scan_tidy_jar (jar : list (string * string)) :
  Forall Spec.tidy_cookie jar ->
  Forall (fun c => fst c <> TOKEN_KEY) jar ->
  scan_cookies (split ";" (join "; " (map (fun c => fst c +:+ "=" +:+ snd c) jar))) = None.
Proof.
  intros Htidy Hkey. destruct jar as [|c jar]; [reflexivity|].
  set (render := fun c : string * string => fst c +:+ "=" +:+ snd c).
  assert (Hfree : Forall (Spec.free_of ";") (map render (c :: jar))).
  { apply List.Forall_map. eapply List.Forall_impl; [|exact Htidy].
    intros [n v] (Hn & _ & Hv & _). unfold render. simpl in *.
    apply free_of_app; [assumption|]. apply (free_of_app _ "="); [|assumption].
    unfold Spec.free_of. simpl. intros [H|[]]. discriminate H. }
  change (map render (c :: jar)) with (render c :: map render jar) in *.
  rewrite split_cookie_string by assumption.
  apply scan_cookies_none.
  assert (Hname : forall c, Spec.tidy_cookie c -> fst c <> TOKEN_KEY ->
                            nth 0 (split "=" (trim (render c))) "" <> TOKEN_KEY).
  { intros [n v] Ht Hk. unfold render. simpl fst. simpl snd.
    now rewrite cookie_piece_name. }
  inversion Htidy as [|? ? Hc Hjar]; inversion Hkey as [|? ? Hkc Hkjar]; subst.
  constructor; [now apply Hname|].
  apply List.Forall_map, List.Forall_map.
  apply List.Forall_forall. intros c' Hin.
  rewrite trim_blank. apply Hname.
  - eapply List.Forall_forall in Hjar; eassumption.
  - eapply List.Forall_forall in Hkjar; eassumption.
Qed.

Lemma jar_delete_tidy (key : string) (jar : list (string * string)) :
  Forall Spec.tidy_cookie jar ->
  Forall Spec.tidy_cookie (jar_delete key jar)
  /\ Forall (fun c => fst c <> key) (jar_delete key jar).
Proof.
  intros H. unfold jar_delete. split.
  - apply List.Forall_forall. intros c Hin. apply List.filter_In in Hin as [Hin _].
    eapply List.Forall_forall in H; eassumption.
  - apply List.Forall_forall. intros c Hin. apply List.filter_In in Hin as [_ Hc].
    destruct (String.eqb_spec (fst c) key); [discriminate|assumption].
Qed.

(** After [clearTokens] neither token can be read back, whatever happened
    to the token cookie and the store before. *)
Lemma clearTokens_clears (w0 w : world) :
  Spec.tidy w0 ->
  jar_delete TOKEN_KEY (w_cookies w) = jar_delete TOKEN_KEY (w_cookies w0) ->
  getToken (clearTokens w) = None /\ getRefreshToken (clearTokens w) = None.
Proof.
  intros Htidy Hjar. unfold getToken, getRefreshToken, getCookieToken, clearTokens.
  destruct (w_window w) eqn:Hw; simpl; rewrite Hw; simpl; [|auto].
  unfold document_cookie. simpl. rewrite Hjar.
  destruct (jar_delete_tidy TOKEN_KEY (w_cookies w0) Htidy) as [Ht Hk].
  rewrite (scan_tidy_jar _ Ht Hk). simpl. split.
  - rewrite lookup_delete_ne by discriminate. apply lookup_delete_eq.
  - apply lookup_delete_eq.
Qed.

(** *** The cookie jar stays tidy *)

Lemma split_pieces_free (sep : ascii) (s : string) :
  Forall (Spec.free_of sep) (split sep s).
Proof.
  unfold Spec.free_of. induction s as [|c r IH]; simpl.
  - constructor; [intros []|constructor].
  - destruct (Ascii.eqb_spec c sep) as [->|Hc].
    + constructor; [intros []|exact IH].
    + destruct (split sep r) as [|p ps]; [repeat constructor; simpl; intuition|].
      inversion IH as [|? ? Hp Hps]; subst. constructor; [|exact Hps].
      simpl. intros [H|H]; [now apply Hc|now apply Hp].
Qed.

Lemma strip_start_free (c : ascii) (p : ascii -> bool) (s : string) :
  Spec.free_of c s -> Spec.free_of c (strip_start p s).
Proof.
  unfold Spec.free_of. induction s as [|a r IH]; simpl; [auto|].
  intros H. destruct (p a); [|exact H]. apply IH. intros Hin. apply H. now right.
Qed.

Lemma strip_end_free (c : ascii) (p : ascii -> bool) (s : string) :
  Spec.free_of c s -> Spec.free_of c (strip_end p s).
Proof.
  unfold Spec.free_of. induction s as [|a r IH]; simpl; [auto|].
  intros H.
  assert (Hr : ~ In c (list_ascii_of_string (strip_end p r))).
  { apply IH. intros Hin. apply H. now right. }
  destruct (strip_end p r) as [|b r'].
  - destruct (p a); simpl; [auto|]. intros [Ha|[]]. apply H. now left.
  - simpl in *. intros [Ha|Hin]; [apply H; now left|now apply Hr].
Qed.

Lemma tidy_token_cookie (token : string) :
  Spec.tidy_cookie (TOKEN_KEY, cookie_value token).
Proof.
  repeat split.
  - unfold Spec.free_of. simpl. intuition discriminate.
  - unfold Spec.free_of. simpl. intuition discriminate.
  - simpl. unfold cookie_value. apply strip_end_free, strip_start_free.
    pose proof (split_pieces_free ";" token) as H.
    destruct (split ";" token) as [|p ps]; [intros []|].
    now inversion H.
Qed.

Lemma tidy_setToken (token : string) (w : world) :
  Spec.tidy w -> Spec.tidy (setToken token w).
Proof.
  unfold Spec.tidy, setToken. destruct (w_window w); simpl; [|auto].
  induction 1 as [|[n v] rest Hc Hrest IH]; simpl.
  - constructor; [apply tidy_token_cookie|constructor].
  - destruct (String.eqb_spec n TOKEN_KEY) as [->|_].
    + constructor; [apply tidy_token_cookie|assumption].
    + constructor; assumption.
Qed.

Lemma tidy_clearTokens (w : world) :
  Spec.tidy w -> Spec.tidy (clearTokens w).
Proof.
  unfold Spec.tidy, clearTokens. destruct (w_window w); simpl; [|auto].
  intros H. now apply jar_delete_tidy.
Qed.

(** *** Logout *)



(** The witness is a run that resolves. *)
Lemma logout_resolves_example :
  exists r w', logout enough Spec.expired_session Spec.signed_in = Returned r w'.
Proof.
  eexists _, _. vm_compute. reflexivity.
Qed.

(** *** Polling *)

(** The loop test [attempt < maxAttempts] holds for exactly the first
    [turns maxAttempts] values of the counter. *)
Lemma turns_below (maxAttempts : QArith_base.Q) (attempt : nat) :
  attempt < turns maxAttempts
  <-> QArith_base.Qlt (QArith_base.inject_Z (Z.of_nat attempt)) maxAttempts.
Proof.
  unfold turns. split.
  - intros H. eapply QArith_base.Qle_lt_trans; [|apply Qround.Qceiling_lt].
    rewrite <- QArith_base.Zle_Qle. lia.
  - intros H.
    pose proof (QArith_base.Qlt_le_trans _ _ _ H (Qround.Qle_ceiling maxAttempts)) as Hlt.
    rewrite <- QArith_base.Zlt_Qlt in Hlt. lia.
Qed.

Lemma turns_integer (m : Z) : turns (QArith_base.inject_Z m) = Z.to_nat m.
Proof.
  unfold turns. now rewrite Qround.Qceiling_Z.
Qed.

Lemma status_requests_app (E : env) (taskId : string) (a b : list fetch_call) :
  Spec.status_requests E taskId (a ++ b)
  = Spec.status_requests E taskId a + Spec.status_requests E taskId b.
Proof.
  unfold Spec.status_requests. now rewrite List.filter_app, List.length_app.
Qed.

Lemma status_requests_length (E : env) (taskId : string) (calls : list fetch_call) :
  Spec.status_requests E taskId calls <= length calls.
Proof.
  unfold Spec.status_requests. apply List.filter_length_le.
Qed.

Lemma only_status_requests_app (E : env) (taskId : string) (n m : nat)
    (a b : list fetch_call) :
  Spec.only_status_requests E taskId n a -> Spec.only_status_requests E taskId m b ->
  Spec.only_status_requests E taskId (n + m) (a ++ b).
Proof.
  intros [La Sa] [Lb Sb]. split.
  - rewrite List.length_app. lia.
  - rewrite status_requests_app. lia.
Qed.

(** A response that is returned is the answer to the last [fetch]: its
    status is 2xx and its data is the body of that answer. *)
Lemma makeRequest_returned (E : env) (inside : option nat) (cfg : HttpRequestConfig)
    (w : world) (resp : HttpResponse) (w' : world) :
  makeRequest enough E inside cfg w = Returned resp w' ->
  Spec.answers E (Nat.pred (length (w_fetched w'))) (hr_data resp).
Proof.
  unfold enough. cbn [makeRequest makeRequest_resume].
  destruct (fetch E (length (w_fetched w))) as [e|r] eqn:Hfetch; [discriminate|].
  destruct (read_body r) as [data|e] eqn:Hbody; [|discriminate].
  destruct ((r_status r =? 401)%Z && negb (cfg_retry cfg)) eqn:Htest.
  - destruct (refreshToken 3 E inside _) as [newToken w2|e w2|w2|]; try discriminate.
    cbn [cfg_retry retryConfig negb].
    destruct (fetch E (length (w_fetched w2))) as [e|r2] eqn:Hfetch2; [discriminate|].
    destruct (read_body r2) as [data2|e] eqn:Hbody2; [|discriminate].
    rewrite andb_false_r.
    destruct (r_ok r2) eqn:Hok; cbn [negb]; [|discriminate].
    intros H. injection H as <- <-. exists r2.
    cbn [hr_data call_fetch log_fetch w_fetched].
    rewrite List.length_app, Nat.add_1_r. cbn [Nat.pred]. auto.
  - destruct (r_ok r) eqn:Hok; cbn [negb]; [|discriminate].
    intros H. injection H as <- <-. exists r.
    cbn [hr_data call_fetch log_fetch w_fetched].
    rewrite List.length_app, Nat.add_1_r. cbn [Nat.pred]. auto.
Qed.

(** [getTaskStatus] turns every failure into a result: it resolves, or
    waits with a request that never settles.  The result carries data only
    when the last [fetch] was answered with it. *)
Lemma getTaskStatus_resolves (E : env) (taskId : string) (w : world) :
  match getTaskStatus enough E taskId w with
  | Returned response w1 =>
      ar_data response = None
      \/ exists data, ar_data response = Some data
                      /\ Spec.answers E (Nat.pred (length (w_fetched w1))) data
  | Pending _ => True
  | Threw _ _ | OutOfFuel => False
  end.
Proof.
  unfold getTaskStatus.
  destruct (String.eqb taskId "" || String.eqb (trim taskId) ""); [now left|].
  match goal with |- context [makeRequest enough E None ?c w] => set (cfg := c) end.
  destruct (makeRequest_ends 0 E None cfg w) as (new & (w2 & Hf & _) & _).
  change (enough + 0) with enough in *.
  pose proof (makeRequest_returned E None cfg w) as Hret.
  destruct (makeRequest enough E None cfg w) as [resp w1|e w1|w1|];
    simpl in Hf; try discriminate Hf.
  - right. exists (hr_data resp). split; [reflexivity|]. now apply Hret.
  - now left.
  - exact I.
Qed.

(** One call of [getTaskStatus] issues at most three requests, at most two
    of them status requests. *)
Lemma getTaskStatus_ends (E : env) (taskId : string) (w : world) :
  exists new,
    Spec.ends_with (getTaskStatus enough E taskId w) w new
    /\ length new <= 3
    /\ Spec.status_requests E taskId new <= 2.
Proof.
  unfold getTaskStatus.
  destruct (String.eqb taskId "" || String.eqb (trim taskId) "").
  { exists []. split; [exists w; split; [reflexivity|apply advances_refl]|].
    split; [simpl; lia|unfold Spec.status_requests; simpl; lia]. }
  match goal with |- context [makeRequest enough E None ?c w] => set (cfg := c) end.
  destruct (makeRequest_ends 0 E None cfg w) as (new & (w2 & Hf & Hadv) & Hshape & _).
  change (enough + 0) with enough in *.
  exists new. split.
  { destruct (makeRequest enough E None cfg w); simpl in Hf; try discriminate Hf;
      injection Hf as ->; exists w2; auto. }
  split; [destruct Hshape; simpl; lia|].
  destruct Hshape as [a Ha|a r Ha Hr|a b Ha Hb|a r b Ha Hr Hb];
    try (etransitivity; [apply status_requests_length|simpl; lia]).
  change [a; r; b] with ([a] ++ [r] ++ [b]). rewrite !status_requests_app.
  assert (Hnot : Spec.status_requests E taskId [r] = 0).
  { unfold Spec.status_requests, Spec.is_status_request. cbn [List.filter].
    destruct Hr as [_ ->]. reflexivity. }
  rewrite Hnot.
  pose proof (status_requests_length E taskId [a]).
  pose proof (status_requests_length E taskId [b]).
  simpl in *. lia.
Qed.

(** A status request that the server answers with data. *)
Lemma getTaskStatus_answered (E : env) (taskId : string) (w : world) (data : json) :
  Spec.blank taskId = false ->
  Spec.answers E (length (w_fetched w)) data ->
  exists c w1 status,
    getTaskStatus enough E taskId w
    = Returned (mkApiResponse (Some data) status None
                              (Some "Task status retrieved successfully")) w1
    /\ Spec.advances w w1 [c]
    /\ Spec.is_status_request E taskId c = true.
Proof.
  intros Hb (r & Hf & Hok & Hbody). unfold getTaskStatus.
  unfold Spec.blank in Hb. rewrite Hb.
  unfold enough. cbn [makeRequest makeRequest_resume]. rewrite Hf, Hbody.
  assert (H401 : (r_status r =? 401)%Z = false).
  { unfold r_ok in Hok. apply andb_true_iff in Hok as [_ Hle].
    apply Z.leb_le in Hle. apply Z.eqb_neq. lia. }
  rewrite H401, Hok. cbn [andb negb].
  eexists _, _, _. split; [reflexivity|]. split; [apply advances_call_fetch|].
  unfold Spec.is_status_request, Spec.status_url.
  cbn [fc_method fc_url cfg_method cfg_url]. apply String.eqb_refl.
Qed.

(** A status request that fails. *)
Lemma getTaskStatus_failed (E : env) (taskId : string) (w : world) (message : string) :
  Spec.blank taskId = false ->
  Spec.fails E (length (w_fetched w)) message ->
  exists c w1 status,
    getTaskStatus enough E taskId w
    = Returned (mkApiResponse None status (Some message)
                              (Some "Failed to get task status")) w1
    /\ Spec.advances w w1 [c]
    /\ Spec.is_status_request E taskId c = true.
Proof.
  intros Hb Hfail. unfold getTaskStatus.
  unfold Spec.blank in Hb. rewrite Hb.
  unfold enough. cbn [makeRequest makeRequest_resume].
  assert (Hown : forall hdrs,
            Spec.is_status_request E taskId
              (mkFetch (baseURL E +:+ "/api/tasks/" +:+ encodeURIComponent taskId) GET hdrs None)
            = true).
  { intros hdrs. unfold Spec.is_status_request, Spec.status_url.
    cbn [fc_method fc_url]. apply String.eqb_refl. }
  destruct Hfail as [e Hf|r e Hf Hbody|r data Hf Hbody Hok H401]; rewrite Hf.
  - eexists _, _, _. split; [reflexivity|]. split; [apply advances_call_fetch|apply Hown].
  - rewrite Hbody.
    eexists _, _, _. split; [reflexivity|]. split; [apply advances_call_fetch|apply Hown].
  - rewrite Hbody, (proj2 (Z.eqb_neq _ _) H401), Hok. cbn [andb negb].
    eexists _, _, _. split; [reflexivity|]. split; [apply advances_call_fetch|apply Hown].
Qed.

(** The loop runs to an end, or to a point where it waits for ever; every
    turn issues at most three requests, at most two of them status
    requests. *)
Lemma poll_loop_sends (E : env) (taskId : string) (ms : Z) (callback : bool)
    (attempts : nat) (w : world) :
  exists new,
    Spec.ends_with (fst (poll_loop enough E taskId ms callback attempts w)) w new
    /\ length new <= 3 * attempts
    /\ Spec.status_requests E taskId new <= 2 * attempts.
Proof.
  revert w. induction attempts as [|n IH]; intros w.
  { exists []. split; [exists w; split; [reflexivity|apply advances_refl]|].
    split; [simpl; lia|unfold Spec.status_requests; simpl; lia]. }
  cbn [poll_loop].
  destruct (getTaskStatus_ends E taskId w) as (new & (w1 & Hf & Hadv) & Hlen & Hst).
  assert (Hstop : forall o : outcome value,
             Spec.final_world o = Some w1 ->
             exists new', Spec.ends_with o w new'
                          /\ length new' <= 3 * S n
                          /\ Spec.status_requests E taskId new' <= 2 * S n).
  { intros o Ho. exists new. split; [exists w1; auto|]. lia. }
  destruct (getTaskStatus enough E taskId w) as [response w'|e w'|w'|];
    simpl in Hf; try discriminate Hf; injection Hf as ->; cbn [fst snd];
    try (now apply Hstop).
  destruct (truthy (ar_error response)); [now apply Hstop|].
  destruct (get (ar_data response) "status") as [st|]; [|now apply Hstop].
  destruct (terminal st); [now apply Hstop|].
  destruct (IH w1) as (more & (w2 & Hf2 & Hadv2) & Hlen2 & Hst2).
  destruct (poll_loop enough E taskId ms callback n w1) as [o rest]. cbn [fst snd] in *.
  exists (new ++ more). split; [|split].
  - exists w2. split; [assumption|]. eapply advances_trans; eassumption.
  - rewrite List.length_app. lia.
  - rewrite status_requests_app. lia.
Qed.

(** What the loop returns is the body of the answer to its last request,
    and reports the task completed or failed. *)
Lemma poll_loop_returns (E : env) (taskId : string) (ms : Z) (callback : bool)
    (attempts : nat) (w : world) (status : value) (w' : world) :
  fst (poll_loop enough E taskId ms callback attempts w) = Returned status w' ->
  exists data,
    status = Some data /\ Spec.finished data
    /\ Spec.answers E (Nat.pred (length (w_fetched w'))) data.
Proof.
  revert w. induction attempts as [|n IH]; intros w; [discriminate|].
  cbn [poll_loop].
  pose proof (getTaskStatus_resolves E taskId w) as Hres.
  destruct (getTaskStatus enough E taskId w) as [response w1|e w1|w1|];
    try contradiction; try discriminate.
  destruct (truthy (ar_error response)); [discriminate|].
  destruct (get (ar_data response) "status") as [st|] eqn:Hst; [|discriminate].
  destruct (terminal st) eqn:Hterm.
  - cbn [fst]. intros H. injection H as <- <-.
    destruct Hres as [Hnone|(data & Hdata & Hans)].
    + rewrite Hnone in Hst. discriminate Hst.
    + exists data. split; [exact Hdata|]. split; [|exact Hans].
      exists st. now rewrite <- Hdata.
  - specialize (IH w1).
    destruct (poll_loop enough E taskId ms callback n w1) as [o rest]. exact IH.
Qed.

(** While the server reports the task under way, every turn issues one
    status request and goes on to the next turn. *)
Lemma poll_loop_under_way (E : env) (taskId : string) (ms : Z) (callback : bool) :
  Spec.blank taskId = false ->
  forall (j n : nat) (w : world),
    (forall i, i < j ->
       exists data, Spec.answers E (length (w_fetched w) + i) data /\ Spec.under_way data) ->
    exists calls wj,
      Spec.advances w wj calls
      /\ Spec.only_status_requests E taskId j calls
      /\ fst (poll_loop enough E taskId ms callback (j + n) w)
         = fst (poll_loop enough E taskId ms callback n wj).
Proof.
  intros Hb j n. induction j as [|j IH]; intros w Hall.
  { exists [], w. split; [apply advances_refl|]. split; [split; reflexivity|reflexivity]. }
  destruct (Hall 0) as (data & Hans & st & Hst & Hterm); [lia|].
  rewrite Nat.add_0_r in Hans.
  destruct (getTaskStatus_answered E taskId w data Hb Hans)
    as (c & w1 & status & Hget & Hadv & Hc).
  destruct (IH w1) as (calls & wj & Hadvj & Honly & Hloop).
  { intros i Hi. destruct (Hall (S i)) as (d & Hd & Hu); [lia|].
    exists d. split; [|exact Hu].
    destruct Hadv as (Hfetched & _). rewrite Hfetched, List.length_app.
    cbn [length]. now replace (length (w_fetched w) + 1 + i) with (length (w_fetched w) + S i) by lia. }
  exists ([c] ++ calls), wj. split; [eapply advances_trans; eassumption|]. split.
  - apply (only_status_requests_app E taskId 1 j); [|exact Honly].
    split; [reflexivity|]. unfold Spec.status_requests. cbn [List.filter]. now rewrite Hc.
  - rewrite <- Hloop. cbn [Nat.add poll_loop]. rewrite Hget.
    cbn [ar_error ar_data truthy]. rewrite Hst, Hterm.
    now destruct (poll_loop enough E taskId ms callback (j + n) w1).
Qed.

(** A turn in which the server reports the task completed or failed
    returns that status. *)
Lemma poll_loop_finished (E : env) (taskId : string) (ms : Z) (callback : bool)
    (n : nat) (w : world) (data : json) :
  Spec.blank taskId = false ->
  Spec.answers E (length (w_fetched w)) data ->
  Spec.finished data ->
  exists c w1,
    fst (poll_loop enough E taskId ms callback (S n) w) = Returned (Some data) w1
    /\ Spec.advances w w1 [c]
    /\ Spec.is_status_request E taskId c = true.
Proof.
  intros Hb Hans (st & Hst & Hterm).
  destruct (getTaskStatus_answered E taskId w data Hb Hans)
    as (c & w1 & status & Hget & Hadv & Hc).
  exists c, w1. split; [|auto].
  cbn [poll_loop]. rewrite Hget. cbn [ar_error ar_data truthy]. rewrite Hst, Hterm.
  reflexivity.
Qed.

(** A turn whose request fails throws, with the reported text as the
    message of the error when there is one. *)
Lemma poll_loop_failed (E : env) (taskId : string) (ms : Z) (callback : bool)
    (n : nat) (w : world) (message : string) :
  Spec.blank taskId = false ->
  Spec.fails E (length (w_fetched w)) message ->
  exists c w1 e,
    fst (poll_loop enough E taskId ms callback (S n) w) = Threw e w1
    /\ (message <> "" -> e = Error message)
    /\ Spec.advances w w1 [c]
    /\ Spec.is_status_request E taskId c = true.
Proof.
  intros Hb Hfail.
  destruct (getTaskStatus_failed E taskId w message Hb Hfail)
    as (c & w1 & status & Hget & Hadv & Hc).
  exists c, w1. cbn [poll_loop]. rewrite Hget. cbn [ar_error ar_data truthy or_else get].
  destruct (String.eqb_spec message "") as [->|Hne]; cbn [negb].
  - destruct callback; eexists; (split; [reflexivity|]); split; auto; congruence.
  - eexists. split; [reflexivity|]. auto.
Qed.

(** C9, as stated, fails: with [maxAttempts = 1], on a signed-in page whose
    access token the server rejects, one call of [pollTaskStatus] sends the
    status request twice (the request, the token refresh, the request
    again) and returns the completed status. *)
Lemma pollTaskStatus_repeats_status_request :
  let o := fst (pollTaskStatus enough Spec.completed_behind_401 "task-1" Spec.one_attempt
                  Spec.signed_in) in
  maxAttempts Spec.one_attempt = Some (QArith_base.inject_Z 1)
  /\ map fc_url (Spec.issued Spec.signed_in o)
     = ["http://localhost:8000/api/tasks/task-1"; "http://localhost:8000/auth/refresh";
        "http://localhost:8000/api/tasks/task-1"]
  /\ Spec.status_requests Spec.completed_behind_401 "task-1" (Spec.issued Spec.signed_in o) = 2
  /\ ~ Spec.status_requests Spec.completed_behind_401 "task-1" (Spec.issued Spec.signed_in o)
       <= turns (QArith_base.inject_Z 1)
  /\ exists w', o = Returned (Some (JObject [("status", JString "completed")])) w'.
Proof.
  split; [reflexivity|]. split; [vm_compute; reflexivity|].
  split; [vm_compute; reflexivity|]. split; [vm_compute; lia|].
  eexists. vm_compute. reflexivity.
Qed.

(** C9, amended: [pollTaskStatus] enters its loop once for every natural
    number below [maxAttempts] (30 by default): [n] turns.  It runs to an
    end, or waits for ever, having issued at most [3 * n] requests, at most
    [2 * n] of them status requests (a turn repeats its request after a 401
    answer and a token refresh).  What it returns is the body the server
    sent in answer to its last request, with a status that is completed or
    failed.  For a task id that is not blank: when the server reports the
    task under way [n] times, the timeout error is thrown after exactly [n]
    status requests; when it reports it under way [j < n] times and then
    completed or failed, that status is returned; when the next request
    fails instead, an error is thrown at once, with the reported text;
    in both cases after exactly [j + 1] status requests.  For a blank task
    id the error of [getTaskStatus] is thrown before any request. *)
Theorem pollTaskStatus_contract (E : env) (taskId : string) (options : poll_options)
    (w : world) :
  let max := default (QArith_base.inject_Z 30) (maxAttempts options) in
  let n := turns max in
  let o := fst (pollTaskStatus enough E taskId options w) in
  let sent := Spec.issued w o in
  let k := length (w_fetched w) in
  (forall attempt : nat,
      attempt < n <-> QArith_base.Qlt (QArith_base.inject_Z (Z.of_nat attempt)) max)
  /\ (maxAttempts options = None -> n = 30)
  /\ o <> OutOfFuel
  /\ length sent <= 3 * n
  /\ Spec.status_requests E taskId sent <= 2 * n
  /\ (forall status w', o = Returned status w' ->
        exists data, status = Some data /\ Spec.finished data
                     /\ Spec.answers E (Nat.pred (length (w_fetched w'))) data)
  /\ (Spec.blank taskId = true -> 0 < n ->
        (exists w', o = Threw (Error "Task ID is required") w') /\ sent = [])
  /\ (Spec.blank taskId = false ->
      forall j : nat,
        (forall i, i < j ->
           exists data, Spec.answers E (k + i) data /\ Spec.under_way data) ->
        (j = n ->
           (exists w', o = Threw (Error "Task polling timeout - maximum attempts reached") w')
           /\ Spec.only_status_requests E taskId n sent)
        /\ (j < n -> forall data, Spec.answers E (k + j) data -> Spec.finished data ->
              (exists w', o = Returned (Some data) w')
              /\ Spec.only_status_requests E taskId (S j) sent)
        /\ (j < n -> forall message, Spec.fails E (k + j) message ->
              (exists e w', o = Threw e w' /\ (message <> "" -> e = Error message))
              /\ Spec.only_status_requests E taskId (S j) sent)).
Proof.
  intros max n o sent k. subst o sent. unfold pollTaskStatus. fold max. fold n.
  set (ms := default 2000%Z (interval options)).
  set (callback := onProgress options).
  split; [intros attempt; apply turns_below|].
  split; [intros Hnone; subst n max; now rewrite Hnone|].
  destruct (poll_loop_sends E taskId ms callback n w) as (new & Hends & Hlen & Hst).
  rewrite (ends_with_issued _ _ _ Hends).
  split; [destruct Hends as (w' & Hf & _); intros Ho; rewrite Ho in Hf; discriminate Hf|].
  split; [exact Hlen|]. split; [exact Hst|].
  split; [intros status w'; apply poll_loop_returns|].
  split.
  { intros Hb Hpos. destruct n as [|m]; [lia|].
    revert Hends. cbn [poll_loop]. unfold getTaskStatus.
    unfold Spec.blank in Hb. rewrite Hb. cbn [fst].
    intros (w' & Hf & (Hfetched & _)). injection Hf as <-.
    split; [eexists; reflexivity|].
    apply (f_equal (@length fetch_call)) in Hfetched.
    rewrite List.length_app in Hfetched. destruct new; [reflexivity|simpl in Hfetched; lia]. }
  intros Hb j Hall.
  assert (Hissued : forall (o' : outcome value) (wj w' : world) (calls more : list fetch_call),
            Spec.advances w wj calls ->
            Spec.final_world o' = Some w' ->
            Spec.advances wj w' more ->
            Spec.ends_with (fst (poll_loop enough E taskId ms callback n w)) w new ->
            fst (poll_loop enough E taskId ms callback n w) = o' ->
            new = calls ++ more).
  { intros o' wj w' calls more H1 Hf H2 Hnew Ho.
    rewrite <- (ends_with_issued _ _ _ Hnew), Ho.
    apply ends_with_issued. exists w'. split; [exact Hf|].
    eapply advances_trans; eassumption. }
  assert (Hat : forall (wj : world) (calls : list fetch_call),
            Spec.advances w wj calls -> Spec.only_status_requests E taskId j calls ->
            length (w_fetched wj) = k + j).
  { intros wj calls (Hfetched & _) (Hl & _). rewrite Hfetched, List.length_app. subst k. lia. }
  assert (Hone : forall c, Spec.is_status_request E taskId c = true ->
            Spec.only_status_requests E taskId 1 [c]).
  { intros c Hc. split; [reflexivity|].
    unfold Spec.status_requests. cbn [List.filter]. now rewrite Hc. }
  split; [|split].
  - intros Hj.
    destruct (poll_loop_under_way E taskId ms callback Hb j 0 w Hall)
      as (calls & wj & Hadv & Honly & Hloop).
    rewrite Nat.add_0_r, Hj in Hloop. cbn [poll_loop fst] in Hloop.
    split; [eexists; exact Hloop|].
    rewrite (Hissued (Threw (Error "Task polling timeout - maximum attempts reached") wj)
               wj wj calls [] Hadv eq_refl (advances_refl wj) Hends Hloop).
    rewrite List.app_nil_r. now rewrite <- Hj.
  - intros Hj data Hans Hfin.
    destruct (poll_loop_under_way E taskId ms callback Hb j (n - j) w Hall)
      as (calls & wj & Hadv & Honly & Hloop).
    replace (j + (n - j)) with n in Hloop by lia.
    replace (n - j) with (S (n - S j)) in Hloop by lia.
    rewrite <- (Hat wj calls Hadv Honly) in Hans.
    destruct (poll_loop_finished E taskId ms callback (n - S j) wj data Hb Hans Hfin)
      as (c & w1 & Hret & Hadv1 & Hc).
    rewrite Hret in Hloop.
    split; [eexists; exact Hloop|].
    rewrite (Hissued (Returned (Some data) w1) wj w1 calls [c] Hadv eq_refl Hadv1 Hends Hloop).
    replace (S j) with (j + 1) by lia.
    apply only_status_requests_app; [exact Honly|now apply Hone].
  - intros Hj message Hfail.
    destruct (poll_loop_under_way E taskId ms callback Hb j (n - j) w Hall)
      as (calls & wj & Hadv & Honly & Hloop).
    replace (j + (n - j)) with n in Hloop by lia.
    replace (n - j) with (S (n - S j)) in Hloop by lia.
    rewrite <- (Hat wj calls Hadv Honly) in Hfail.
    destruct (poll_loop_failed E taskId ms callback (n - S j) wj message Hb Hfail)
      as (c & w1 & e & Hthrew & Hmsg & Hadv1 & Hc).
    rewrite Hthrew in Hloop.
    split; [exists e, w1; auto|].
    rewrite (Hissued (Threw e w1) wj w1 calls [c] Hadv eq_refl Hadv1 Hends Hloop).
    replace (S j) with (j + 1) by lia.
    apply only_status_requests_app; [exact Honly|now apply Hone].
Qed.

Lemma pollTaskStatus_contract_witness :
  (exists w', fst (pollTaskStatus enough Spec.busy_server "task-1" Spec.two_and_a_half_attempts
                     Spec.empty_page)
              = Threw (Error "Task polling timeout - maximum attempts reached") w')
  /\ Spec.only_status_requests Spec.busy_server "task-1" 3
       (Spec.issued Spec.empty_page
          (fst (pollTaskStatus enough Spec.busy_server "task-1" Spec.two_and_a_half_attempts
                  Spec.empty_page))).
Proof.
  destruct (pollTaskStatus_contract Spec.busy_server "task-1" Spec.two_and_a_half_attempts
              Spec.empty_page) as (_ & _ & _ & _ & _ & _ & _ & H).
  destruct (H eq_refl 3) as [Htimeout _].
  - intros i _. exists (JObject [("status", JString "running")]). split.
    + eexists. split; [reflexivity|]. split; reflexivity.
    + exists (Some (JString "running")). split; reflexivity.
  - apply Htimeout. reflexivity.
Defined.

(** * Further properties *)

(** ** TokenManager *)

Lemma strip_start_none (p : ascii -> bool) (s : string) :
  forallb (fun c => negb (p c)) (list_ascii_of_string s) = true -> strip_start p s = s.
Proof.
  destruct s as [|c r]; simpl; [reflexivity|].
  intros H. apply andb_true_iff in H as [Hc _].
  apply negb_true_iff in Hc. now rewrite Hc.
Qed.

Lemma strip_end_none (p : ascii -> bool) (s : string) :
  forallb (fun c => negb (p c)) (list_ascii_of_string s) = true -> strip_end p s = s.
Proof.
  induction s as [|c r IH]; simpl; [reflexivity|].
  intros H. apply andb_true_iff in H as [Hc Hr].
  apply negb_true_iff in Hc. rewrite (IH Hr), Hc. now destruct r.
Qed.

Lemma forallb_weaken {A : Type} (p q : A -> bool) (l : list A) :
  (forall x, p x = true -> q x = true) -> forallb p l = true -> forallb q l = true.
Proof.
  intros Hpq. rewrite !List.forallb_forall. auto.
Qed.

Lemma forallb_free (p : ascii -> bool) (c : ascii) (s : string) :
  p c = false -> forallb p (list_ascii_of_string s) = true -> Spec.free_of c s.
Proof.
  intros Hc H Hin. rewrite List.forallb_forall in H. apply H in Hin. congruence.
Qed.

Lemma unbroken_facts (s : string) :
  Facts.unbroken s ->
  Spec.free_of ";" s
  /\ forallb (fun c => negb (is_space c)) (list_ascii_of_string s) = true
  /\ cookie_value s = s.
Proof.
  intros H. unfold Facts.unbroken in H.
  assert (Hfree : Spec.free_of ";" s) by (eapply forallb_free; [|exact H]; reflexivity).
  assert (Hspace : forallb (fun c => negb (is_space c)) (list_ascii_of_string s) = true).
  { eapply forallb_weaken; [|exact H]. intros c Hc. unfold Facts.cookie_unit in Hc.
    now apply andb_true_iff in Hc as [Hc _]. }
  split; [exact Hfree|]. split; [exact Hspace|].
  unfold cookie_value. rewrite (split_free _ _ Hfree). cbn [nth].
  assert (Hblank : forallb (fun c => negb (Ascii.eqb c " " || Ascii.eqb c "009")%char)
                           (list_ascii_of_string s) = true).
  { eapply forallb_weaken; [|exact Hspace]. intros c Hc.
    apply negb_true_iff in Hc. apply negb_true_iff.
    destruct (Ascii.eqb_spec c " ") as [->|_]; [discriminate Hc|].
    destruct (Ascii.eqb_spec c "009") as [->|_]; [discriminate Hc|reflexivity]. }
  now rewrite (strip_start_none _ _ Hblank), (strip_end_none _ _ Hblank).
Qed.

Lemma plain_unbroken (s : string) : Facts.plain s -> Facts.unbroken s /\ Spec.free_of "=" s.
Proof.
  intros H. unfold Facts.plain in H. split.
  - eapply forallb_weaken; [|exact H]. intros c Hc. unfold Facts.token_unit in Hc.
    now apply andb_true_iff in Hc as [Hc _].
  - eapply forallb_free; [|exact H]. reflexivity.
Qed.

(** What the loop of [getCookieToken] reads from the piece of a cookie. *)
Lemma cookie_piece_value (n v : string) :
  Spec.tidy_cookie (n, v) ->
  forallb (fun c => negb (is_space c)) (list_ascii_of_string v) = true ->
  nth_error (split "=" (trim (n +:+ "=" +:+ v))) 1 = Some (nth 0 (split "=" v) "").
Proof.
  intros (_ & Heq & _ & Hclean) Hv. simpl in Heq, Hclean.
  assert (Hstart : strip_start is_space (n +:+ "=" +:+ v) = n +:+ "=" +:+ v).
  { destruct n as [|c n]; [reflexivity|].
    change (String c n +:+ "=" +:+ v) with (String c (n +:+ "=" +:+ v)).
    cbn [strip_start]. simpl in Hclean. now rewrite Hclean. }
  unfold trim. rewrite Hstart.
  assert (Htail : strip_end is_space ("=" +:+ v) = String "=" v).
  { change ("=" +:+ v) with (String "=" v). cbn [strip_end].
    rewrite (strip_end_none _ _ Hv). now destruct v. }
  rewrite strip_end_keeps by (rewrite Htail; discriminate).
  rewrite Htail, split_app_sep by assumption.
  cbn [nth_error]. destruct (split "=" v) eqn:Hs; [|reflexivity].
  destruct v; simpl in Hs; [discriminate|].
  destruct (Ascii.eqb _ "="); [discriminate|]. now destruct (split "=" v).
Qed.

(** In a tidy jar the loop reads the first cookie named like the token. *)
Lemma scan_tidy_find (jar : list (string * string)) :
  Forall Spec.tidy_cookie jar ->
  scan_cookies (split ";" (join "; " (map (fun c => fst c +:+ "=" +:+ snd c) jar)))
  = match find (fun c => String.eqb (fst c) TOKEN_KEY) jar with
    | Some c => nth_error (split "=" (trim (fst c +:+ "=" +:+ snd c))) 1
    | None => None
    end.
Proof.
  intros Htidy. destruct jar as [|c jar]; [reflexivity|].
  set (render := fun c : string * string => fst c +:+ "=" +:+ snd c).
  assert (Hfree : Forall (Spec.free_of ";") (map render (c :: jar))).
  { apply List.Forall_map. eapply List.Forall_impl; [|exact Htidy].
    intros [n v] (Hn & _ & Hv & _). unfold render. simpl in *.
    apply free_of_app; [assumption|]. apply (free_of_app _ "="); [|assumption].
    unfold Spec.free_of. simpl. intros [H|[]]. discriminate H. }
  change (map render (c :: jar)) with (render c :: map render jar) in *.
  rewrite split_cookie_string by assumption.
  assert (Hname : forall c, Spec.tidy_cookie c ->
                            nth 0 (split "=" (trim (render c))) "" = fst c).
  { intros [n v] Ht. unfold render. simpl fst. simpl snd. now apply cookie_piece_name. }
  inversion Htidy as [|? ? Hc Hjar]; subst.
  cbn [scan_cookies find]. rewrite (Hname c Hc).
  destruct (String.eqb (fst c) TOKEN_KEY); [reflexivity|].
  clear Hc Htidy Hfree. induction jar as [|d jar IH]; [reflexivity|].
  inversion Hjar as [|? ? Hd Hrest]; subst.
  cbn [map scan_cookies find]. rewrite trim_blank, (Hname d Hd).
  destruct (String.eqb (fst d) TOKEN_KEY); [reflexivity|]. now apply IH.
Qed.

Lemma find_jar_set (v : string) (jar : list (string * string)) :
  find (fun c => String.eqb (fst c) TOKEN_KEY) (jar_set TOKEN_KEY v jar) = Some (TOKEN_KEY, v).
Proof.
  induction jar as [|[n v'] rest IH]; [reflexivity|].
  cbn [jar_set]. destruct (String.eqb_spec n TOKEN_KEY) as [->|Hn].
  - reflexivity.
  - cbn [find fst]. destruct (String.eqb_spec n TOKEN_KEY); [contradiction|exact IH].
Qed.

Lemma tidy_jar_set (v : string) (jar : list (string * string)) :
  Spec.tidy_cookie (TOKEN_KEY, v) -> Forall Spec.tidy_cookie jar ->
  Forall Spec.tidy_cookie (jar_set TOKEN_KEY v jar).
Proof.
  intros Hv. induction 1 as [|[n v'] rest Hc Hrest IH]; simpl.
  - constructor; [exact Hv|constructor].
  - destruct (String.eqb_spec n TOKEN_KEY) as [->|_]; constructor; assumption.
Qed.

(** What [getToken] reads after [setToken]: the cookie copy up to its first
    [=] when that is not empty, the stored token otherwise. *)
Lemma getToken_setToken (token : string) (w : world) :
  w_window w = true -> Spec.tidy w -> Facts.unbroken token ->
  getToken (setToken token w)
  = if String.eqb (nth 0 (split "=" token) "") "" then Some token
    else Some (nth 0 (split "=" token) "").
Proof.
  intros Hw Htidy Htoken.
  destruct (unbroken_facts token Htoken) as (Hfree & Hspace & Hvalue).
  unfold getToken, getCookieToken, setToken. rewrite Hw. cbn [negb].
  cbn [w_window set_cookies set_localStorage w_cookies w_localStorage]. rewrite Hw. cbn [negb].
  unfold document_cookie. cbn [w_cookies set_cookies set_localStorage]. rewrite Hvalue.
  assert (Hcookie : Spec.tidy_cookie (TOKEN_KEY, token)).
  { repeat split; try exact Hfree; unfold Spec.free_of; simpl; intuition discriminate. }
  rewrite scan_tidy_find by (now apply tidy_jar_set).
  rewrite find_jar_set. cbn [fst snd].
  rewrite (cookie_piece_value _ _ Hcookie Hspace). cbn [truthy].
  destruct (String.eqb (nth 0 (split "=" token) "") ""); cbn [negb]; [|reflexivity].
  apply lookup_insert_eq.
Qed.

Lemma forallb_append (p : ascii -> bool) (a b : string) :
  forallb p (list_ascii_of_string (a +:+ b))
  = forallb p (list_ascii_of_string a) && forallb p (list_ascii_of_string b).
Proof.
  induction a as [|c a IH]; [reflexivity|].
  change (String c a +:+ b) with (String c (a +:+ b)). simpl. now rewrite IH, andb_assoc.
Qed.

(** X1: in a browser, a token made of visible characters other than [;]
    and [=] that is stored with [setToken] is what [getToken] returns
    afterwards, whatever token was stored before. *)
Theorem setToken_getToken (token : string) (w : world) :
  w_window w = true -> Spec.tidy w -> Facts.plain token -> token <> "" ->
  getToken (setToken token w) = Some token.
Proof.
  intros Hw Htidy Hplain Hne.
  destruct (plain_unbroken token Hplain) as [Hunbroken Hfree].
  rewrite (getToken_setToken token w Hw Htidy Hunbroken).
  rewrite (split_free _ _ Hfree). cbn [nth].
  destruct (String.eqb_spec token ""); [contradiction|reflexivity].
Qed.

Lemma setToken_getToken_witness :
  getToken (setToken "eyJhbGciOiJIUzI1NiJ9.eyJleHAiOjF9.c2ln" Spec.signed_in)
  = Some "eyJhbGciOiJIUzI1NiJ9.eyJleHAiOjF9.c2ln".
Proof.
  apply setToken_getToken.
  - reflexivity.
  - repeat constructor; unfold Spec.free_of; simpl; intuition discriminate.
  - reflexivity.
  - discriminate.
Defined.

(** X2: a stored token that contains [=] is read back cut at its first
    [=]: [getToken] prefers the cookie copy, and the loop of
    [getCookieToken] keeps only the text between the first and the second
    [=] of the cookie, while [localStorage] still holds the whole token. *)
Theorem getToken_cuts_at_equals (head tail : string) (w : world) :
  w_window w = true -> Spec.tidy w ->
  Facts.plain head -> head <> "" -> Facts.unbroken tail ->
  getToken (setToken (head +:+ "=" +:+ tail) w) = Some head
  /\ w_localStorage (setToken (head +:+ "=" +:+ tail) w) !! TOKEN_KEY
     = Some (head +:+ "=" +:+ tail).
Proof.
  intros Hw Htidy Hplain Hne Htail.
  destruct (plain_unbroken head Hplain) as [Hunbroken Hfree].
  assert (Hwhole : Facts.unbroken (head +:+ "=" +:+ tail)).
  { unfold Facts.unbroken in *. rewrite !forallb_append, Hunbroken, Htail. reflexivity. }
  split.
  - rewrite (getToken_setToken _ w Hw Htidy Hwhole).
    change (head +:+ "=" +:+ tail) with (head +:+ String "=" tail).
    rewrite (split_app_sep _ _ _ Hfree). cbn [nth].
    destruct (String.eqb_spec head ""); [contradiction|reflexivity].
  - unfold setToken. rewrite Hw. simpl. apply lookup_insert_eq.
Qed.

Lemma getToken_cuts_at_equals_witness :
  getToken (setToken "c2Vzc2lvbg==" Spec.empty_page) = Some "c2Vzc2lvbg"
  /\ w_localStorage (setToken "c2Vzc2lvbg==" Spec.empty_page) !! TOKEN_KEY = Some "c2Vzc2lvbg==".
Proof.
  apply (getToken_cuts_at_equals "c2Vzc2lvbg" "=" Spec.empty_page).
  - reflexivity.
  - constructor.
  - reflexivity.
  - discriminate.
  - reflexivity.
Defined.

(** X3: the two tokens are stored independently.  In a browser
    [setRefreshToken] is read back by [getRefreshToken] and leaves
    [getToken] as it was, and [setToken] leaves [getRefreshToken] as it
    was; without a window nothing is stored and both getters answer
    [null]. *)
Theorem tokens_independent (token : string) (w : world) :
  (if w_window w then getRefreshToken (setRefreshToken token w) = Some token
   else getRefreshToken (setRefreshToken token w) = None
        /\ getToken (setToken token w) = None)
  /\ getToken (setRefreshToken token w) = getToken w
  /\ getRefreshToken (setToken token w) = getRefreshToken w.
Proof.
  unfold getRefreshToken, getToken, getCookieToken, setRefreshToken, setToken, document_cookie.
  destruct (w_window w) eqn:Hw; simpl; rewrite ?Hw; simpl.
  - split; [apply lookup_insert_eq|]. split.
    + destruct (truthy _); [reflexivity|]. now apply lookup_insert_ne.
    + now apply lookup_insert_ne.
  - auto.
Qed.

(** X4: storing tokens and clearing them leaves no trace: after
    [setToken], [setRefreshToken] and [clearTokens], both getters answer
    [null], every other cookie is in its place and every other key of
    [localStorage] has its value. *)
Theorem clearTokens_undoes (token refresh : string) (w : world) :
  Spec.tidy w ->
  let w' := clearTokens (setRefreshToken refresh (setToken token w)) in
  getToken w' = None
  /\ getRefreshToken w' = None
  /\ (w_window w = true -> w_cookies w' = jar_delete TOKEN_KEY (w_cookies w))
  /\ (forall key, key <> TOKEN_KEY -> key <> REFRESH_TOKEN_KEY ->
                  w_localStorage w' !! key = w_localStorage w !! key)
  /\ Spec.tidy w'.
Proof.
  intros Htidy w'. subst w'.
  assert (Hjar : jar_delete TOKEN_KEY (w_cookies (setRefreshToken refresh (setToken token w)))
                 = jar_delete TOKEN_KEY (w_cookies w)).
  { destruct (advances_setToken token w) as (_ & _ & J1).
    destruct (advances_setRefreshToken refresh (setToken token w)) as (_ & _ & J2).
    congruence. }
  destruct (clearTokens_clears w _ Htidy Hjar) as [Ht Hr].
  assert (Hw1 : w_window (setToken token w) = w_window w).
  { now destruct (advances_setToken token w) as (_ & W & _). }
  assert (Hw2 : w_window (setRefreshToken refresh (setToken token w)) = w_window w).
  { destruct (advances_setRefreshToken refresh (setToken token w)) as (_ & W & _). congruence. }
  split; [exact Ht|]. split; [exact Hr|]. split; [|split].
  - intros Hw. unfold clearTokens. rewrite Hw2, Hw.
    cbn [negb set_cookies set_localStorage w_cookies]. exact Hjar.
  - intros key H1 H2. unfold clearTokens. rewrite Hw2.
    unfold setRefreshToken. rewrite Hw1. unfold setToken.
    destruct (w_window w); cbn [negb set_cookies set_localStorage w_localStorage];
      [|reflexivity].
    rewrite !lookup_delete_ne, !lookup_insert_ne by congruence. reflexivity.
  - apply tidy_clearTokens. unfold Spec.tidy.
    unfold setRefreshToken. destruct (w_window (setToken token w)); simpl;
      now apply tidy_setToken.
Qed.

Lemma clearTokens_undoes_witness :
  getToken (clearTokens (setRefreshToken "r9" (setToken "t9" Spec.signed_in))) = None.
Proof.
  apply (clearTokens_undoes "t9" "r9" Spec.signed_in).
  repeat constructor; unfold Spec.free_of; simpl; intuition discriminate.
Defined.

(** X5: [handleAuthFailure] signs the page out: both getters answer [null]
    afterwards, no request is issued, and in a browser the page is sent to
    [/login]; without a window nothing changes. *)
Theorem handleAuthFailure_signs_out (w : world) :
  Spec.tidy w ->
  getToken (handleAuthFailure w) = None
  /\ getRefreshToken (handleAuthFailure w) = None
  /\ w_fetched (handleAuthFailure w) = w_fetched w
  /\ (if w_window w then w_location (handleAuthFailure w) = Some "/login"
      else handleAuthFailure w = w).
Proof.
  intros Htidy.
  destruct (clearTokens_clears w w Htidy eq_refl) as [Ht Hr].
  unfold handleAuthFailure.
  assert (Hwin : w_window (clearTokens w) = w_window w).
  { now destruct (advances_clearTokens w) as (_ & W & _). }
  assert (Hlog : w_fetched (clearTokens w) = w_fetched w).
  { destruct (advances_clearTokens w) as (F & _). now rewrite List.app_nil_r in F. }
  rewrite Hwin. destruct (w_window w) eqn:Hw.
  - split; [exact Ht|]. split; [exact Hr|]. split; [exact Hlog|reflexivity].
  - split; [exact Ht|]. split; [exact Hr|]. split; [exact Hlog|].
    unfold clearTokens. now rewrite Hw.
Qed.

Lemma handleAuthFailure_signs_out_witness :
  getToken (handleAuthFailure Spec.signed_in) = None.
Proof.
  apply (handleAuthFailure_signs_out Spec.signed_in).
  repeat constructor; unfold Spec.free_of; simpl; intuition discriminate.
Defined.

(** ** Errors and requests *)

Lemma or_else_nonempty (s : option string) (d : string) : d <> "" -> or_else s d <> "".
Proof.
  intros Hd. destruct s as [v|]; simpl; [|exact Hd].
  destruct (String.eqb_spec v ""); assumption.
Qed.

Lemma http_message_nonempty (status : Z) : "HTTP " +:+ number_to_string status +:+ " Error" <> "".
Proof. discriminate. Qed.

Lemma handleError_bare (e : error) :
  Facts.bare e ->
  ae_status (handleError e) = 500%Z
  /\ ae_code (handleError e) = Some "UNKNOWN_ERROR"
  /\ ae_message (handleError e) <> "".
Proof.
  unfold Facts.bare, handleError. intros ->. cbn [ae_status ae_code ae_message].
  split; [reflexivity|]. split; [reflexivity|].
  apply or_else_nonempty. discriminate.
Qed.

(** X6: [handleError] never reports an empty message.  For an error built
    by [createHttpError] it reports the given message, or "HTTP <status>
    Error" when none was given, with the status of the response when there
    is one, and 500 with the code UNKNOWN_ERROR when there is none; for
    any error without a response it reports 500, UNKNOWN_ERROR and the
    error's message, or "An unexpected error occurred" when that is
    empty. *)
Theorem handleError_reports (r : option response) (message : option string) (e : error) :
  (let made := createHttpError r message in
   ae_message (handleError made)
   = or_else message
       ("HTTP " +:+ number_to_string (match r with Some r => r_status r | None => 0%Z end)
        +:+ " Error")
   /\ ae_message (handleError made) <> ""
   /\ match r with
      | Some r => ae_status (handleError made) = r_status r /\ ae_code (handleError made) = None
      | None => ae_status (handleError made) = 500%Z
                /\ ae_code (handleError made) = Some "UNKNOWN_ERROR"
      end)
  /\ (Facts.bare e ->
      ae_status (handleError e) = 500%Z
      /\ ae_code (handleError e) = Some "UNKNOWN_ERROR"
      /\ ae_message (handleError e) <> ""
      /\ (e_message e <> "" -> ae_message (handleError e) = e_message e)
      /\ (e_message e = "" -> ae_message (handleError e) = "An unexpected error occurred")).
Proof.
  split.
  - cbv zeta.
    assert (Hne : or_else message
                    ("HTTP " +:+ number_to_string (match r with Some r => r_status r | None => 0%Z end)
                     +:+ " Error") <> "")
      by (apply or_else_nonempty, http_message_nonempty).
    destruct r as [r|]; unfold handleError, createHttpError; cbn [e_response e_message option_map].
    + repeat split. exact Hne.
    + split.
      * cbn [or_else].
        destruct (String.eqb_spec (or_else message ("HTTP " +:+ number_to_string 0 +:+ " Error")) "");
          [contradiction|reflexivity].
      * split; [|split; reflexivity].
        apply or_else_nonempty. discriminate.
  - intros Hbare. destruct (handleError_bare e Hbare) as (Hs & Hc & Hm).
    split; [exact Hs|]. split; [exact Hc|]. split; [exact Hm|].
    unfold Facts.bare in Hbare. unfold handleError. rewrite Hbare. cbn [ae_message or_else].
    split; intros H.
    + destruct (String.eqb_spec (e_message e) ""); [contradiction|reflexivity].
    + now rewrite H.
Qed.

Lemma handleError_reports_witness :
  ae_status (handleError (Error "Failed to fetch")) = 500%Z
  /\ ae_code (handleError (Error "Failed to fetch")) = Some "UNKNOWN_ERROR"
  /\ ae_message (handleError (Error "Failed to fetch")) <> ""
  /\ ("Failed to fetch" <> "" -> ae_message (handleError (Error "Failed to fetch")) = "Failed to fetch")
  /\ ("Failed to fetch" = "" ->
      ae_message (handleError (Error "Failed to fetch")) = "An unexpected error occurred").
Proof.
  apply (proj2 (handleError_reports None None (Error "Failed to fetch"))).
  reflexivity.
Defined.

Lemma headers_get_set (k v : string) (h : headers) :
  headers_get k (set_header k v h) = Some v.
Proof.
  unfold headers_get. induction h as [|[k' v'] rest IH]; simpl.
  - now rewrite String.eqb_refl.
  - destruct (String.eqb_spec k k') as [->|Hk]; simpl.
    + now rewrite String.eqb_refl.
    + destruct (String.eqb_spec k' k); [congruence|exact IH].
Qed.

Lemma headers_get_set_other (k k' v : string) (h : headers) :
  k <> k' -> headers_get k (set_header k' v h) = headers_get k h.
Proof.
  intros Hk. unfold headers_get. induction h as [|[k0 v0] rest IH]; simpl.
  - destruct (String.eqb_spec k' k); [congruence|reflexivity].
  - destruct (String.eqb_spec k' k0) as [->|H0]; simpl.
    + destruct (String.eqb_spec k0 k); [congruence|reflexivity].
    + destruct (String.eqb k0 k); [reflexivity|exact IH].
Qed.

Lemma headers_get_spread_is_Some (k : string) (a b : headers) :
  is_Some (headers_get k a) -> is_Some (headers_get k (spread a b)).
Proof.
  unfold spread. revert a. induction b as [|[k' v'] rest IH]; intros a Ha; simpl; [exact Ha|].
  apply IH. destruct (String.eqb_spec k k') as [->|Hk].
  - rewrite headers_get_set. eauto.
  - now rewrite headers_get_set_other.
Qed.

(** X7: every request carries a [Content-Type]; a stored token is sent as
    [Authorization: Bearer <token>] and overrides an [Authorization] header
    of the caller; with no stored token the caller's headers decide, and
    with no caller headers either the request carries [Content-Type:
    application/json] alone. *)
Theorem request_headers_authorization (cfg : HttpRequestConfig) (w : world) :
  is_Some (headers_get "Content-Type" (request_headers cfg w))
  /\ (forall token, getToken w = Some token -> token <> "" ->
        headers_get "Authorization" (request_headers cfg w) = Some ("Bearer " +:+ token))
  /\ (truthy (getToken w) = false ->
        request_headers cfg w
        = spread [("Content-Type", "application/json")] (default [] (cfg_headers cfg)))
  /\ (truthy (getToken w) = false -> cfg_headers cfg = None ->
        request_headers cfg w = [("Content-Type", "application/json")]).
Proof.
  unfold request_headers.
  assert (Hct : is_Some (headers_get "Content-Type"
                  (spread [("Content-Type", "application/json")] (default [] (cfg_headers cfg))))).
  { apply headers_get_spread_is_Some. simpl. eauto. }
  split; [|split; [|split]].
  - destruct (truthy (getToken w)); [|exact Hct].
    rewrite headers_get_set_other by discriminate. exact Hct.
  - intros token Ht Hne. rewrite Ht.
    assert (Htruthy : truthy (Some token) = true).
    { simpl. destruct (String.eqb_spec token ""); [contradiction|reflexivity]. }
    rewrite Htruthy.
    replace (or_else (Some token) "") with token; [apply headers_get_set|].
    cbn [or_else]. destruct (String.eqb_spec token ""); [contradiction|reflexivity].
  - intros Ht. now rewrite Ht.
  - intros Ht Hc. now rewrite Ht, Hc.
Qed.

Lemma request_headers_authorization_witness :
  headers_get "Authorization"
    (request_headers
       (mkConfig GET "/x" (Some [("Authorization", "Basic abc")]) None None false)
       Spec.signed_in)
  = Some "Bearer t1".
Proof.
  apply (proj1 (proj2 (request_headers_authorization
                         (mkConfig GET "/x" (Some [("Authorization", "Basic abc")]) None None false)
                         Spec.signed_in))).
  - reflexivity.
  - discriminate.
Defined.

(** ** The methods of the client *)

(** An error that [handleError] reports as a failure: with a text, and
    with a status outside 2xx. *)
Lemma handleError_http (r : response) (message : option string) :
  r_ok r = false ->
  truthy (Some (ae_message (handleError (rethrow (createHttpError (Some r) message))))) = true
  /\ ~ Facts.success (ae_status (handleError (rethrow (createHttpError (Some r) message)))).
Proof.
  intros Hok. unfold rethrow. cbn [createHttpError e_name String.eqb Ascii.eqb Bool.eqb].
  unfold handleError. cbn [createHttpError e_response e_message option_map ae_message ae_status].
  split.
  - cbn [truthy]. apply negb_true_iff.
    destruct (String.eqb_spec (or_else message ("HTTP " +:+ number_to_string (r_status r) +:+ " Error")) "")
      as [H|H]; [|reflexivity].
    now apply or_else_nonempty in H; [|apply http_message_nonempty].
  - unfold Facts.success. unfold r_ok in Hok.
    apply andb_false_iff in Hok as [H|H]; apply Z.leb_gt in H; lia.
Qed.

Lemma handleError_raised (e : error) :
  Facts.bare e ->
  truthy (Some (ae_message (handleError (rethrow e)))) = true
  /\ ~ Facts.success (ae_status (handleError (rethrow e))).
Proof.
  intros Hbare.
  assert (Hre : Facts.bare (rethrow e)).
  { unfold rethrow. destruct (String.eqb (e_name e) "AbortError"); [reflexivity|exact Hbare]. }
  destruct (handleError_bare (rethrow e) Hre) as (Hs & _ & Hm).
  split.
  - cbn [truthy]. apply negb_true_iff. now apply String.eqb_neq.
  - rewrite Hs. unfold Facts.success. lia.
Qed.

Lemma not_ok_401 (r : response) : r_status r = 401%Z -> r_ok r = false.
Proof.
  intros H. unfold r_ok. rewrite H. reflexivity.
Qed.

(** Whatever [makeRequest] throws is reported as a failure, when the
    environment raises errors of its own only. *)
Lemma makeRequest_threw (E : env) (inside : option nat) (cfg : HttpRequestConfig)
    (w : world) (e : error) (w' : world) :
  Facts.honest E ->
  makeRequest enough E inside cfg w = Threw e w' ->
  truthy (Some (ae_message (handleError e))) = true
  /\ ~ Facts.success (ae_status (handleError e)).
Proof.
  intros [Hfetch Hread]. unfold enough. cbn [makeRequest makeRequest_resume].
  destruct (fetch E (length (w_fetched w))) as [e0|r] eqn:Hf.
  { intros H. injection H as <- <-. apply handleError_raised. eapply Hfetch, Hf. }
  destruct (read_body r) as [data|e0] eqn:Hbody.
  2:{ intros H. injection H as <- <-. apply handleError_raised. eapply Hread; eassumption. }
  destruct ((r_status r =? 401)%Z && negb (cfg_retry cfg)) eqn:Htest.
  - apply andb_true_iff in Htest as [Hst _]. apply Z.eqb_eq in Hst.
    destruct (refreshToken 3 E inside _) as [newToken w2|e2 w2|w2|]; try discriminate.
    + cbn [cfg_retry retryConfig negb].
      destruct (fetch E (length (w_fetched w2))) as [e0|r2] eqn:Hf2.
      { intros H. injection H as <- <-. apply handleError_raised. eapply Hfetch, Hf2. }
      destruct (read_body r2) as [data2|e0] eqn:Hbody2.
      2:{ intros H. injection H as <- <-. apply handleError_raised. eapply Hread; eassumption. }
      rewrite andb_false_r.
      destruct (r_ok r2) eqn:Hok; cbn [negb]; [discriminate|].
      intros H. injection H as <- <-. now apply handleError_http.
    + intros H. injection H as <- <-. apply handleError_http. now apply not_ok_401.
  - destruct (r_ok r) eqn:Hok; cbn [negb]; [discriminate|].
    intros H. injection H as <- <-. now apply handleError_http.
Qed.

(** The response [makeRequest] resolves with has the status of the answer
    to the last [fetch], which is in 2xx. *)
Lemma makeRequest_returned_status (E : env) (inside : option nat) (cfg : HttpRequestConfig)
    (w : world) (resp : HttpResponse) (w' : world) :
  makeRequest enough E inside cfg w = Returned resp w' ->
  exists r, fetch E (Nat.pred (length (w_fetched w'))) = Responded r
            /\ hr_status resp = r_status r
            /\ Facts.success (r_status r).
Proof.
  assert (Hok : forall r, r_ok r = true -> Facts.success (r_status r)).
  { intros r H. unfold r_ok in H. apply andb_true_iff in H as [H1 H2].
    apply Z.leb_le in H1, H2. split; assumption. }
  unfold enough. cbn [makeRequest makeRequest_resume].
  destruct (fetch E (length (w_fetched w))) as [e|r] eqn:Hfetch; [discriminate|].
  destruct (read_body r) as [data|e] eqn:Hbody; [|discriminate].
  destruct ((r_status r =? 401)%Z && negb (cfg_retry cfg)) eqn:Htest.
  - destruct (refreshToken 3 E inside _) as [newToken w2|e w2|w2|]; try discriminate.
    cbn [cfg_retry retryConfig negb].
    destruct (fetch E (length (w_fetched w2))) as [e|r2] eqn:Hfetch2; [discriminate|].
    destruct (read_body r2) as [data2|e] eqn:Hbody2; [|discriminate].
    rewrite andb_false_r.
    destruct (r_ok r2) eqn:Hok2; cbn [negb]; [|discriminate].
    intros H. injection H as <- <-. exists r2.
    cbn [hr_status call_fetch log_fetch w_fetched].
    rewrite List.length_app, Nat.add_1_r. cbn [Nat.pred]. auto.
  - destruct (r_ok r) eqn:Hok1; cbn [negb]; [|discriminate].
    intros H. injection H as <- <-. exists r.
    cbn [hr_status call_fetch log_fetch w_fetched].
    rewrite List.length_app, Nat.add_1_r. cbn [Nat.pred]. auto.
Qed.

(** X8: whatever [makeRequest] resolves with is the server's answer to the
    last request it issued: the status is in 2xx and the data is the body
    of that answer.  A 401 answer is never returned, with or without a
    retry. *)
Theorem makeRequest_resolves_with_2xx (E : env) (cfg : HttpRequestConfig) (w : world)
    (resp : HttpResponse) (w' : world) :
  makeRequest enough E None cfg w = Returned resp w' ->
  Facts.success (hr_status resp)
  /\ hr_status resp <> 401%Z
  /\ Spec.answers E (Nat.pred (length (w_fetched w'))) (hr_data resp)
  /\ length (w_fetched w) < length (w_fetched w').
Proof.
  intros H.
  destruct (makeRequest_returned_status E None cfg w resp w' H) as (r & _ & Hst & Hok).
  rewrite Hst. split; [exact Hok|]. split; [unfold Facts.success in Hok; lia|].
  split; [now apply (makeRequest_returned E None cfg w)|].
  destruct (makeRequest_ends 0 E None cfg w) as (new & (w2 & Hf & (Hfetched & _)) & Hshape & _).
  change (enough + 0) with enough in *. rewrite H in Hf. injection Hf as <-.
  rewrite Hfetched, List.length_app. destruct Hshape; simpl; lia.
Qed.

Lemma makeRequest_resolves_with_2xx_witness :
  exists resp w',
    makeRequest enough Spec.expired_session None Spec.profile_request Spec.signed_in
    = Returned resp w'
    /\ Facts.success (hr_status resp)
    /\ length (w_fetched w') = 3.
Proof.
  eexists _, _. split; [vm_compute; reflexivity|]. split.
  - eapply (makeRequest_resolves_with_2xx Spec.expired_session Spec.profile_request
              Spec.signed_in).
    vm_compute. reflexivity.
  - reflexivity.
Defined.

(** A method whose body is one request inside [try]/[catch]. *)
Lemma answer_reports (E : env) (ok_message fail_message : string)
    (cfg : HttpRequestConfig) (w : world) :
  Facts.honest E ->
  Facts.reports E w (Client.answer ok_message fail_message (makeRequest enough E None cfg w)).
Proof.
  intros Hhonest.
  destruct (makeRequest_ends 0 E None cfg w) as (new & (w2 & Hf & _) & _ & Hmore).
  change (enough + 0) with enough in *.
  pose proof (makeRequest_returned_status E None cfg w) as Hret.
  pose proof (makeRequest_threw E None cfg w) as Hthrew.
  destruct (makeRequest enough E None cfg w) as [resp w1|e w1|w1|];
    simpl in Hf; try discriminate Hf; cbn [Client.answer Facts.reports].
  - left. destruct (Hret resp w1 eq_refl) as (r & _ & Hst & Hok).
    unfold Client.succeeded. cbn [ar_error ar_data ar_status]. rewrite Hst. eauto.
  - right. destruct (Hthrew e w1 Hhonest eq_refl) as [Hm Hs].
    unfold Client.failed. cbn [ar_error ar_data ar_status]. auto.
  - apply Hmore. right. exact I.
Qed.

(** X9: the methods of the client never reject.  When the environment
    raises errors of its own only, each of [getTaskStatus],
    [getDetailedAuthStatus], [getServiceStatus], [getGoogleOAuthUrl] and
    [healthCheck] resolves with data, no error and a 2xx status, or with no
    data, an error text that is not empty and a status outside 2xx; so a
    caller that tests [response.error] misses no failure.  A call waits for
    ever only behind a 401 answer. *)
Theorem client_methods_report (E : env) (taskId : string) (w : world) :
  Facts.honest E ->
  Facts.reports E w (getTaskStatus enough E taskId w)
  /\ Facts.reports E w (Client.getDetailedAuthStatus enough E w)
  /\ Facts.reports E w (Client.getServiceStatus enough E w)
  /\ Facts.reports E w (Client.getGoogleOAuthUrl enough E w)
  /\ Facts.reports E w (Client.healthCheck enough E w).
Proof.
  intros Hhonest. split; [|repeat split; now apply answer_reports].
  unfold getTaskStatus.
  destruct (String.eqb taskId "" || String.eqb (trim taskId) "").
  { right. cbn. split; [reflexivity|]. split; [reflexivity|]. unfold Facts.success. lia. }
  exact (answer_reports E "Task status retrieved successfully" "Failed to get task status"
           _ w Hhonest).
Qed.

Lemma client_methods_report_witness :
  Facts.reports Spec.broken_server Spec.signed_in
    (Client.healthCheck enough Spec.broken_server Spec.signed_in).
Proof.
  apply (client_methods_report Spec.broken_server "task-1" Spec.signed_in).
  split.
  - intros k e H. discriminate H.
  - intros k r e H Hbody. injection H as <-. discriminate Hbody.
Defined.

(** The first answer decides when it is not a 401. *)
Lemma makeRequest_direct (E : env) (inside : option nat) (cfg : HttpRequestConfig)
    (w : world) (r : response) (data : json) :
  fetch E (length (w_fetched w)) = Responded r ->
  read_body r = Fulfilled data ->
  r_status r <> 401%Z ->
  makeRequest enough E inside cfg w
  = if r_ok r
    then Returned (mkHttpResponse data (r_status r) (r_statusText r) (r_headers r) cfg)
                  (call_fetch cfg (request_headers cfg w) w)
    else Threw (createHttpError (Some r) None) (call_fetch cfg (request_headers cfg w) w).
Proof.
  intros Hf Hbody H401. unfold enough. cbn [makeRequest makeRequest_resume].
  rewrite Hf, Hbody, (proj2 (Z.eqb_neq _ _) H401). cbn [andb].
  destruct (r_ok r); reflexivity.
Qed.

Lemma makeRequest_rejected (E : env) (inside : option nat) (cfg : HttpRequestConfig)
    (w : world) (e : error) :
  fetch E (length (w_fetched w)) = Rejected e ->
  makeRequest enough E inside cfg w
  = Threw (rethrow e) (call_fetch cfg (request_headers cfg w) w).
Proof.
  intros Hf. unfold enough. cbn [makeRequest makeRequest_resume]. now rewrite Hf.
Qed.

(** X10: [checkApiHealth] never rejects, and answers [true] only when the
    last request was answered with status 200.  When the first answer is
    not a 401, the result is [true] exactly for the status 200: another 2xx
    status, 204 for instance, is reported as unhealthy; a request that
    cannot be sent is reported as unhealthy.  The environment is taken to
    raise errors of its own only. *)
Theorem checkApiHealth_only_200 (E : env) (w : world) :
  Facts.honest E ->
  match Client.checkApiHealth enough E w with
  | Returned healthy w' =>
      (healthy = true ->
       exists r, fetch E (Nat.pred (length (w_fetched w'))) = Responded r
                 /\ r_status r = 200%Z)
      /\ (forall r data,
            fetch E (length (w_fetched w)) = Responded r ->
            read_body r = Fulfilled data ->
            r_status r <> 401%Z ->
            healthy = (r_status r =? 200)%Z)
      /\ (forall e, fetch E (length (w_fetched w)) = Rejected e -> healthy = false)
  | Threw _ _ | OutOfFuel => False
  | Pending _ => Spec.answered_401 E w
  end.
Proof.
  intros Hhonest. unfold Client.checkApiHealth, Client.healthCheck.
  set (cfg := Client.get_request (baseURL E +:+ "/health")).
  destruct (makeRequest_ends 0 E None cfg w) as (new & (w2 & Hf & _) & _ & Hmore).
  change (enough + 0) with enough in *.
  pose proof (makeRequest_returned_status E None cfg w) as Hret.
  pose proof (makeRequest_threw E None cfg w) as Hthrew.
  pose proof (makeRequest_direct E None cfg w) as Hdirect.
  pose proof (makeRequest_rejected E None cfg w) as Hrejected.
  destruct (makeRequest enough E None cfg w) as [resp w1|e w1|w1|] eqn:Ho;
    simpl in Hf; try discriminate Hf; cbn [Client.answer].
  - unfold Client.succeeded. cbn [ar_status]. split; [|split].
    + intros H200. apply Z.eqb_eq in H200.
      destruct (Hret resp w1 eq_refl) as (r & Hfetch & Hst & _).
      exists r. split; [exact Hfetch|congruence].
    + intros r data Hfetch Hbody H401. specialize (Hdirect r data Hfetch Hbody H401).
      destruct (r_ok r); [|discriminate Hdirect]. now injection Hdirect as -> _.
    + intros e Hfetch. specialize (Hrejected e Hfetch). discriminate Hrejected.
  - destruct (Hthrew e w1 Hhonest eq_refl) as [_ Hs].
    unfold Client.failed. cbn [ar_status].
    assert (Hnot : (ae_status (handleError e) =? 200)%Z = false).
    { apply Z.eqb_neq. intros H. apply Hs. rewrite H. unfold Facts.success. lia. }
    rewrite Hnot. split; [discriminate|]. split; [|reflexivity].
    intros r data Hfetch Hbody H401. specialize (Hdirect r data Hfetch Hbody H401).
    destruct (r_ok r) eqn:Hok; [discriminate Hdirect|].
    symmetry. apply Z.eqb_neq. intros H. unfold r_ok in Hok. rewrite H in Hok. discriminate Hok.
  - apply Hmore. right. exact I.
Qed.

Lemma checkApiHealth_only_200_witness :
  match Client.checkApiHealth enough Facts.no_content Spec.empty_page with
  | Returned healthy w' =>
      (healthy = true ->
       exists r, fetch Facts.no_content (Nat.pred (length (w_fetched w'))) = Responded r
                 /\ r_status r = 200%Z)
      /\ (forall r data,
            fetch Facts.no_content (length (w_fetched Spec.empty_page)) = Responded r ->
            read_body r = Fulfilled data ->
            r_status r <> 401%Z ->
            healthy = (r_status r =? 200)%Z)
      /\ (forall e, fetch Facts.no_content (length (w_fetched Spec.empty_page)) = Rejected e ->
                    healthy = false)
  | Threw _ _ | OutOfFuel => False
  | Pending _ => Spec.answered_401 Facts.no_content Spec.empty_page
  end.
Proof.
  apply (checkApiHealth_only_200 Facts.no_content Spec.empty_page).
  split.
  - intros k e H. discriminate H.
  - intros k r e H Hbody. injection H as <-. discriminate Hbody.
Defined.

(** The witness is a server that answers 204: it is reported unhealthy. *)
Lemma checkApiHealth_no_content :
  exists w', Client.checkApiHealth enough Facts.no_content Spec.empty_page = Returned false w'.
Proof.
  eexists. vm_compute. reflexivity.
Qed.

(** X11: [getAuthStatus] never rejects.  Without a stored token it answers
    [false] and issues no request; with a token that [isTokenExpired]
    reports as expired it asks the server nothing but, at most once, for a
    token refresh; otherwise it issues the [/auth/me] request, with the
    refresh and the retry a 401 answer brings. *)
Theorem getAuthStatus_answers (JSON_parse : string -> option json)
    (StringToNumber : string -> option Z) (E : env) (now : Z) (w : world) :
  let o := Client.getAuthStatus JSON_parse StringToNumber enough E now w in
  (truthy (getToken w) = false -> o = Returned false w)
  /\ (forall token, getToken w = Some token -> token <> "" ->
        isTokenExpired JSON_parse StringToNumber token now = true ->
        exists new, Spec.ends_with o w new /\ length new <= 1
                    /\ Forall (Spec.is_refresh E) new)
  /\ (forall token, getToken w = Some token -> token <> "" ->
        isTokenExpired JSON_parse StringToNumber token now = false ->
        exists new, Spec.ends_with o w new
                    /\ Spec.request_shape E (Client.get_request (baseURL E +:+ "/auth/me")) new)
  /\ match o with
     | Returned _ _ | Pending _ => True
     | Threw _ _ | OutOfFuel => False
     end.
Proof.
  intros o. subst o. unfold Client.getAuthStatus.
  set (cfg := Client.get_request (baseURL E +:+ "/auth/me")).
  assert (Hrefresh : exists new,
             Spec.ends_with (refreshToken enough E None w) w new /\ length new <= 1
             /\ Forall (Spec.is_refresh E) new).
  { destruct (refreshToken_ends 2 E None w) as [H|(r & Hr & H & _)].
    - exists []. split; [exact H|]. split; [simpl; lia|constructor].
    - exists [r]. split; [exact H|]. split; [simpl; lia|]. constructor; [exact Hr|constructor]. }
  destruct (makeRequest_ends 0 E None cfg w) as (sent & Hsent & Hshape & _).
  change (enough + 0) with enough in *.
  destruct (getToken w) as [token|] eqn:Htoken; cbn [truthy].
  2:{ split; [reflexivity|]. split; [discriminate|]. split; [discriminate|exact I]. }
  destruct (String.eqb_spec token "") as [->|Hne]; cbn [negb].
  { split; [reflexivity|]. split; [|split; [|exact I]]; intros t Ht; injection Ht as <-;
      intros H; now contradict H. }
  split; [discriminate|].
  destruct (isTokenExpired JSON_parse StringToNumber token now) eqn:Hexp.
  - destruct Hrefresh as (new & (w' & Hf & Hadv) & Hlen & Hall).
    split; [|split; [intros t Ht _ H; injection Ht as <-; congruence|]].
    + intros t _ _ _. exists new.
      destruct (refreshToken enough E None w); simpl in Hf; try discriminate Hf;
        (split; [exists w'; split; [exact Hf|exact Hadv]|auto]).
    + destruct (refreshToken enough E None w); simpl in Hf; try discriminate Hf; exact I.
  - destruct Hsent as (w' & Hf & Hadv).
    split; [intros t Ht _ H; injection Ht as <-; congruence|]. split.
    + intros t _ _ _. exists sent. split; [|exact Hshape].
      destruct (makeRequest enough E None cfg w) as [resp w1|e w1|w1|];
        simpl in Hf; try discriminate Hf; exists w'; (split; [|exact Hadv]); try exact Hf.
      destruct (get (Some (hr_data resp)) "authenticated") as [[[| [|] | | | |]|]|]; exact Hf.
    + destruct (makeRequest enough E None cfg w) as [resp w1|e w1|w1|];
        simpl in Hf; try discriminate Hf; try exact I.
      destruct (get (Some (hr_data resp)) "authenticated") as [[[| [|] | | | |]|]|]; exact I.
Qed.

Lemma getAuthStatus_answers_witness :
  Client.getAuthStatus Spec.parse_empty_object Spec.not_a_number enough Spec.broken_server 0
    Spec.empty_page
  = Returned false Spec.empty_page.
Proof.
  apply (getAuthStatus_answers Spec.parse_empty_object Spec.not_a_number Spec.broken_server 0
           Spec.empty_page).
  reflexivity.
Defined.

(** The getters read the window flag, [localStorage] and the cookies, and
    nothing else. *)
Lemma getToken_frame (a b : world) :
  w_window a = w_window b -> w_localStorage a = w_localStorage b ->
  w_cookies a = w_cookies b ->
  getToken a = getToken b /\ getRefreshToken a = getRefreshToken b.
Proof.
  intros Hw Hl Hc.
  unfold getToken, getRefreshToken, getCookieToken, document_cookie.
  now rewrite Hw, Hl, Hc.
Qed.

Lemma getToken_setRefreshToken (token : string) (w : world) :
  getToken (setRefreshToken token w) = getToken w.
Proof.
  unfold getToken, getCookieToken, setRefreshToken, document_cookie.
  destruct (w_window w) eqn:Hw; simpl; rewrite ?Hw; simpl; [|reflexivity].
  destruct (truthy _); [reflexivity|]. now apply lookup_insert_ne.
Qed.

Lemma getRefreshToken_setRefreshToken (token : string) (w : world) :
  w_window w = true -> getRefreshToken (setRefreshToken token w) = Some token.
Proof.
  intros Hw. unfold getRefreshToken, setRefreshToken. rewrite Hw. simpl. rewrite Hw. simpl.
  apply lookup_insert_eq.
Qed.

(** The continuation of the refresh request on an answer that carries new
    tokens. *)
Lemma refresh_finish_refreshed (f : nat) (E : env) (inside : option nat)
    (cfg : HttpRequestConfig) (hdrs : headers) (access refresh : string) (w : world) :
  refresh <> "" ->
  refresh_finish (makeRequest_resume (S f) E inside cfg hdrs
                    (Facts.refreshed access (Some refresh)) w)
  = Returned (Some (JString access))
             (refresh_finally (setRefreshToken refresh (setToken access w))).
Proof.
  intros Hne. cbn. destruct (String.eqb_spec refresh ""); [contradiction|reflexivity].
Qed.

(** X12: a refresh that the server answers with new tokens stores both,
    resolves with the access token and resets [isRefreshing] and
    [refreshPromise]; it has sent one request, a [POST] to [/auth/refresh]
    carrying the old refresh token, and [getToken] returns the new access
    token afterwards. *)
Theorem refreshToken_renews (E : env) (w : world) (access refresh : string) :
  w_window w = true -> Spec.tidy w ->
  w_isRefreshing w = false -> truthy (getRefreshToken w) = true ->
  Facts.plain access -> access <> "" -> refresh <> "" ->
  fetch E (length (w_fetched w)) = Facts.refreshed access (Some refresh) ->
  exists w',
    refreshToken enough E None w = Returned (Some (JString access)) w'
    /\ getToken w' = Some access
    /\ getRefreshToken w' = Some refresh
    /\ w_isRefreshing w' = false
    /\ w_refreshPromise w' = None
    /\ exists c, w_fetched w' = w_fetched w ++ [c]
                 /\ Spec.is_refresh E c
                 /\ fc_body c = Some (RefreshBody (or_else (getRefreshToken w) "")).
Proof.
  intros Hw Htidy Hr Ht Hplain Hne Hrne Hfetch.
  unfold enough. cbn [refreshToken]. rewrite Hr.
  unfold new_promise_id. cbv zeta. cbn [fst snd].
  match goal with |- context [truthy ?t] => change t with (getRefreshToken w) end.
  rewrite Ht. cbn [negb].
  match goal with |- context [refreshConfig E ?t] => set (cfg := refreshConfig E t) end.
  match goal with |- context [request_headers cfg ?x] => set (hdrs := request_headers cfg x) end.
  match goal with |- context [fetch E ?k] => change k with (length (w_fetched w)) end.
  rewrite Hfetch.
  match goal with |- context [makeRequest_resume _ _ _ _ _ _ ?x] => set (w4 := x) end.
  rewrite (refresh_finish_refreshed 3 E (Some (w_promises (set_isRefreshing true w))) cfg hdrs
             access refresh w4 Hrne).
  eexists. split; [reflexivity|].
  assert (Hw4 : w_window w4 = true) by exact Hw.
  assert (Htidy4 : Spec.tidy w4) by exact Htidy.
  destruct (plain_unbroken access Hplain) as [Hunbroken Hfree].
  assert (Hstored : getToken (setToken access w4) = Some access).
  { rewrite (getToken_setToken access w4 Hw4 Htidy4 Hunbroken).
    rewrite (split_free _ _ Hfree). cbn [nth].
    destruct (String.eqb_spec access ""); [contradiction|reflexivity]. }
  assert (Hw5 : w_window (setToken access w4) = true).
  { destruct (advances_setToken access w4) as (_ & W & _). congruence. }
  destruct (getToken_frame (refresh_finally (setRefreshToken refresh (setToken access w4)))
              (setRefreshToken refresh (setToken access w4)) eq_refl eq_refl eq_refl)
    as [Hget Hgetr].
  split; [now rewrite Hget, getToken_setRefreshToken|].
  split; [rewrite Hgetr; now apply getRefreshToken_setRefreshToken|].
  split; [reflexivity|]. split; [reflexivity|].
  exists (mkFetch (cfg_url cfg) (cfg_method cfg) hdrs (cfg_body cfg)).
  split; [|split; [split; reflexivity|reflexivity]].
  destruct (advances_setToken access w4) as (F1 & _).
  destruct (advances_setRefreshToken refresh (setToken access w4)) as (F2 & _).
  cbn [refresh_finally set_refreshPromise set_isRefreshing w_fetched].
  rewrite F2, F1, !List.app_nil_r. reflexivity.
Qed.

Lemma refreshToken_renews_witness :
  exists w',
    refreshToken enough Facts.renewing None Spec.signed_in = Returned (Some (JString "t2")) w'
    /\ getToken w' = Some "t2"
    /\ getRefreshToken w' = Some "r2"
    /\ w_isRefreshing w' = false
    /\ w_refreshPromise w' = None
    /\ exists c, w_fetched w' = w_fetched Spec.signed_in ++ [c]
                 /\ Spec.is_refresh Facts.renewing c
                 /\ fc_body c = Some (RefreshBody (or_else (getRefreshToken Spec.signed_in) "")).
Proof.
  apply (refreshToken_renews Facts.renewing Spec.signed_in "t2" "r2").
  - reflexivity.
  - repeat constructor; unfold Spec.free_of; simpl; intuition discriminate.
  - reflexivity.
  - reflexivity.
  - reflexivity.
  - discriminate.
  - discriminate.
  - reflexivity.
Defined.

(** ** The chat of lume-agent *)

Lemma generateSuggestions_three (service action : option string) :
  length (Agent.generateSuggestions service action) = 3.
Proof.
  unfold Agent.generateSuggestions.
  destruct (negb (truthy service)); [reflexivity|]. cbv zeta.
  repeat match goal with
         | |- context [String.eqb ?a ?b] => destruct (String.eqb a b); [reflexivity|]
         end.
  reflexivity.
Qed.

(** X13: a submission with a non-blank input, made while no other is under
    way, appends exactly two messages: the user's, with the trimmed input
    and the status sent, and one reply of the assistant; it empties the
    composer and ends with [isLoading] false.  The reply is never empty: it
    is delivered with three suggestions and [onError] is not called, or it
    has the status error, no suggestions and the text "Error: " followed by
    the message handed to [onError], which is never empty. *)
Theorem handleSubmit_outcome (userMsgId replyId now1 now2 : string)
    (res : Agent.PromptResult + Api.error) (c : Agent.chat) :
  trim (Agent.input c) <> "" -> Agent.isLoading c = false ->
  exists reply,
    fst (Agent.handleSubmit userMsgId replyId now1 now2 res c)
    = Agent.mkChat
        (Agent.messages c
         ++ [Agent.mkMessage userMsgId Agent.user (trim (Agent.input c)) now1
                             (Some Agent.sent) None None;
             reply])
        "" false
    /\ Agent.m_id reply = replyId
    /\ Agent.m_role reply = Agent.assistant
    /\ Agent.m_timestamp reply = now2
    /\ Agent.m_text reply <> ""
    /\ match snd (Agent.handleSubmit userMsgId replyId now1 now2 res c) with
       | None =>
           Agent.m_status reply = Some Agent.delivered
           /\ exists suggestions,
                Agent.m_suggestions reply = Some suggestions /\ length suggestions = 3
       | Some msg =>
           msg <> ""
           /\ Agent.m_status reply = Some Agent.error
           /\ Agent.m_text reply = "Error: " +:+ msg
           /\ Agent.m_suggestions reply = None
       end.
Proof.
  intros Hinput Hloading. unfold Agent.handleSubmit. rewrite Hloading.
  destruct (String.eqb_spec (trim (Agent.input c)) "") as [H|_]; [contradiction|].
  cbn [orb]. cbv zeta. unfold Agent.addMessage.
  assert (Hfail : forall msg : string,
            msg <> "" ->
            exists reply,
              Agent.mkChat
                ((Agent.messages c
                  ++ [Agent.mkMessage userMsgId Agent.user (trim (Agent.input c)) now1
                                      (Some Agent.sent) None None])
                 ++ [Agent.mkMessage replyId Agent.assistant ("Error: " +:+ msg) now2
                                     (Some Agent.error) None None])
                "" false
              = Agent.mkChat
                  (Agent.messages c
                   ++ [Agent.mkMessage userMsgId Agent.user (trim (Agent.input c)) now1
                                       (Some Agent.sent) None None;
                       reply])
                  "" false
              /\ Agent.m_id reply = replyId
              /\ Agent.m_role reply = Agent.assistant
              /\ Agent.m_timestamp reply = now2
              /\ Agent.m_text reply <> ""
              /\ (msg <> ""
                  /\ Agent.m_status reply = Some Agent.error
                  /\ Agent.m_text reply = "Error: " +:+ msg
                  /\ Agent.m_suggestions reply = None)).
  { intros msg Hmsg. eexists. split; [now rewrite <- List.app_assoc|].
    cbn [Agent.m_id Agent.m_role Agent.m_timestamp Agent.m_text Agent.m_status
         Agent.m_suggestions].
    repeat (split; try reflexivity); try exact Hmsg. discriminate. }
  assert (Hfallback : forall s, or_else s "Failed to send message" <> "")
    by (intros s; apply or_else_nonempty; discriminate).
  destruct res as [r|e]; cbn [fst snd]; [|now apply Hfail].
  destruct (Agent.res_data r) as [data|]; cbn [fst snd]; [|now apply Hfail].
  destruct (truthy (Agent.res_error r)); cbn [fst snd]; [now apply Hfail|].
  eexists. split; [now rewrite <- List.app_assoc|].
  cbn [Agent.m_id Agent.m_role Agent.m_timestamp Agent.m_text Agent.m_status
       Agent.m_suggestions].
  split; [reflexivity|]. split; [reflexivity|]. split; [reflexivity|]. split.
  - apply or_else_nonempty, or_else_nonempty. discriminate.
  - split; [reflexivity|]. eexists. split; [reflexivity|apply generateSuggestions_three].
Qed.

Lemma handleSubmit_outcome_witness :
  exists reply,
    fst (Agent.handleSubmit "u1" "a1" "10:00" "10:01" (inr (Api.Error ""))
           (Agent.mkChat [] "  Email John " false))
    = Agent.mkChat
        ([] ++ [Agent.mkMessage "u1" Agent.user (trim "  Email John ") "10:00"
                                (Some Agent.sent) None None;
                reply])
        "" false
    /\ Agent.m_id reply = "a1"
    /\ Agent.m_role reply = Agent.assistant
    /\ Agent.m_timestamp reply = "10:01"
    /\ Agent.m_text reply <> ""
    /\ match snd (Agent.handleSubmit "u1" "a1" "10:00" "10:01" (inr (Api.Error ""))
                    (Agent.mkChat [] "  Email John " false)) with
       | None =>
           Agent.m_status reply = Some Agent.delivered
           /\ exists suggestions,
                Agent.m_suggestions reply = Some suggestions /\ length suggestions = 3
       | Some msg =>
           msg <> ""
           /\ Agent.m_status reply = Some Agent.error
           /\ Agent.m_text reply = "Error: " +:+ msg
           /\ Agent.m_suggestions reply = None
       end.
Proof.
  apply (handleSubmit_outcome "u1" "a1" "10:00" "10:01" (inr (Api.Error ""))
           (Agent.mkChat [] "  Email John " false)).
  - vm_compute. discriminate.
  - reflexivity.
Defined.

(** [Array.from(new Set(xs))] has the members of [xs], each once. *)
Lemma set_from_In (xs : list string) (x : string) : In x (Agent.set_from xs) <-> In x xs.
Proof.
  induction xs as [|y rest IH]; cbn [Agent.set_from In]; [tauto|].
  rewrite List.filter_In, IH, negb_true_iff, String.eqb_neq.
  destruct (String.eqb_spec y x) as [->|Hy]; [tauto|]. intuition congruence.
Qed.

Lemma set_from_NoDup (xs : list string) : List.NoDup (Agent.set_from xs).
Proof.
  induction xs as [|y rest IH]; cbn [Agent.set_from]; constructor.
  - intros H. apply List.filter_In in H as [_ H]. rewrite String.eqb_refl in H. discriminate H.
  - now apply List.NoDup_filter.
Qed.

Lemma toggle_flips (emoji : string) (reactions : list string) :
  List.NoDup reactions ->
  List.NoDup (Agent.toggle emoji reactions)
  /\ forall e, In e (Agent.toggle emoji reactions)
               <-> (if String.eqb e emoji then ~ In emoji reactions else In e reactions).
Proof.
  intros Hnd. unfold Agent.toggle.
  destruct (existsb (String.eqb emoji) reactions) eqn:Hex.
  - apply List.existsb_exists in Hex as (x & Hx & Heq). apply String.eqb_eq in Heq. subst x.
    split; [now apply List.NoDup_filter|].
    intros e. rewrite List.filter_In, negb_true_iff.
    destruct (String.eqb e emoji) eqn:He; [|tauto].
    split; [intros [_ H]; discriminate H|tauto].
  - assert (Hnot : ~ In emoji reactions).
    { intros Hin. apply Bool.not_true_iff_false in Hex. apply Hex.
      apply List.existsb_exists. exists emoji. split; [exact Hin|apply String.eqb_refl]. }
    split.
    + apply List.NoDup_app; [exact Hnd|repeat constructor; intros []|].
      intros x Hx [<-|[]]. contradiction.
    + intros e. rewrite List.in_app_iff. simpl.
      destruct (String.eqb_spec e emoji) as [->|He]; [tauto|].
      intuition congruence.
Qed.

(** X14: [toggleReaction] leaves the messages with another id as they are.
    In a message with the given id it changes the reactions only: the
    emoji is among them afterwards exactly when it was not before, every
    other reaction stays or stays away, and no reaction occurs twice. *)
Theorem toggleReaction_flips (id emoji : string) (prev : list Agent.Message) :
  Forall2
    (fun m m' =>
       if String.eqb (Agent.m_id m) id then
         exists reactions,
           m' = Agent.mkMessage (Agent.m_id m) (Agent.m_role m) (Agent.m_text m)
                                (Agent.m_timestamp m) (Agent.m_status m)
                                (Agent.m_suggestions m) (Some reactions)
           /\ List.NoDup reactions
           /\ forall e, In e reactions
                        <-> (if String.eqb e emoji
                             then ~ In emoji (default [] (Agent.m_reactions m))
                             else In e (default [] (Agent.m_reactions m)))
       else m' = m)
    prev (Agent.toggleReaction id emoji prev).
Proof.
  unfold Agent.toggleReaction. induction prev as [|m rest IH]; simpl; constructor; [|exact IH].
  destruct (String.eqb (Agent.m_id m) id); cbn [negb]; [|reflexivity].
  destruct (toggle_flips emoji (Agent.set_from (default [] (Agent.m_reactions m)))
              (set_from_NoDup _)) as [Hnd Hin].
  eexists. split; [reflexivity|]. split; [exact Hnd|].
  intros e. rewrite Hin. destruct (String.eqb e emoji); rewrite set_from_In; reflexivity.
Qed.

(** X15: deleting is idempotent, deleting an id that no message has changes
    nothing, and deleting a message that was just added under a fresh id
    gives the list back. *)
Theorem removeMessage_undoes_addMessage (msg : Agent.Message) (prev : list Agent.Message) :
  Agent.removeMessage (Agent.m_id msg) (Agent.removeMessage (Agent.m_id msg) prev)
  = Agent.removeMessage (Agent.m_id msg) prev
  /\ (~ In (Agent.m_id msg) (map Agent.m_id prev) ->
      Agent.removeMessage (Agent.m_id msg) prev = prev
      /\ Agent.removeMessage (Agent.m_id msg) (Agent.addMessage msg prev) = prev).
Proof.
  unfold Agent.removeMessage, Agent.addMessage. split.
  - induction prev as [|m rest IH]; simpl; [reflexivity|].
    destruct (String.eqb (Agent.m_id m) (Agent.m_id msg)) eqn:Hm; simpl; [exact IH|].
    now rewrite Hm, IH.
  - intros Hfresh.
    assert (Hkeep : List.filter (fun m => negb (String.eqb (Agent.m_id m) (Agent.m_id msg))) prev
                    = prev).
    { induction prev as [|m rest IH]; simpl; [reflexivity|].
      destruct (String.eqb_spec (Agent.m_id m) (Agent.m_id msg)) as [Heq|_]; simpl.
      - exfalso. apply Hfresh. now left.
      - rewrite IH; [reflexivity|]. intros Hin. apply Hfresh. now right. }
    split; [exact Hkeep|].
    rewrite List.filter_app, Hkeep. simpl. rewrite String.eqb_refl. simpl.
    apply List.app_nil_r.
Qed.

Lemma removeMessage_undoes_addMessage_witness :
  Agent.removeMessage (Agent.m_id Spec.answer) [Spec.question] = [Spec.question]
  /\ Agent.removeMessage (Agent.m_id Spec.answer) (Agent.addMessage Spec.answer [Spec.question])
     = [Spec.question].
Proof.
  apply (proj2 (removeMessage_undoes_addMessage Spec.answer [Spec.question])).
  simpl. intros [H|[]]. discriminate H.
Defined.

(** What a submission adds, whatever the backend answers. *)
Lemma handleSubmit_sends (userMsgId replyId now1 now2 : string)
    (res : Agent.PromptResult + Api.error) (c : Agent.chat) :
  trim (Agent.input c) <> "" -> Agent.isLoading c = false ->
  exists reply,
    fst (Agent.handleSubmit userMsgId replyId now1 now2 res c)
    = Agent.mkChat
        (Agent.messages c
         ++ [Agent.mkMessage userMsgId Agent.user (trim (Agent.input c)) now1
                             (Some Agent.sent) None None;
             reply])
        "" false.
Proof.
  intros Hinput Hloading. unfold Agent.handleSubmit, Agent.addMessage. rewrite Hloading.
  destruct (String.eqb_spec (trim (Agent.input c)) "") as [H|_]; [contradiction|].
  cbn [orb]. cbv zeta.
  destruct res as [r|e]; [destruct (Agent.res_data r); [destruct (truthy _)|]|];
    cbn [fst]; rewrite <- List.app_assoc; eexists; reflexivity.
Qed.

(** The suggestions are texts a submission sends as they are. *)
Lemma generateSuggestions_trimmed (service action : option string) (s : string) :
  In s (Agent.generateSuggestions service action) -> trim s = s /\ s <> "".
Proof.
  unfold Agent.generateSuggestions.
  destruct (negb (truthy service)); cbv zeta;
    repeat match goal with
           | |- context [String.eqb ?a ?b] => destruct (String.eqb a b)
           end;
    intros [<-|[<-|[<-|[]]]]; (split; [vm_compute; reflexivity|discriminate]).
Qed.

(** X16: the reply to a successful submission is the last message of the
    list and offers as quick replies exactly the suggestions of
    [generateSuggestions] for the intent the backend reported.  A quick
    reply that is clicked and submitted is sent as it stands: the next user
    message has the text of the suggestion. *)
Theorem quick_reply_round_trip (userMsgId replyId now1 now2 : string)
    (nextMsgId nextReplyId now3 now4 : string)
    (r : Agent.PromptResult) (data : Agent.PromptResponse)
    (next : Agent.PromptResult + Api.error) (c : Agent.chat) :
  trim (Agent.input c) <> "" -> Agent.isLoading c = false ->
  Agent.res_data r = Some data -> truthy (Agent.res_error r) = false ->
  let c1 := fst (Agent.handleSubmit userMsgId replyId now1 now2 (inl r) c) in
  exists reply,
    last (Agent.messages c1) = Some reply
    /\ Bubble.quick_replies reply
       = Agent.generateSuggestions (Agent.pr_intent data ≫= Agent.i_service)
                                   (Agent.pr_intent data ≫= Agent.i_action)
    /\ forall s, In s (Bubble.quick_replies reply) ->
         exists reply2,
           Agent.messages
             (fst (Agent.handleSubmit nextMsgId nextReplyId now3 now4 next
                     (Bubble.handleQuickReply s c1)))
           = Agent.messages c1
             ++ [Agent.mkMessage nextMsgId Agent.user s now3 (Some Agent.sent) None None;
                 reply2].
Proof.
  intros Hinput Hloading Hdata Herror c1.
  assert (Hc1 : c1 = Agent.mkChat
                  (Agent.messages c
                   ++ [Agent.mkMessage userMsgId Agent.user (trim (Agent.input c)) now1
                                       (Some Agent.sent) None None;
                       Agent.mkMessage replyId Agent.assistant
                         (or_else (Agent.pr_result_message data)
                                  (or_else (Agent.pr_message data) "Done."))
                         now2 (Some Agent.delivered)
                         (Some (Agent.generateSuggestions
                                  (Agent.pr_intent data ≫= Agent.i_service)
                                  (Agent.pr_intent data ≫= Agent.i_action)))
                         None])
                  "" false).
  { subst c1. unfold Agent.handleSubmit, Agent.addMessage. rewrite Hloading.
    destruct (String.eqb_spec (trim (Agent.input c)) "") as [H|_]; [contradiction|].
    cbn [orb]. cbv zeta. rewrite Hdata, Herror. cbn [fst].
    now rewrite <- List.app_assoc. }
  eexists. split; [rewrite Hc1; cbn [Agent.messages]; rewrite last_app; reflexivity|].
  assert (Hquick : forall l : list string,
            length l = 3 ->
            Bubble.quick_replies
              (Agent.mkMessage replyId Agent.assistant
                 (or_else (Agent.pr_result_message data)
                          (or_else (Agent.pr_message data) "Done."))
                 now2 (Some Agent.delivered) (Some l) None) = l).
  { intros [|x l] Hl; [discriminate Hl|reflexivity]. }
  rewrite (Hquick _ (generateSuggestions_three _ _)). split; [reflexivity|].
  intros s Hs. apply generateSuggestions_trimmed in Hs as [Htrim Hne].
  destruct (handleSubmit_sends nextMsgId nextReplyId now3 now4 next
              (Bubble.handleQuickReply s c1)) as (reply2 & Hsent).
  - cbn [Bubble.handleQuickReply Agent.input]. now rewrite Htrim.
  - rewrite Hc1. reflexivity.
  - exists reply2. rewrite Hsent. cbn [Agent.messages Bubble.handleQuickReply Agent.input].
    now rewrite Htrim.
Qed.

(** The reply the test suite of the component expects: a Gmail intent
    offers "Draft a reply". *)
Lemma quick_reply_round_trip_witness :
  exists reply,
    last (Agent.messages
            (fst (Agent.handleSubmit "u1" "a1" "10:00" "10:01"
                    (inl (Agent.mkPromptResult None
                            (Some (Agent.mkPromptResponse (Some "OK")
                                     (Some (Agent.mkIntent (Some "gmail") (Some "send_email")))
                                     (Some "Sent")))))
                    (Agent.mkChat [] "Email John" false))))
    = Some reply
    /\ In "Draft a reply" (Bubble.quick_replies reply)
    /\ Agent.m_text reply = "Sent".
Proof.
  destruct (quick_reply_round_trip "u1" "a1" "10:00" "10:01" "u2" "a2" "10:02" "10:03"
              (Agent.mkPromptResult None
                 (Some (Agent.mkPromptResponse (Some "OK")
                          (Some (Agent.mkIntent (Some "gmail") (Some "send_email")))
                          (Some "Sent"))))
              (Agent.mkPromptResponse (Some "OK")
                 (Some (Agent.mkIntent (Some "gmail") (Some "send_email")))
                 (Some "Sent"))
              (inr (Api.Error "offline"))
              (Agent.mkChat [] "Email John" false))
    as (reply & Hlast & Hquick & _).
  - vm_compute. discriminate.
  - reflexivity.
  - reflexivity.
  - reflexivity.
  - exists reply. split; [exact Hlast|]. rewrite Hquick.
    split; [vm_compute; tauto|].
    vm_compute in Hlast. injection Hlast as <-. reflexivity.
Defined.

(** ** The permission modal *)

Lemma flag_set_flag (k : string) (v : bool) (s : Frontend.selection) :
  Frontend.flag (Frontend.set_flag k v s) k = v.
Proof.
  unfold Frontend.flag. induction s as [|[k' v'] rest IH]; simpl.
  - now rewrite String.eqb_refl.
  - destruct (String.eqb_spec k k') as [->|Hk]; simpl.
    + now rewrite String.eqb_refl.
    + destruct (String.eqb_spec k' k); [congruence|exact IH].
Qed.

Lemma flag_set_flag_other (k k' : string) (v : bool) (s : Frontend.selection) :
  k <> k' -> Frontend.flag (Frontend.set_flag k' v s) k = Frontend.flag s k.
Proof.
  intros Hk. unfold Frontend.flag. induction s as [|[k0 v0] rest IH]; simpl.
  - destruct (String.eqb_spec k' k); [congruence|reflexivity].
  - destruct (String.eqb_spec k' k0) as [->|H0]; simpl.
    + destruct (String.eqb_spec k0 k); [congruence|reflexivity].
    + destruct (String.eqb k0 k); [reflexivity|exact IH].
Qed.

Lemma flag_selected (s : Frontend.selection) (k : string) :
  Frontend.flag s k = true -> existsb snd s = true.
Proof.
  unfold Frontend.flag. induction s as [|[k' v'] rest IH]; simpl; [discriminate|].
  destruct (String.eqb k' k); simpl.
  - intros ->. reflexivity.
  - intros H. rewrite (IH H). apply orb_true_r.
Qed.

Lemma initial_selection_flag (requiredPermissions : list string) (p : string) :
  In p requiredPermissions ->
  Frontend.flag (Frontend.initial_selection requiredPermissions) p = true.
Proof.
  unfold Frontend.initial_selection.
  assert (Hgen : forall acc,
            In p requiredPermissions \/ Frontend.flag acc p = true ->
            Frontend.flag
              (fold_left (fun acc perm => Frontend.set_flag perm true acc) requiredPermissions acc)
              p = true).
  { induction requiredPermissions as [|q rest IH]; intros acc [Hin|Hacc]; simpl.
    - destruct Hin.
    - exact Hacc.
    - apply IH. destruct Hin as [->|Hin]; [right; apply flag_set_flag|now left].
    - apply IH. right. destruct (String.eqb_spec p q) as [->|Hne].
      + apply flag_set_flag.
      + now rewrite flag_set_flag_other. }
  intros Hin. apply Hgen. now left.
Qed.

Lemma known_permission (p : string) :
  In p ["email"; "calendar"; "tasks"; "keep"] ->
  Frontend.service_info_of p <> Frontend.Undefined.
Proof.
  intros [<-|[<-|[<-|[<-|[]]]]]; discriminate.
Qed.

(** X17: the modal grants what it does not show.  A required permission
    that [SERVICE_INFO] does not know gets no card, yet it is selected from
    the start; whatever cards the user clicks, it is still selected in the
    object handed to [onGrant], and the Grant button is never disabled. *)
Theorem hidden_permission_stays_granted (requiredPermissions clicks : list string)
    (p : string) :
  In p requiredPermissions ->
  Frontend.service_info_of p = Frontend.Undefined ->
  Forall (fun k => In k (Frontend.offered requiredPermissions)) clicks ->
  let selected :=
    fold_left (fun s k => Frontend.handleToggle k s) clicks
              (Frontend.initial_selection requiredPermissions) in
  ~ In p (Frontend.offered requiredPermissions)
  /\ Frontend.flag (Page.handleGrant selected) p = true
  /\ Page.grant_disabled selected = false.
Proof.
  intros Hin Hunknown Hclicks selected.
  assert (Hhidden : ~ In p (Frontend.offered requiredPermissions)).
  { intros Hoff. apply offered_keys in Hoff as [_ Hknown].
    now apply known_permission in Hknown. }
  assert (Hflag : Frontend.flag selected p = true).
  { subst selected.
    pose proof (initial_selection_flag requiredPermissions p Hin) as Hstart.
    revert Hstart. generalize (Frontend.initial_selection requiredPermissions).
    induction Hclicks as [|k rest Hk _ IH]; intros s Hs; simpl; [exact Hs|].
    apply IH. unfold Frontend.handleToggle. rewrite flag_set_flag_other; [exact Hs|].
    intros ->. contradiction. }
  split; [exact Hhidden|]. split; [exact Hflag|].
  unfold Page.grant_disabled. now rewrite (flag_selected selected p Hflag).
Qed.

Lemma hidden_permission_stays_granted_witness :
  ~ In "gmail" (Frontend.offered ["gmail"; "calendar"])
  /\ Frontend.flag
       (Page.handleGrant
          (fold_left (fun s k => Frontend.handleToggle k s) ["calendar"]
                     (Frontend.initial_selection ["gmail"; "calendar"])))
       "gmail" = true
  /\ Page.grant_disabled
       (fold_left (fun s k => Frontend.handleToggle k s) ["calendar"]
                  (Frontend.initial_selection ["gmail"; "calendar"])) = false.
Proof.
  apply (hidden_permission_stays_granted ["gmail"; "calendar"] ["calendar"] "gmail").
  - simpl. tauto.
  - reflexivity.
  - repeat constructor.
Defined.

(** X18: a click on a card flips the flag of that permission and of no
    other, and a second click restores every flag. *)
Theorem handleToggle_flips (permission : string) (prev : Frontend.selection) :
  Frontend.flag (Frontend.handleToggle permission prev) permission
  = negb (Frontend.flag prev permission)
  /\ (forall other, other <> permission ->
        Frontend.flag (Frontend.handleToggle permission prev) other = Frontend.flag prev other)
  /\ (forall k,
        Frontend.flag (Frontend.handleToggle permission (Frontend.handleToggle permission prev)) k
        = Frontend.flag prev k).
Proof.
  unfold Frontend.handleToggle. split; [apply flag_set_flag|]. split.
  - intros other Hne. now apply flag_set_flag_other.
  - intros k. destruct (String.eqb_spec k permission) as [->|Hne].
    + rewrite !flag_set_flag. apply negb_involutive.
    + now rewrite !flag_set_flag_other.
Qed.

Lemma handleToggle_flips_witness :
  Frontend.flag (Frontend.handleToggle "email" (Frontend.initial_selection ["email"; "keep"]))
                "keep"
  = Frontend.flag (Frontend.initial_selection ["email"; "keep"]) "keep".
Proof.
  apply (proj1 (proj2 (handleToggle_flips "email" (Frontend.initial_selection ["email"; "keep"])))).
  discriminate.
Defined.

(** ** The sidebar *)

(** X19: [formatDate] by the age of the date: less than a day is "Today",
    from one day to less than two "Yesterday", from two days to less than
    seven "<n> days ago" with the whole number of days, from seven days on
    the locale date.  A date in the future is an age of a negative number
    of days: it is shown as "<n> days ago" with [n] negative. *)
Theorem formatDate_ranges (toLocaleDateString : Z -> string) (date now : Z) :
  let day := 86400000%Z in
  let shown := Page.formatDate toLocaleDateString date now in
  ((0 <= now - date < day)%Z -> shown = "Today")
  /\ ((day <= now - date < 2 * day)%Z -> shown = "Yesterday")
  /\ (forall n, (2 <= n < 7)%Z -> (n * day <= now - date < (n + 1) * day)%Z ->
        shown = number_to_string n +:+ " days ago")
  /\ ((7 * day <= now - date)%Z -> shown = toLocaleDateString date)
  /\ ((now < date)%Z ->
        exists n, (n < 0)%Z /\ shown = number_to_string n +:+ " days ago").
Proof.
  intros day shown. subst shown. unfold Page.formatDate.
  change (1000 * 60 * 60 * 24)%Z with day.
  assert (Hday : (0 < day)%Z) by (subst day; lia).
  assert (Hdiv : forall n, (n * day <= now - date < (n + 1) * day)%Z ->
                           ((now - date) / day = n)%Z).
  { intros n H. symmetry. apply (Z.div_unique_pos (now - date) day n (now - date - n * day)); lia. }
  split; [|split; [|split; [|split]]].
  - intros H. rewrite (Hdiv 0%Z) by lia. reflexivity.
  - intros H. rewrite (Hdiv 1%Z) by lia. reflexivity.
  - intros n Hn H. rewrite (Hdiv n H).
    destruct (Z.eqb_spec n 0); [lia|]. destruct (Z.eqb_spec n 1); [lia|].
    destruct (Z.ltb_spec n 7); [reflexivity|lia].
  - intros H.
    assert (Hq : (7 <= (now - date) / day)%Z) by (apply Z.div_le_lower_bound; lia).
    destruct (Z.eqb_spec ((now - date) / day) 0); [lia|].
    destruct (Z.eqb_spec ((now - date) / day) 1); [lia|].
    destruct (Z.ltb_spec ((now - date) / day) 7); [lia|reflexivity].
  - intros H. exists ((now - date) / day)%Z.
    assert (Hq : ((now - date) / day < 0)%Z) by (apply Z.div_lt_upper_bound; lia).
    split; [exact Hq|].
    destruct (Z.eqb_spec ((now - date) / day) 0); [lia|].
    destruct (Z.eqb_spec ((now - date) / day) 1); [lia|].
    destruct (Z.ltb_spec ((now - date) / day) 7); [reflexivity|lia].
Qed.

Lemma formatDate_ranges_witness :
  exists n, (n < 0)%Z
            /\ Page.formatDate (fun _ => "1/1/2025") 1735693200000 1735689600000
               = number_to_string n +:+ " days ago".
Proof.
  apply (proj2 (proj2 (proj2 (proj2
           (formatDate_ranges (fun _ => "1/1/2025") 1735693200000 1735689600000))))).
  reflexivity.
Defined.

(** An hour into the future reads "-1 days ago". *)
Lemma formatDate_future_example :
  Page.formatDate (fun _ => "1/1/2025") 1735693200000 1735689600000 = "-1 days ago".
Proof. vm_compute. reflexivity. Qed.

(** ** The landing page after its checks *)





(** ** A refresh that is itself refused *)

(** A refresh whose own request is answered 401 waits for itself: the
    request is not marked as retried, so its 401 handler awaits the refresh
    promise from inside that promise. *)
Lemma refreshToken_refused (E : env) (w : world) :
  w_isRefreshing w = false -> truthy (getRefreshToken w) = true ->
  Spec.answered_401 E w ->
  exists w' refresh,
    refreshToken 3 E None w = Pending w'
    /\ w_fetched w' = w_fetched w ++ [refresh]
    /\ Spec.is_refresh E refresh
    /\ w_isRefreshing w' = true
    /\ w_window w' = w_window w
    /\ w_localStorage w' = w_localStorage w
    /\ w_cookies w' = w_cookies w
    /\ w_location w' = w_location w.
Proof.
  intros Hr Ht (r & data & Hfetch & Hst & Hbody).
  cbn [refreshToken]. rewrite Hr.
  unfold new_promise_id. cbv zeta. cbn [fst snd].
  match goal with |- context [truthy ?t] => change t with (getRefreshToken w) end.
  rewrite Ht. cbn [negb].
  match goal with |- context [refreshConfig E ?t] => set (cfg := refreshConfig E t) end.
  match goal with |- context [request_headers cfg ?x] => set (hdrs := request_headers cfg x) end.
  match goal with |- context [fetch E ?k] => change k with (length (w_fetched w)) end.
  rewrite Hfetch.
  match goal with |- context [makeRequest_resume _ _ _ _ _ _ ?x] => set (w4 := x) end.
  cbn [makeRequest_resume]. rewrite Hbody, Hst. cbn [Z.eqb Pos.eqb andb negb cfg_retry cfg refreshConfig].
  rewrite (refreshToken_inside 0 E (w_promises (set_isRefreshing true w)) cfg hdrs w4)
    by reflexivity.
  cbn [refresh_finish].
  exists w4, (mkFetch (cfg_url cfg) (cfg_method cfg) hdrs (cfg_body cfg)).
  repeat split.
Qed.

(** X21: a request that is answered 401 on a page whose token refresh is
    answered 401 as well never settles: it has issued the request and the
    refresh, and then waits for ever.  No error is thrown, the tokens stay
    in store, the page is not sent to the login screen, and [isRefreshing]
    stays set. *)
Theorem unauthorized_refresh_hangs (E : env) (cfg : HttpRequestConfig) (w : world) :
  w_isRefreshing w = false -> truthy (getRefreshToken w) = true ->
  cfg_retry cfg = false ->
  Spec.answered_401 E w ->
  (exists r data, fetch E (S (length (w_fetched w))) = Responded r
                  /\ r_status r = 401%Z /\ read_body r = Fulfilled data) ->
  exists w' own refresh,
    makeRequest enough E None cfg w = Pending w'
    /\ w_fetched w' = w_fetched w ++ [own; refresh]
    /\ Spec.is_request_of cfg own
    /\ Spec.is_refresh E refresh
    /\ w_isRefreshing w' = true
    /\ w_location w' = w_location w
    /\ getToken w' = getToken w
    /\ getRefreshToken w' = getRefreshToken w.
Proof.
  intros Hr Ht Hretry (r & data & Hfetch & Hst & Hbody) Hnext.
  unfold enough. cbn [makeRequest makeRequest_resume].
  rewrite Hfetch, Hbody, Hst, Hretry. cbn [Z.eqb Pos.eqb andb negb].
  set (hdrs := request_headers cfg w).
  set (w1 := call_fetch cfg hdrs w).
  destruct (refreshToken_refused E w1) as (w' & refresh & Hpending & Hsent & Hrefresh & Hflag
                                           & Hwin & Hstore & Hjar & Hloc).
  - exact Hr.
  - exact Ht.
  - destruct Hnext as (r2 & data2 & Hf2 & Hs2 & Hb2). exists r2, data2.
    split; [|auto]. subst w1. cbn [call_fetch log_fetch w_fetched].
    now rewrite List.length_app, Nat.add_1_r.
  - rewrite Hpending.
    exists w', (mkFetch (cfg_url cfg) (cfg_method cfg) hdrs (cfg_body cfg)), refresh.
    split; [reflexivity|]. split.
    { rewrite Hsent. subst w1. cbn [call_fetch log_fetch w_fetched].
      now rewrite <- List.app_assoc. }
    split; [apply is_request_of_own|]. split; [exact Hrefresh|]. split; [exact Hflag|].
    split; [exact Hloc|].
    now apply (getToken_frame w' w).
Qed.

Lemma unauthorized_refresh_hangs_witness :
  exists w' own refresh,
    makeRequest enough Facts.always_401 None Spec.profile_request Spec.signed_in = Pending w'
    /\ w_fetched w' = w_fetched Spec.signed_in ++ [own; refresh]
    /\ Spec.is_request_of Spec.profile_request own
    /\ Spec.is_refresh Facts.always_401 refresh
    /\ w_isRefreshing w' = true
    /\ w_location w' = w_location Spec.signed_in
    /\ getToken w' = getToken Spec.signed_in
    /\ getRefreshToken w' = getRefreshToken Spec.signed_in.
Proof.
  apply (unauthorized_refresh_hangs Facts.always_401 Spec.profile_request Spec.signed_in).
  - reflexivity.
  - reflexivity.
  - reflexivity.
  - eexists _, _. split; [reflexivity|]. split; reflexivity.
  - eexists _, _. split; [reflexivity|]. split; reflexivity.
Defined.

(** ** The progress callback and the waits of the poller *)

Lemma slept_app (a b : list poll_event) : Facts.slept (a ++ b) = Facts.slept a + Facts.slept b.
Proof.
  unfold Facts.slept. now rewrite List.filter_app, List.length_app.
Qed.

Lemma progressed_app (a b : list poll_event) :
  Facts.progressed (a ++ b) = Facts.progressed a + Facts.progressed b.
Proof.
  unfold Facts.progressed. now rewrite List.filter_app, List.length_app.
Qed.

(** The events of the turns in which the server reports the task under
    way: one wait of [ms] per turn, and one call of the callback when there
    is one. *)
Lemma poll_trace_under_way (E : env) (taskId : string) (ms : Z) (callback : bool) :
  Spec.blank taskId = false ->
  forall (j n : nat) (w : world),
    (forall i, i < j ->
       exists data, Spec.answers E (length (w_fetched w) + i) data /\ Spec.under_way data) ->
    exists before wj,
      snd (poll_loop enough E taskId ms callback (j + n) w)
      = before ++ snd (poll_loop enough E taskId ms callback n wj)
      /\ length (w_fetched wj) = length (w_fetched w) + j
      /\ Facts.slept before = j
      /\ Facts.progressed before = (if callback then j else 0)
      /\ Forall (fun ev => match ev with Slept t => t = ms | _ => True end) before.
Proof.
  intros Hb j n. induction j as [|j IH]; intros w Hall.
  { exists [], w. split; [reflexivity|]. split; [lia|]. split; [reflexivity|].
    split; [now destruct callback|constructor]. }
  destruct (Hall 0) as (data & Hans & st & Hst & Hterm); [lia|].
  rewrite Nat.add_0_r in Hans.
  destruct (getTaskStatus_answered E taskId w data Hb Hans)
    as (c & w1 & status & Hget & (Hfetched & _) & _).
  assert (Hlen : length (w_fetched w1) = S (length (w_fetched w))).
  { rewrite Hfetched, List.length_app. simpl. lia. }
  destruct (IH w1) as (before & wj & Htrace & Hlenj & Hslept & Hprog & Hms).
  { intros i Hi. destruct (Hall (S i)) as (d & Hd & Hu); [lia|].
    exists d. split; [|exact Hu].
    now replace (length (w_fetched w1) + i) with (length (w_fetched w) + S i) by lia. }
  set (turn := [Asked; Answered (mkApiResponse (Some data) status None
                                   (Some "Task status retrieved successfully"))]
               ++ (if callback then [Progress (Some data)] else []) ++ [Slept ms]).
  exists (turn ++ before), wj. split; [|split; [lia|split; [|split]]].
  - cbn [Nat.add poll_loop]. rewrite Hget. cbn [ar_error ar_data truthy]. rewrite Hst, Hterm.
    destruct (poll_loop enough E taskId ms callback (j + n) w1) as [o rest].
    cbn [snd] in *. rewrite Htrace. subst turn. now rewrite <- !List.app_assoc.
  - rewrite slept_app, Hslept. subst turn. now destruct callback.
  - rewrite progressed_app, Hprog. subst turn. now destruct callback.
  - apply Forall_app. split; [|exact Hms]. subst turn.
    destruct callback; repeat constructor.
Qed.

(** X22: the progress callback and the waits of [pollTaskStatus], for a
    task id that is not blank.  Every wait lasts [interval] (2000 by
    default).  When the server reports the task under way in each of the
    [n] turns, the poller has waited [n] times when it throws the timeout
    error: it waits once more after the last answer.  When it reports the
    task under way [j < n] times and then completed or failed, the poller
    has waited [j] times and, given a callback, has called it [j + 1]
    times, the last time with the status it returns. *)
Theorem pollTaskStatus_events (E : env) (taskId : string) (options : poll_options)
    (w : world) :
  let n := turns (default (QArith_base.inject_Z 30) (maxAttempts options)) in
  let trace := snd (pollTaskStatus enough E taskId options w) in
  let k := length (w_fetched w) in
  let calls (m : nat) := if onProgress options then m else 0 in
  Spec.blank taskId = false ->
  forall j : nat,
    (forall i, i < j ->
       exists data, Spec.answers E (k + i) data /\ Spec.under_way data) ->
    (j = n ->
       Facts.slept trace = n /\ Facts.progressed trace = calls n
       /\ Forall (fun ev => match ev with
                            | Slept t => t = default 2000%Z (interval options)
                            | _ => True
                            end) trace)
    /\ (j < n -> forall data, Spec.answers E (k + j) data -> Spec.finished data ->
          Facts.slept trace = j /\ Facts.progressed trace = calls (S j)
          /\ (onProgress options = true -> last trace = Some (Progress (Some data)))
          /\ Forall (fun ev => match ev with
                               | Slept t => t = default 2000%Z (interval options)
                               | _ => True
                               end) trace).
Proof.
  intros n trace k calls Hb j Hall. subst trace calls. unfold pollTaskStatus. fold n.
  set (ms := default 2000%Z (interval options)).
  set (callback := onProgress options).
  split.
  - intros Hj.
    destruct (poll_trace_under_way E taskId ms callback Hb j 0 w Hall)
      as (before & wj & Htrace & _ & Hslept & Hprog & Hms).
    rewrite Nat.add_0_r, Hj in Htrace. cbn [poll_loop snd] in Htrace.
    rewrite List.app_nil_r in Htrace. rewrite Htrace, Hslept, Hprog, <- Hj. auto.
  - intros Hj data Hans (st & Hst & Hterm).
    destruct (poll_trace_under_way E taskId ms callback Hb j (n - j) w Hall)
      as (before & wj & Htrace & Hlen & Hslept & Hprog & Hms).
    replace (j + (n - j)) with n in Htrace by lia.
    replace (n - j) with (S (n - S j)) in Htrace by lia.
    fold k in Hlen. rewrite <- Hlen in Hans.
    destruct (getTaskStatus_answered E taskId wj data Hb Hans)
      as (c & w1 & status & Hget & _).
    cbn [poll_loop] in Htrace. rewrite Hget in Htrace.
    cbn [ar_error ar_data truthy] in Htrace. rewrite Hst, Hterm in Htrace.
    cbn [snd] in Htrace. rewrite Htrace.
    rewrite slept_app, progressed_app, Hslept, Hprog.
    split; [destruct callback; unfold Facts.slept; simpl; lia|].
    split; [destruct callback; unfold Facts.progressed; simpl; lia|].
    split.
    + intros Hcb. rewrite Hcb.
      change ([Asked; Answered (mkApiResponse (Some data) status None
                                  (Some "Task status retrieved successfully"))]
              ++ [Progress (Some data)])
        with ([Asked; Answered (mkApiResponse (Some data) status None
                                  (Some "Task status retrieved successfully"));
               Progress (Some data)]).
      rewrite last_app. reflexivity.
    + apply Forall_app. split; [exact Hms|]. destruct callback; repeat constructor.
Qed.

Lemma pollTaskStatus_events_witness :
  Facts.slept (snd (pollTaskStatus enough Spec.busy_server "task-1"
                      Spec.two_and_a_half_attempts Spec.empty_page)) = 3
  /\ Facts.progressed (snd (pollTaskStatus enough Spec.busy_server "task-1"
                              Spec.two_and_a_half_attempts Spec.empty_page)) = 3
  /\ Forall (fun ev => match ev with
                       | Slept t => t = 2000%Z
                       | _ => True
                       end)
            (snd (pollTaskStatus enough Spec.busy_server "task-1"
                    Spec.two_and_a_half_attempts Spec.empty_page)).
Proof.
  refine (proj1 (pollTaskStatus_events Spec.busy_server "task-1" Spec.two_and_a_half_attempts
                   Spec.empty_page eq_refl 3 _) eq_refl).
  intros i _. exists (JObject [("status", JString "running")]). split.
  - eexists. split; [reflexivity|]. split; reflexivity.
  - exists (Some (JString "running")). split; reflexivity.
Defined.

(** ** From the chat view to the permission modal *)

(** X23: when the server answers a message with missing permissions, the
    chat view replaces the optimistic entry by the server's copy of the
    user's message followed by a notice that names the permissions (an
    assistant reply in the same answer is not shown), empties the composer,
    and asks the page for them; the page then shows the modal for exactly
    these permissions and keeps the state string for the grant. *)
Theorem permission_request_flow (User : Type) (clock : nat -> Z) (toISOString : Z -> string)
    (conversationId : option Z) (response : Frontend.Chat.SendMessageResponse)
    (missing : list string) (c : Frontend.Chat.chat) (h : Frontend.home User) (u : User) :
  trim (Frontend.Chat.inputMessage c) <> "" -> Frontend.Chat.loading c = false ->
  Frontend.Chat.requires_permissions response = true ->
  Frontend.Chat.missing_permissions response = Some missing ->
  Frontend.user User h = Some u -> Frontend.loading User h = false ->
  let sent := Frontend.Chat.handleSendMessage clock toISOString conversationId
                (Some response) c in
  exists state notice,
    Frontend.Chat.permission_request (snd sent) = Some (missing, state)
    /\ Frontend.Chat.messages (fst sent)
       = Frontend.Chat.messages c ++ [Frontend.Chat.user_message response; notice]
    /\ Frontend.Chat.role notice = Frontend.Chat.assistant
    /\ Frontend.Chat.content notice
       = "I need additional permissions to help you with this request. Please grant access to: "
         +:+ join ", " missing
    /\ Frontend.Chat.inputMessage (fst sent) = ""
    /\ Frontend.Chat.loading (fst sent) = false
    /\ Frontend.render User (Page.handlePermissionRequest User missing state h)
       = Frontend.Application (Some missing)
    /\ Frontend.oauthState User (Page.handlePermissionRequest User missing state h) = state.
Proof.
  intros Hinput Hloading Hreq Hmissing Huser Hready sent. subst sent.
  unfold Frontend.Chat.handleSendMessage. rewrite Hloading.
  destruct (String.eqb_spec (trim (Frontend.Chat.inputMessage c)) "") as [H|_]; [contradiction|].
  cbn [orb]. cbv zeta. rewrite Hmissing, Hreq. cbn [fst snd].
  eexists _, _. split; [reflexivity|]. split.
  { cbn [Frontend.Chat.messages]. apply replace_with_optimistic. }
  split; [reflexivity|]. split; [reflexivity|]. split; [reflexivity|]. split; [reflexivity|].
  unfold Page.handlePermissionRequest, Frontend.render.
  cbn [Frontend.loading Frontend.user Frontend.showPermissionModal Frontend.requiredPermissions
       Frontend.oauthState].
  rewrite Hready, Huser. split; reflexivity.
Qed.

Lemma permission_request_flow_witness :
  exists state notice,
    Frontend.Chat.permission_request
      (snd (Frontend.Chat.handleSendMessage (fun _ => 1700000000000%Z) (fun _ => "now") None
              (Some (Frontend.Chat.mkSendMessageResponse (Some 7%Z) true (Some ["email"; "keep"])
                       (Frontend.Chat.mkMessage 1 Frontend.Chat.user "Mail my notes" "t0" None)
                       (Some (Frontend.Chat.mkMessage 2 Frontend.Chat.assistant "Done" "t1" None))))
              (Frontend.Chat.mkChat [] "Mail my notes" false)))
    = Some (["email"; "keep"], state)
    /\ Frontend.Chat.messages
         (fst (Frontend.Chat.handleSendMessage (fun _ => 1700000000000%Z) (fun _ => "now") None
                 (Some (Frontend.Chat.mkSendMessageResponse (Some 7%Z) true (Some ["email"; "keep"])
                          (Frontend.Chat.mkMessage 1 Frontend.Chat.user "Mail my notes" "t0" None)
                          (Some (Frontend.Chat.mkMessage 2 Frontend.Chat.assistant "Done" "t1" None))))
                 (Frontend.Chat.mkChat [] "Mail my notes" false)))
       = [] ++ [Frontend.Chat.mkMessage 1 Frontend.Chat.user "Mail my notes" "t0" None; notice]
    /\ Frontend.render unit
         (Page.handlePermissionRequest unit ["email"; "keep"] state
            (Frontend.mkHome unit (Some tt) false None false [] ""))
       = Frontend.Application (Some ["email"; "keep"]).
Proof.
  destruct (permission_request_flow unit (fun _ => 1700000000000%Z) (fun _ => "now") None
              (Frontend.Chat.mkSendMessageResponse (Some 7%Z) true (Some ["email"; "keep"])
                 (Frontend.Chat.mkMessage 1 Frontend.Chat.user "Mail my notes" "t0" None)
                 (Some (Frontend.Chat.mkMessage 2 Frontend.Chat.assistant "Done" "t1" None)))
              ["email"; "keep"]
              (Frontend.Chat.mkChat [] "Mail my notes" false)
              (Frontend.mkHome unit (Some tt) false None false [] "") tt)
    as (state & notice & Hreq & Hmsgs & _ & _ & _ & _ & Hrender & _).
  - vm_compute. discriminate.
  - reflexivity.
  - reflexivity.
  - reflexivity.
  - reflexivity.
  - reflexivity.
  - exists state, notice. auto.
Defined.

(** ** One refresh at a time *)

(** X24: while a token refresh is in flight, no second refresh request is
    sent.  A further call of [refreshToken] issues nothing, and a request
    that is answered 401 joins the refresh under way: it issues its own
    request, and the same request once more if the refresh it joined
    succeeds, and nothing else. *)
Theorem refresh_single_flight (E : env) (cfg : HttpRequestConfig) (w : world) :
  w_isRefreshing w = true ->
  Spec.issued w (refreshToken enough E None w) = []
  /\ exists new,
       Spec.ends_with (makeRequest enough E None cfg w) w new
       /\ Forall (Spec.is_request_of cfg) new
       /\ 1 <= length new <= 2.
Proof.
  intros Hr. split.
  { apply ends_with_issued. exact (refreshToken_joins 0 E None w Hr). }
  unfold enough. cbn [makeRequest].
  set (hdrs := request_headers cfg w).
  set (own := mkFetch (cfg_url cfg) (cfg_method cfg) hdrs (cfg_body cfg)).
  set (w1 := call_fetch cfg hdrs w).
  assert (Hown : Spec.advances w w1 [own]) by apply advances_call_fetch.
  assert (Hone : forall o : outcome HttpResponse,
            Spec.final_world o = Some w1 ->
            exists new, Spec.ends_with o w new /\ Forall (Spec.is_request_of cfg) new
                        /\ 1 <= length new <= 2).
  { intros o Ho. exists [own]. split; [exists w1; auto|].
    split; [repeat constructor|simpl; lia]. }
  cbn [makeRequest_resume].
  destruct (fetch E (length (w_fetched w))) as [e|r]; [now apply Hone|].
  destruct (read_body r) as [data|e]; [|now apply Hone].
  destruct ((r_status r =? 401)%Z && negb (cfg_retry cfg)).
  2:{ destruct (negb (r_ok r)); now apply Hone. }
  destruct (refreshToken_ends 0 E None w1) as [Hjoin|(c & _ & _ & Hfalse)].
  2:{ subst w1. cbn [call_fetch log_fetch w_isRefreshing] in Hfalse. congruence. }
  destruct Hjoin as (w2 & Hf & Hadv).
  destruct (refreshToken 3 E None w1) as [newToken w'|e w'|w'|];
    simpl in Hf; try discriminate Hf; injection Hf as ->.
  - set (again := retryConfig cfg hdrs newToken).
    set (second := mkFetch (cfg_url again) (cfg_method again) (request_headers again w2)
                           (cfg_body again)).
    exists [own; second]. split; [|split; [|simpl; lia]].
    + destruct (makeRequest_retried 1 E None again w2 eq_refl)
        as [[resp Hm]|[e Hm]]; rewrite Hm; eexists; (split; [reflexivity|]);
        apply (advances_trans w w2 _ [own] [second]);
        try apply advances_call_fetch;
        apply (advances_trans w w1 w2 [own] []); assumption.
    + constructor; [apply is_request_of_own|].
      constructor; [apply is_request_of_retry|constructor].
  - exists [own]. split; [|split; [repeat constructor|simpl; lia]].
    eexists. split; [reflexivity|].
    apply (advances_trans w w2 _ [own] []); [|apply advances_handleAuthFailure].
    apply (advances_trans w w1 w2 [own] []); assumption.
  - exists [own]. split; [|split; [repeat constructor|simpl; lia]].
    eexists. split; [reflexivity|].
    apply (advances_trans w w1 w2 [own] []); assumption.
Qed.

Lemma refresh_single_flight_witness :
  Spec.issued Facts.refreshing (refreshToken enough Facts.always_401 None Facts.refreshing) = []
  /\ exists new,
       Spec.ends_with (makeRequest enough Facts.always_401 None Spec.profile_request
                         Facts.refreshing)
                      Facts.refreshing new
       /\ Forall (Spec.is_request_of Spec.profile_request) new
       /\ 1 <= length new <= 2.
Proof.
  apply (refresh_single_flight Facts.always_401 Spec.profile_request Facts.refreshing).
  reflexivity.
Defined.
